(** * Collaborative whiteboard: scene model, geometry, hit testing and history

    A shallow embedding of the whiteboard's core:
    - [rotatePoint] and class [StrokeUtils]  (src/lib/cursor-manager.ts, second part:
                                              bounds, factories and mutators),
    - class [HitDetector]                    (src/lib/canvas-utils.ts, second part),
    - class [CoordinateTransformer]          (src/lib/export-utils.tsx, second part),
    - the store [Store]                      (src/hooks/use-whiteboard-store.ts, the
                                              store composed of the slices under
                                              src/hooks/store/).

    JavaScript numbers are modelled as exact reals, arrays as lists, optional
    fields as [option].  The only capability taken from the environment is the
    2D text measurer of the browser canvas ([Ctx2d]). *)

From Stdlib Require Import Reals Lra Lia ZArith List String Ascii Bool.
Import ListNotations.
Open Scope R_scope.

(** ** JavaScript primitives used by the code *)

Module JS.

(** [a <= b], [a < b] and so on, as the booleans the code branches on. *)
Definition leb (a b : R) : bool := if Rle_dec a b then true else false.
Definition ltb (a b : R) : bool := if Rlt_dec a b then true else false.
Definition geb (a b : R) : bool := leb b a.
Definition gtb (a b : R) : bool := ltb b a.

(** Truthiness of a number: [0] is falsy. *)
Definition truthyNum (a : R) : bool := if Req_dec_T a 0 then false else true.

(** [v || d] on an optional number. *)
Definition orNum (v : option R) (d : R) : R :=
  match v with
  | Some a => if truthyNum a then a else d
  | None => d
  end.

(** [v ?? d] on an optional number. *)
Definition nullishNum (v : option R) (d : R) : R :=
  match v with Some a => a | None => d end.

(** [v || ''] on an optional string. *)
Definition orStr (v : option string) : string :=
  match v with Some s => s | None => EmptyString end.

(** Truthiness of an optional string: [null], [undefined] and [''] are falsy. *)
Definition truthyStr (v : option string) : bool :=
  match v with
  | Some s => negb (String.eqb s EmptyString)
  | None => false
  end.

(** [ids.includes(id)]. *)
Definition includes (ids : list string) (id : string) : bool :=
  existsb (String.eqb id) ids.

(** [arr.slice(0, e)] for an integer [e]: a negative end counts from the
    end of the array, an end past the length stops at the length. *)
Definition slice0 {A : Type} (arr : list A) (e : Z) : list A :=
  if (e <? 0)%Z
  then firstn (Z.to_nat (Z.of_nat (List.length arr) + e)) arr
  else firstn (Z.to_nat e) arr.

(** [arr[i]] for an integer [i]: [undefined] outside the array. *)
Definition index {A : Type} (arr : list A) (i : Z) : option A :=
  if (i <? 0)%Z then None else nth_error arr (Z.to_nat i).

(** [arr.length] as a JavaScript number. *)
Definition len {A : Type} (arr : list A) : Z := Z.of_nat (List.length arr).

(** [arr.find(p)]. *)
Definition find {A : Type} (p : A -> bool) (arr : list A) : option A :=
  List.find p arr.

Definition newline : ascii := "010"%char.

(** [text.split('\n')]: never empty, the empty string gives one empty line. *)
Fixpoint splitLines (s : string) : list string :=
  match s with
  | EmptyString => [EmptyString]
  | String c rest =>
      if Ascii.eqb c newline then EmptyString :: splitLines rest
      else match splitLines rest with
           | l :: ls => String c l :: ls
           | [] => [String c EmptyString]
           end
  end.

(** White space removed by [trim].  A string is a sequence of UTF-16 code
    units, and the model holds the units below 256, one per character; of
    these [trim] strips U+0009 to U+000D, U+0020 and the no-break space
    U+00A0 (the other white space of ECMAScript lies above U+00FF). *)
Definition isSpace (c : ascii) : bool :=
  let n := nat_of_ascii c in
  (Nat.eqb n 32 || (Nat.leb 9 n && Nat.leb n 13) || Nat.eqb n 160)%bool.

(** Truthiness of [text.trim()]: some character is not white space. *)
Fixpoint trimTruthy (s : string) : bool :=
  match s with
  | EmptyString => false
  | String c rest => (negb (isSpace c) || trimTruthy rest)%bool
  end.

(** [Math.atan2(y, x)] over the reals. *)
Definition atan2 (y x : R) : R :=
  if Rlt_dec 0 x then atan (y / x)
  else if Rlt_dec x 0 then
    (if Rle_dec 0 y then atan (y / x) + PI else atan (y / x) - PI)
  else if Rlt_dec 0 y then PI / 2
  else if Rlt_dec y 0 then - PI / 2
  else 0.

(** [Math.hypot(a, b)]. *)
Definition hypot (a b : R) : R := sqrt (a ^ 2 + b ^ 2).

(** [text.length] as a JavaScript number. *)
Definition strLen (s : string) : Z := Z.of_nat (String.length s).

(** A relative index of [slice]: negative counts from the end, and the
    result is clamped to [0 .. len]. *)
Definition clampIndex (len i : Z) : Z :=
  if (i <? 0)%Z then Z.max (len + i) 0 else Z.min i len.

(** [text.slice(start, end)]; [None] for an omitted [end]. *)
Definition strSlice (s : string) (start : Z) (stop : option Z) : string :=
  let len := strLen s in
  let from := clampIndex len start in
  let to := match stop with Some e => clampIndex len e | None => len end in
  String.substring (Z.to_nat from) (Z.to_nat (Z.max (to - from) 0)) s.

End JS.

(** ** Data model (lib/types.ts) *)

Module Tool.
Inductive t : Type :=
| pen | eraser | pan | rectangle | ellipse | line | text | select.

Definition eqb (a b : t) : bool :=
  match a, b with
  | pen, pen | eraser, eraser | pan, pan | rectangle, rectangle
  | ellipse, ellipse | line, line | text, text | select, select => true
  | _, _ => false
  end.
End Tool.

Module Point.
Record t : Type := mk { x : R; y : R }.
End Point.
Abbreviation Point := Point.t.

Module Bounds.
Record t : Type := mk { minX : R; minY : R; maxX : R; maxY : R }.
End Bounds.
Abbreviation Bounds := Bounds.t.

Module Stroke.
Record t : Type := mk {
  id : string;
  type : Tool.t;
  points : list Point;
  color : string;
  strokeWidth : R;
  startPoint : option Point;
  endPoint : option Point;
  text : option string;
  fontSize : option R;
  mathMode : option bool;
  selected : option bool;
  rotation : option R;
  bounds : option Bounds
}.

(** Object spreads [{ ...stroke, field: v }], one per field the code overrides. *)
Definition withPoints (ps : list Point) (s : t) : t :=
  mk (id s) (type s) ps (color s) (strokeWidth s) (startPoint s) (endPoint s)
     (text s) (fontSize s) (mathMode s) (selected s) (rotation s) (bounds s).

Definition withShape (sp ep : Point) (s : t) : t :=
  mk (id s) (type s) (points s) (color s) (strokeWidth s) (Some sp) (Some ep)
     (text s) (fontSize s) (mathMode s) (selected s) (rotation s) (bounds s).

Definition withEndPoint (ep : Point) (s : t) : t :=
  mk (id s) (type s) (points s) (color s) (strokeWidth s) (startPoint s) (Some ep)
     (text s) (fontSize s) (mathMode s) (selected s) (rotation s) (bounds s).

Definition withColor (c : string) (s : t) : t :=
  mk (id s) (type s) (points s) c (strokeWidth s) (startPoint s) (endPoint s)
     (text s) (fontSize s) (mathMode s) (selected s) (rotation s) (bounds s).

Definition withText (tx : string) (s : t) : t :=
  mk (id s) (type s) (points s) (color s) (strokeWidth s) (startPoint s) (endPoint s)
     (Some tx) (fontSize s) (mathMode s) (selected s) (rotation s) (bounds s).

Definition withFontSize (f : option R) (s : t) : t :=
  mk (id s) (type s) (points s) (color s) (strokeWidth s) (startPoint s) (endPoint s)
     (text s) f (mathMode s) (selected s) (rotation s) (bounds s).

Definition withMathMode (m : bool) (s : t) : t :=
  mk (id s) (type s) (points s) (color s) (strokeWidth s) (startPoint s) (endPoint s)
     (text s) (fontSize s) (Some m) (selected s) (rotation s) (bounds s).

Definition withSelected (b : bool) (s : t) : t :=
  mk (id s) (type s) (points s) (color s) (strokeWidth s) (startPoint s) (endPoint s)
     (text s) (fontSize s) (mathMode s) (Some b) (rotation s) (bounds s).

Definition withRotation (r : R) (s : t) : t :=
  mk (id s) (type s) (points s) (color s) (strokeWidth s) (startPoint s) (endPoint s)
     (text s) (fontSize s) (mathMode s) (selected s) (Some r) (bounds s).

(** Truthiness of the [selected] flag. *)
Definition isSelected (s : t) : bool :=
  match selected s with Some b => b | None => false end.
End Stroke.
Abbreviation Stroke := Stroke.t.

Module SelectionBox.
Record t : Type := mk { startX : R; startY : R; endX : R; endY : R }.
End SelectionBox.
Abbreviation SelectionBox := SelectionBox.t.

Module EditingText.
Record t : Type := mk { id : string; x : R; y : R; text : string; mathMode : bool }.
End EditingText.
Abbreviation EditingText := EditingText.t.

(** The canvas 2D context as far as the code uses it: with [ctx.font] set to
    the given size, [measureText(line).width].  [None] stands for
    [getContext('2d')] returning [null]. *)
Definition Ctx2d : Type := option (R -> string -> R).

(** ** Geometry kernel and stroke model (class StrokeUtils) *)

Definition rotatePoint (x y cx cy angle : R) : Point :=
  let c := cos angle in
  let s := sin angle in
  let dx := x - cx in
  let dy := y - cy in
  Point.mk (cx + dx * c - dy * s) (cy + dx * s + dy * c).

Module StrokeUtils.

(** One round of the [forEach] bodies that widen a running box by a point. *)
Definition extend (b : Bounds) (p : Point) : Bounds :=
  Bounds.mk (Rmin (Bounds.minX b) (Point.x p)) (Rmin (Bounds.minY b) (Point.y p))
            (Rmax (Bounds.maxX b) (Point.x p)) (Rmax (Bounds.maxY b) (Point.y p)).

(** The running box started at [(Infinity, Infinity, -Infinity, -Infinity)]
    and widened over a non-empty array [p :: ps]: the first round yields the
    box of [p] alone, since [Infinity] is neutral for [Math.min] and
    [-Infinity] for [Math.max]. *)
Definition boxOf (p : Point) (ps : list Point) : Bounds :=
  fold_left extend ps
    (Bounds.mk (Point.x p) (Point.y p) (Point.x p) (Point.y p)).

(** The box of the four corners of [(x0,y0)-(x1,y1)] turned about [(cx,cy)]. *)
Definition rotatedCornerBox (x0 y0 x1 y1 cx cy rotation : R) : Bounds :=
  boxOf (rotatePoint x0 y0 cx cy rotation)
        [ rotatePoint x1 y0 cx cy rotation;
          rotatePoint x1 y1 cx cy rotation;
          rotatePoint x0 y1 cx cy rotation ].

(** [Math.max(20, ...widths)]. *)
Definition maxFrom (d : R) (l : list R) : R := fold_left Rmax l d.

Definition calculateBounds (ctx : Ctx2d) (stroke : Stroke) : Bounds :=
  let rotation := JS.orNum (Stroke.rotation stroke) 0 in
  match Tool.eqb (Stroke.type stroke) Tool.text, Stroke.points stroke with
  | true, point :: _ =>
      let fontSize := JS.orNum (Stroke.fontSize stroke) 16 in
      let text := JS.orStr (Stroke.text stroke) in
      let lineHeight := fontSize * (12 / 10) in
      match ctx with
      | Some measureText =>
          let lines := JS.splitLines text in
          let widths := map (measureText fontSize) lines in
          let w := maxFrom 20 widths in
          let h := Rmax lineHeight (lineHeight * INR (List.length lines)) in
          let pad := 2 in
          if JS.truthyNum rotation then
            let cx := Point.x point + w / 2 in
            let cy := Point.y point + h / 2 in
            let b := rotatedCornerBox (Point.x point) (Point.y point)
                       (Point.x point + w) (Point.y point + h) cx cy rotation in
            Bounds.mk (Bounds.minX b - pad) (Bounds.minY b - pad)
                      (Bounds.maxX b + pad) (Bounds.maxY b + pad)
          else
            Bounds.mk (Point.x point - pad) (Point.y point - pad)
                      (Point.x point + w + pad) (Point.y point + h + pad)
      | None =>
          let approxW := Rmax 20 (INR (String.length text) * fontSize * (6 / 10)) in
          let approxH := lineHeight in
          Bounds.mk (Point.x point) (Point.y point)
                    (Point.x point + approxW) (Point.y point + approxH)
      end
  | _, _ =>
      match Stroke.startPoint stroke, Stroke.endPoint stroke with
      | Some sp, Some ep =>
          let minX0 := Rmin (Point.x sp) (Point.x ep) in
          let minY0 := Rmin (Point.y sp) (Point.y ep) in
          let maxX0 := Rmax (Point.x sp) (Point.x ep) in
          let maxY0 := Rmax (Point.y sp) (Point.y ep) in
          if JS.truthyNum rotation then
            let cx := (minX0 + maxX0) / 2 in
            let cy := (minY0 + maxY0) / 2 in
            rotatedCornerBox minX0 minY0 maxX0 maxY0 cx cy rotation
          else Bounds.mk minX0 minY0 maxX0 maxY0
      | _, _ =>
          match Stroke.points stroke with
          | p :: ps =>
              if JS.truthyNum rotation then
                let u := boxOf p ps in
                let cx := (Bounds.minX u + Bounds.maxX u) / 2 in
                let cy := (Bounds.minY u + Bounds.maxY u) / 2 in
                let rot := fun q : Point =>
                  rotatePoint (Point.x q) (Point.y q) cx cy rotation in
                boxOf (rot p) (map rot ps)
              else boxOf p ps
          | [] => Bounds.mk 0 0 0 0
          end
      end
  end.

Definition createPenStroke (id : string) (point : Point) (color : string)
    (strokeWidth : R) : Stroke :=
  Stroke.mk id Tool.pen [point] color strokeWidth
    None None None None None None None None.

Definition createShapeStroke (id : string) (type : Tool.t)
    (startPoint endPoint : Point) (color : string) (strokeWidth : R) : Stroke :=
  Stroke.mk id type [] color strokeWidth
    (Some startPoint) (Some endPoint) None None None None None None.

Definition createTextStroke (id : string) (point : Point) (text color : string)
    (strokeWidth : R) (fontSize : option R) : Stroke :=
  Stroke.mk id Tool.text [point] color strokeWidth None None (Some text)
    (Some (match fontSize with
           | Some f => if JS.truthyNum f then f else Rmax 16 (strokeWidth * 4)
           | None => Rmax 16 (strokeWidth * 4)
           end))
    None None None None.

Definition applyRotation (stroke : Stroke) (rotation : R) : Stroke :=
  Stroke.withRotation (JS.orNum (Stroke.rotation stroke) 0 + rotation) stroke.

Definition movePoint (deltaX deltaY : R) (p : Point) : Point :=
  Point.mk (Point.x p + deltaX) (Point.y p + deltaY).

Definition applyTranslation (stroke : Stroke) (deltaX deltaY : R) : Stroke :=
  match Tool.eqb (Stroke.type stroke) Tool.text, Stroke.points stroke with
  | true, p0 :: _ => Stroke.withPoints [movePoint deltaX deltaY p0] stroke
  | _, _ =>
      match Stroke.startPoint stroke, Stroke.endPoint stroke with
      | Some sp, Some ep =>
          Stroke.withShape (movePoint deltaX deltaY sp) (movePoint deltaX deltaY ep) stroke
      | _, _ =>
          match Stroke.points stroke with
          | _ :: _ =>
              Stroke.withPoints (map (movePoint deltaX deltaY) (Stroke.points stroke)) stroke
          | [] => stroke
          end
      end
  end.

(** The [switch (handle)] of the text branch: the new font size. *)
Definition resizedFontSize (handle : string) (currentFontSize deltaY : R) : R :=
  if (String.eqb handle "se" || String.eqb handle "sw" || String.eqb handle "s")%bool
  then Rmax 12 (currentFontSize + deltaY * (8 / 10))
  else if (String.eqb handle "ne" || String.eqb handle "nw" || String.eqb handle "n")%bool
  then Rmax 12 (currentFontSize - deltaY * (8 / 10))
  else currentFontSize.

(** The [switch (handle)] of the shape branch: the new start and end point. *)
Definition resizedShape (handle : string) (sp ep : Point) (deltaX deltaY : R)
    : Point * Point :=
  let sx := Point.x sp in let sy := Point.y sp in
  let ex := Point.x ep in let ey := Point.y ep in
  if String.eqb handle "nw" then (Point.mk (sx + deltaX) (sy + deltaY), Point.mk ex ey)
  else if String.eqb handle "ne" then (Point.mk sx (sy + deltaY), Point.mk (ex + deltaX) ey)
  else if String.eqb handle "sw" then (Point.mk (sx + deltaX) sy, Point.mk ex (ey + deltaY))
  else if String.eqb handle "se" then (Point.mk sx sy, Point.mk (ex + deltaX) (ey + deltaY))
  else if String.eqb handle "n" then (Point.mk sx (sy + deltaY), Point.mk ex ey)
  else if String.eqb handle "s" then (Point.mk sx sy, Point.mk ex (ey + deltaY))
  else if String.eqb handle "w" then (Point.mk (sx + deltaX) sy, Point.mk ex ey)
  else if String.eqb handle "e" then (Point.mk sx sy, Point.mk (ex + deltaX) ey)
  else (Point.mk sx sy, Point.mk ex ey).

Definition applyResize (stroke : Stroke) (handle : string) (deltaX deltaY : R) : Stroke :=
  if Tool.eqb (Stroke.type stroke) Tool.text then
    let currentFontSize := JS.orNum (Stroke.fontSize stroke) 16 in
    Stroke.withFontSize (Some (resizedFontSize handle currentFontSize deltaY)) stroke
  else
    match Stroke.startPoint stroke, Stroke.endPoint stroke with
    | Some sp, Some ep =>
        let '(newStartPoint, newEndPoint) := resizedShape handle sp ep deltaX deltaY in
        Stroke.withShape newStartPoint newEndPoint stroke
    | _, _ => stroke
    end.

End StrokeUtils.

(** ** Screen and canvas coordinates (class CoordinateTransformer) *)

Module CoordinateTransformer.

(** What the code reads of [canvas.getBoundingClientRect()]. *)
Record Rect : Type := mkRect { left : R; top : R }.

Record CanvasState : Type := mkCanvasState { zoom : R; panX : R; panY : R }.

Definition screenToCanvas (screenX screenY : R) (rect : Rect) (state : CanvasState) : Point :=
  Point.mk ((screenX - left rect - panX state) / zoom state)
           ((screenY - top rect - panY state) / zoom state).

Definition canvasToScreen (canvasX canvasY : R) (rect : Rect) (state : CanvasState) : Point :=
  Point.mk (canvasX * zoom state + panX state + left rect)
           (canvasY * zoom state + panY state + top rect).

(** [e.clientX - rect.left], [e.clientY - rect.top]. *)
Definition getWheelPosition (clientX clientY : R) (rect : Rect) : Point :=
  Point.mk (clientX - left rect) (clientY - top rect).

(** The default of [zoomFactor] is [0.1]. *)
Definition calculateZoomFactor (deltaY zoomFactor : R) : R :=
  if JS.gtb deltaY 0 then 1 - zoomFactor else 1 + zoomFactor.

(** The defaults of [minZoom] and [maxZoom] are [0.1] and [5]. *)
Definition applyZoomConstraints (newZoom minZoom maxZoom : R) : R :=
  Rmax minZoom (Rmin maxZoom newZoom).

Definition calculateZoomedPan (mouseX mouseY currentPanX currentPanY currentZoom newZoom : R)
    : R * R :=
  let newPanX := mouseX - (mouseX - currentPanX) * (newZoom / currentZoom) in
  let newPanY := mouseY - (mouseY - currentPanY) * (newZoom / currentZoom) in
  (newPanX, newPanY).

End CoordinateTransformer.


(** ** Hit detection (class HitDetector) *)

Module HitDetector.

Definition distance (p q : Point) : R :=
  sqrt ((Point.x p - Point.x q) ^ 2 + (Point.y p - Point.y q) ^ 2).

(** [minX <= x && x <= maxX && minY <= y && y <= maxY]. *)
Definition inBox (minX minY maxX maxY : R) (px py : R) : bool :=
  (JS.geb px minX && JS.leb px maxX && JS.geb py minY && JS.leb py maxY)%bool.

(** The body of the loop of [getStrokeAtPoint]: does [stroke] take the hit? *)
Definition hitTest (calculateBounds : Stroke -> Bounds) (point : Point)
    (stroke : Stroke) : bool :=
  match Tool.eqb (Stroke.type stroke) Tool.text, Stroke.points stroke with
  | true, _ :: _ =>
      let bounds := calculateBounds stroke in
      inBox (Bounds.minX bounds) (Bounds.minY bounds)
            (Bounds.maxX bounds) (Bounds.maxY bounds)
            (Point.x point) (Point.y point)
  | _, _ =>
      match Stroke.startPoint stroke, Stroke.endPoint stroke with
      | Some sp, Some ep =>
          let minX := Rmin (Point.x sp) (Point.x ep) - 12 in
          let maxX := Rmax (Point.x sp) (Point.x ep) + 12 in
          let minY := Rmin (Point.y sp) (Point.y ep) - 12 in
          let maxY := Rmax (Point.y sp) (Point.y ep) + 12 in
          inBox minX minY maxX maxY (Point.x point) (Point.y point)
      | _, _ =>
          match Stroke.points stroke with
          | _ :: _ =>
              existsb (fun p =>
                         JS.leb (distance p point)
                                (Rmax 14 (Stroke.strokeWidth stroke + 10)))
                      (Stroke.points stroke)
          | [] => false
          end
      end
  end.

(** [for (let i = n - 1; i >= 0; i--)]: the indices below [n], downwards. *)
Fixpoint scanDown (calculateBounds : Stroke -> Bounds) (point : Point)
    (strokes : list Stroke) (n : nat) : option Stroke :=
  match n with
  | O => None
  | S i =>
      match nth_error strokes i with
      | Some stroke =>
          if hitTest calculateBounds point stroke then Some stroke
          else scanDown calculateBounds point strokes i
      | None => scanDown calculateBounds point strokes i
      end
  end.

Definition getStrokeAtPoint (point : Point) (strokes : list Stroke)
    (calculateBounds : Stroke -> Bounds) : option Stroke :=
  scanDown calculateBounds point strokes (List.length strokes).

Definition isPointInSelectionBox (point : Point) (selectionBox : SelectionBox) : bool :=
  let minX := Rmin (SelectionBox.startX selectionBox) (SelectionBox.endX selectionBox) in
  let maxX := Rmax (SelectionBox.startX selectionBox) (SelectionBox.endX selectionBox) in
  let minY := Rmin (SelectionBox.startY selectionBox) (SelectionBox.endY selectionBox) in
  let maxY := Rmax (SelectionBox.startY selectionBox) (SelectionBox.endY selectionBox) in
  inBox minX minY maxX maxY (Point.x point) (Point.y point).

(** [strokeMinX <= maxX && strokeMaxX >= minX && strokeMinY <= maxY && strokeMaxY >= minY]. *)
Definition overlaps (sMinX sMinY sMaxX sMaxY minX minY maxX maxY : R) : bool :=
  (JS.leb sMinX maxX && JS.geb sMaxX minX && JS.leb sMinY maxY && JS.geb sMaxY minY)%bool.

(** The filter of [getStrokesInSelectionBox], for the normalized box. *)
Definition inSelection (minX minY maxX maxY : R) (stroke : Stroke) : bool :=
  match Tool.eqb (Stroke.type stroke) Tool.text, Stroke.points stroke with
  | true, point :: _ =>
      inBox minX minY maxX maxY (Point.x point) (Point.y point)
  | _, _ =>
      match Stroke.startPoint stroke, Stroke.endPoint stroke with
      | Some sp, Some ep =>
          overlaps (Rmin (Point.x sp) (Point.x ep)) (Rmin (Point.y sp) (Point.y ep))
                   (Rmax (Point.x sp) (Point.x ep)) (Rmax (Point.y sp) (Point.y ep))
                   minX minY maxX maxY
      | _, _ =>
          match Stroke.points stroke with
          | _ :: _ =>
              existsb (fun point =>
                         inBox minX minY maxX maxY (Point.x point) (Point.y point))
                      (Stroke.points stroke)
          | [] => false
          end
      end
  end.

Definition getStrokesInSelectionBox (strokes : list Stroke)
    (selectionBox : SelectionBox) : list string :=
  let minX := Rmin (SelectionBox.startX selectionBox) (SelectionBox.endX selectionBox) in
  let maxX := Rmax (SelectionBox.startX selectionBox) (SelectionBox.endX selectionBox) in
  let minY := Rmin (SelectionBox.startY selectionBox) (SelectionBox.endY selectionBox) in
  let maxY := Rmax (SelectionBox.startY selectionBox) (SelectionBox.endY selectionBox) in
  map Stroke.id (filter (inSelection minX minY maxX maxY) strokes).

(** The unrotated frame of the selected stroke in [getResizeHandle]: centre
    [(cx, cy)], width and height. *)
Definition frameOf (ctx : Ctx2d) (stroke : Stroke) : R * R * R * R :=
  match Tool.eqb (Stroke.type stroke) Tool.text, Stroke.points stroke with
  | true, p0 :: _ =>
      let fontSize := JS.orNum (Stroke.fontSize stroke) 16 in
      let text := JS.orStr (Stroke.text stroke) in
      let lineHeight := fontSize * (12 / 10) in
      let w0 :=
        match ctx with
        | Some measureText =>
            StrokeUtils.maxFrom 20 (map (measureText fontSize) (JS.splitLines text))
        | None => 20
        end in
      let h0 :=
        Rmax lineHeight
             (lineHeight * Rmax 1 (INR (List.length (JS.splitLines text)))) in
      (Point.x p0 + w0 / 2, Point.y p0 + h0 / 2, w0, h0)
  | _, _ =>
      match Stroke.startPoint stroke, Stroke.endPoint stroke with
      | Some sp, Some ep =>
          let minX0 := Rmin (Point.x sp) (Point.x ep) in
          let minY0 := Rmin (Point.y sp) (Point.y ep) in
          let maxX0 := Rmax (Point.x sp) (Point.x ep) in
          let maxY0 := Rmax (Point.y sp) (Point.y ep) in
          ((minX0 + maxX0) / 2, (minY0 + maxY0) / 2, maxX0 - minX0, maxY0 - minY0)
      | _, _ =>
          match Stroke.points stroke with
          | p :: ps =>
              let u := StrokeUtils.boxOf p ps in
              ((Bounds.minX u + Bounds.maxX u) / 2, (Bounds.minY u + Bounds.maxY u) / 2,
               Bounds.maxX u - Bounds.minX u, Bounds.maxY u - Bounds.minY u)
          | [] => (0, 0, 0, 0)
          end
      end
  end.

(** The point in the stroke's local space: relative to the centre and
    turned by [-rotation]. *)
Definition toLocal (cx cy rotation : R) (point : Point) : R * R :=
  let c := cos (- rotation) in
  let s := sin (- rotation) in
  let dx := Point.x point - cx in
  let dy := Point.y point - cy in
  (dx * c - dy * s, dx * s + dy * c).

Definition handlesLocal (hw hh : R) : list (string * (R * R)) :=
  [ ("nw"%string, (- hw, - hh)); ("ne"%string, (hw, - hh));
    ("sw"%string, (- hw, hh)); ("se"%string, (hw, hh));
    ("n"%string, (0, - hh)); ("s"%string, (0, hh));
    ("w"%string, (- hw, 0)); ("e"%string, (hw, 0)) ].

(** The test of the loop over [handlesLocal]. *)
Definition onHandle (handleSize lx ly : R) (hnd : string * (R * R)) : bool :=
  let hx := fst (snd hnd) in
  let hy := snd (snd hnd) in
  (JS.geb lx (hx - handleSize) && JS.leb lx (hx + handleSize)
   && JS.geb ly (hy - handleSize) && JS.leb ly (hy + handleSize))%bool.

(** [calculateBounds] is a parameter of the source function that its body
    never calls. *)
Definition getResizeHandle (ctx : Ctx2d) (point : Point) (selectedStrokes : list string)
    (strokes : list Stroke) (zoom : R) (calculateBounds : Stroke -> Bounds)
    : option string :=
  match selectedStrokes with
  | [selectedId] =>
      match JS.find (fun s => String.eqb (Stroke.id s) selectedId) strokes with
      | None => None
      | Some stroke =>
          let rotation := JS.orNum (Stroke.rotation stroke) 0 in
          let pad := 6 / zoom in
          let '(cx, cy, w, h) := frameOf ctx stroke in
          let '(lx, ly) := toLocal cx cy rotation point in
          let hw := w / 2 + pad in
          let hh := h / 2 + pad in
          let handleSize := 8 / zoom in
          let rotationHandleDistance := 30 / zoom in
          match List.find (onHandle handleSize lx ly) (handlesLocal hw hh) with
          | Some hnd => Some (fst hnd)
          | None =>
              let rX := 0 in
              let rY := - hh - rotationHandleDistance in
              let dist := JS.hypot (lx - rX) (ly - rY) in
              if JS.leb dist handleSize then Some "rotate"%string else None
          end
      end
  | _ => None
  end.

End HitDetector.

(** ** The renderer's pure parts (class CanvasRenderer, src/lib/canvas-utils.ts) *)

Module CanvasRenderer.

(** [getStrokeCenter]: the pivot a rotated stroke is painted about.  The
    renderer always holds a 2D context, so the measurer is there. *)
Definition getStrokeCenter (measureText : R -> string -> R) (stroke : Stroke) : R * R :=
  match Tool.eqb (Stroke.type stroke) Tool.text, Stroke.points stroke with
  | true, p :: _ =>
      let fontSize := JS.orNum (Stroke.fontSize stroke) 16 in
      let lines := JS.splitLines (JS.orStr (Stroke.text stroke)) in
      let widths := map (measureText fontSize) lines in
      let w := StrokeUtils.maxFrom 20 widths in
      let h := Rmax (fontSize * (12 / 10)) (INR (List.length lines) * fontSize * (12 / 10)) in
      (Point.x p + w / 2, Point.y p + h / 2)
  | _, _ =>
      match Stroke.startPoint stroke, Stroke.endPoint stroke with
      | Some sp, Some ep =>
          let minX := Rmin (Point.x sp) (Point.x ep) in
          let maxX := Rmax (Point.x sp) (Point.x ep) in
          let minY := Rmin (Point.y sp) (Point.y ep) in
          let maxY := Rmax (Point.y sp) (Point.y ep) in
          ((minX + maxX) / 2, (minY + maxY) / 2)
      | _, _ =>
          match Stroke.points stroke with
          | pt :: pts =>
              let u := StrokeUtils.boxOf pt pts in
              ((Bounds.minX u + Bounds.maxX u) / 2, (Bounds.minY u + Bounds.maxY u) / 2)
          | [] => (0, 0)
          end
      end
  end.

(** The line width of one pen segment in [drawPenStroke]: pressure is
    simulated from the distance between consecutive samples. *)
Definition segmentLineWidth (strokeWidth : R) (current next : Point) : R :=
  let distance :=
    sqrt ((Point.x next - Point.x current) ^ 2 + (Point.y next - Point.y current) ^ 2) in
  let speed := Rmin distance 20 in
  let pressureFactor := Rmax (3 / 10) (1 - speed / 20) in
  strokeWidth * pressureFactor.

End CanvasRenderer.

(** ** Mouse input (class MouseEventHandler, src/lib/event-handlers.ts) *)

Module MouseEventHandler.

(** [handleWheel]: the canvas state handed to [onCanvasStateUpdate]. *)
Definition handleWheel (clientX clientY deltaY : R) (rect : CoordinateTransformer.Rect)
    (canvasState : CoordinateTransformer.CanvasState) : CoordinateTransformer.CanvasState :=
  let mousePos := CoordinateTransformer.getWheelPosition clientX clientY rect in
  let zoomFactor := CoordinateTransformer.calculateZoomFactor deltaY (1 / 10) in
  let newZoom :=
    CoordinateTransformer.applyZoomConstraints
      (CoordinateTransformer.zoom canvasState * zoomFactor) (1 / 10) 5 in
  let '(panX, panY) :=
    CoordinateTransformer.calculateZoomedPan (Point.x mousePos) (Point.y mousePos)
      (CoordinateTransformer.panX canvasState) (CoordinateTransformer.panY canvasState)
      (CoordinateTransformer.zoom canvasState) newZoom in
  CoordinateTransformer.mkCanvasState newZoom panX panY.

(** What [handleSelectMouseDown] starts after the selection update. *)
Inductive Gesture : Type :=
| StartResizing (handle : string) (point : Point)
| StartDragging (point : Point)
| StartSelection (point : Point).

(** [handleSelectMouseDown]: the array handed to [onSelectionUpdate], if the
    callback is called at all, and the gesture started. *)
Definition handleSelectMouseDown (ctx : Ctx2d) (point : Point) (shiftKey : bool)
    (selectedStrokes : list string) (strokes : list Stroke) (zoom : R)
    (calculateBounds : Stroke -> Bounds) : option (list string) * Gesture :=
  let afterHandleCheck :=
    match HitDetector.getStrokeAtPoint point strokes calculateBounds with
    | Some clickedStroke =>
        (if negb (JS.includes selectedStrokes (Stroke.id clickedStroke))
         then Some (if shiftKey then selectedStrokes ++ [Stroke.id clickedStroke]
                    else [Stroke.id clickedStroke])
         else None,
         StartDragging point)
    | None => (if negb shiftKey then Some [] else None, StartSelection point)
    end in
  let handle :=
    HitDetector.getResizeHandle ctx point selectedStrokes strokes zoom calculateBounds in
  if JS.truthyStr handle
  then (None, StartResizing (JS.orStr handle) point)
  else afterHandleCheck.

End MouseEventHandler.

(** ** Text editing helpers of the component (src/components/whiteboard.tsx) *)

Module Whiteboard.

Definition getLines (text : string) : list string := JS.splitLines text.

(** The loop of [indexToLineCol] over the lines left, with the running
    offset [acc] and line number [li]; [None] when the loop runs out. *)
Fixpoint indexToLineColLoop (lines : list string) (index acc li : Z) : option (Z * Z) :=
  match lines with
  | [] => None
  | l :: rest =>
      let len := JS.strLen l in
      if (index <=? acc + len)%Z then Some (li, (index - acc)%Z)
      else indexToLineColLoop rest index (acc + len + 1)%Z (li + 1)%Z
  end.

Definition indexToLineCol (text : string) (index : Z) : Z * Z :=
  let lines := getLines text in
  match indexToLineColLoop lines index 0%Z 0%Z with
  | Some lc => lc
  | None =>
      ((JS.len lines - 1)%Z,
       JS.strLen (JS.orStr (JS.index lines (JS.len lines - 1)%Z)))
  end.

(** The loop runs over the first [min(line, lines.length)] lines. *)
Definition lineColToIndex (text : string) (line col : Z) : Z :=
  let lines := getLines text in
  let acc :=
    fold_left (fun acc l => (acc + (JS.strLen l + 1))%Z)
              (firstn (Z.to_nat (Z.min line (JS.len lines))) lines) 0%Z in
  Z.min (acc + col) (JS.strLen text).

(** The editing buffer with the caret references of the component. *)
Record Editor : Type := mkEditor {
  text : string;
  caretIndex : Z;
  desiredColumn : option Z
}.

(** What a key does to the store. *)
Inductive KeyEffect : Type :=
| CloseEditor
| UpdateText (newText : string)
| NoStoreCall.

Definition newlineString : string := String JS.newline EmptyString.

(** The [keydown] handler installed while a text is edited: the store call
    it makes and the buffer and caret it leaves. *)
Definition onKeyDown (key : string) (isCtrl : bool) (ed : Editor) : KeyEffect * Editor :=
  let text := text ed in
  let idx := caretIndex ed in
  if String.eqb key "Escape" then (CloseEditor, ed)
  else if String.eqb key "Enter" then
    let newText := (JS.strSlice text 0 (Some idx) ++ newlineString
                    ++ JS.strSlice text idx None)%string in
    (UpdateText newText, mkEditor newText (idx + 1) (desiredColumn ed))
  else if String.eqb key "Backspace" then
    if (0 <? idx)%Z then
      let newText := (JS.strSlice text 0 (Some (idx - 1)%Z) ++ JS.strSlice text idx None)%string in
      (UpdateText newText, mkEditor newText (idx - 1) (desiredColumn ed))
    else (NoStoreCall, ed)
  else if String.eqb key "Delete" then
    if (idx <? JS.strLen text)%Z then
      let newText := (JS.strSlice text 0 (Some idx) ++ JS.strSlice text (idx + 1) None)%string in
      (UpdateText newText, mkEditor newText idx (desiredColumn ed))
    else (NoStoreCall, ed)
  else if String.eqb key "ArrowLeft" then
    (NoStoreCall, mkEditor text (Z.max 0 (idx - 1)) None)
  else if String.eqb key "ArrowRight" then
    (NoStoreCall, mkEditor text (Z.min (JS.strLen text) (idx + 1)) None)
  else if (String.eqb key "ArrowUp" || String.eqb key "ArrowDown")%bool then
    let '(line, col) := indexToLineCol text idx in
    let targetLine :=
      if String.eqb key "ArrowUp" then Z.max 0 (line - 1)
      else Z.min (JS.len (getLines text) - 1) (line + 1) in
    let desiredCol := match desiredColumn ed with Some d => d | None => col end in
    let newCol := Z.min desiredCol (JS.strLen (JS.orStr (JS.index (getLines text) targetLine))) in
    (NoStoreCall, mkEditor text (lineColToIndex text targetLine newCol) (Some desiredCol))
  else if (Nat.eqb (String.length key) 1 && negb isCtrl)%bool then
    let newText := (JS.strSlice text 0 (Some idx) ++ key ++ JS.strSlice text idx None)%string in
    (UpdateText newText, mkEditor newText (idx + 1) None)
  else (NoStoreCall, ed).

End Whiteboard.

(** ** The store (hooks/use-whiteboard-store.ts and hooks/store/*-slice.ts)

    The state is the store's state without the saved-document list, which no
    operation on the scene reads.  Each action is a function on states, named
    as in the source; where the store overrides a slice's action, the store's
    version is the one modelled (the slice's is kept under [Slice] where the
    two differ and a property below depends on it). *)

Module Store.

(** A computed property of the store object.  The creator defines it as an
    accessor; [set] merges with [Object.assign({}, state, partial)], which
    reads every own property of the old state once and writes the result as
    a data property, so after the first [set] the property is the plain value
    the accessor gave then, and no action writes it again. *)
Inductive Computed : Type :=
| Accessor
| Plain (value : bool).

Record State : Type := mkState {
  currentTool : Tool.t;
  currentColor : string;
  currentStrokeWidth : R;
  zoom : R;
  panX : R;
  panY : R;
  strokes : list Stroke;
  currentStroke : option Stroke;
  isDrawingShape : bool;
  shapeStartPoint : option Point;
  selectedStrokes : list string;
  selectionBox : option SelectionBox;
  isSelecting : bool;
  isDragging : bool;
  dragStart : option Point;
  resizeHandle : option string;
  isRotating : bool;
  rotateStart : option Point;
  editingText : option EditingText;
  history : list (list Stroke);
  historyIndex : Z;
  isModified : bool;
  canUndoProperty : Computed;
  canRedoProperty : Computed
}.

(** The accessors of the object the creator returns:
    [get canUndo() { return get().historyIndex > 0 }] and
    [get canRedo() { const state = get();
                     return state.historyIndex < state.history.length - 1 }]. *)
Definition get_canUndo (st : State) : bool := (0 <? historyIndex st)%Z.

Definition get_canRedo (st : State) : bool :=
  (historyIndex st <? JS.len (history st) - 1)%Z.

(** Reading [state.canUndo] and [state.canRedo]: the accessor runs while the
    property still is one, a data property gives its value. *)
Definition canUndo (st : State) : bool :=
  match canUndoProperty st with
  | Accessor => get_canUndo st
  | Plain value => value
  end.

Definition canRedo (st : State) : bool :=
  match canRedoProperty st with
  | Accessor => get_canRedo st
  | Plain value => value
  end.

(** [set({ field: v })], one setter per field; every [set] leaves the two
    computed properties as data properties holding what they read in the old
    state. *)
Definition set_currentTool (v : Tool.t) (st : State) : State :=
  mkState v (currentColor st) (currentStrokeWidth st) (zoom st) (panX st) (panY st)
    (strokes st) (currentStroke st) (isDrawingShape st) (shapeStartPoint st)
    (selectedStrokes st) (selectionBox st) (isSelecting st) (isDragging st)
    (dragStart st) (resizeHandle st) (isRotating st) (rotateStart st) (editingText
    st) (history st) (historyIndex st) (isModified st)
    (Plain (canUndo st)) (Plain (canRedo st)).
Definition set_currentColor (v : string) (st : State) : State :=
  mkState (currentTool st) v (currentStrokeWidth st) (zoom st) (panX st) (panY st)
    (strokes st) (currentStroke st) (isDrawingShape st) (shapeStartPoint st)
    (selectedStrokes st) (selectionBox st) (isSelecting st) (isDragging st)
    (dragStart st) (resizeHandle st) (isRotating st) (rotateStart st) (editingText
    st) (history st) (historyIndex st) (isModified st)
    (Plain (canUndo st)) (Plain (canRedo st)).
Definition set_currentStrokeWidth (v : R) (st : State) : State :=
  mkState (currentTool st) (currentColor st) v (zoom st) (panX st) (panY st) (strokes
    st) (currentStroke st) (isDrawingShape st) (shapeStartPoint st) (selectedStrokes
    st) (selectionBox st) (isSelecting st) (isDragging st) (dragStart st)
    (resizeHandle st) (isRotating st) (rotateStart st) (editingText st) (history st)
    (historyIndex st) (isModified st)
    (Plain (canUndo st)) (Plain (canRedo st)).
Definition set_zoom (v : R) (st : State) : State :=
  mkState (currentTool st) (currentColor st) (currentStrokeWidth st) v (panX st)
    (panY st) (strokes st) (currentStroke st) (isDrawingShape st) (shapeStartPoint
    st) (selectedStrokes st) (selectionBox st) (isSelecting st) (isDragging st)
    (dragStart st) (resizeHandle st) (isRotating st) (rotateStart st) (editingText
    st) (history st) (historyIndex st) (isModified st)
    (Plain (canUndo st)) (Plain (canRedo st)).
Definition set_panX (v : R) (st : State) : State :=
  mkState (currentTool st) (currentColor st) (currentStrokeWidth st) (zoom st) v
    (panY st) (strokes st) (currentStroke st) (isDrawingShape st) (shapeStartPoint
    st) (selectedStrokes st) (selectionBox st) (isSelecting st) (isDragging st)
    (dragStart st) (resizeHandle st) (isRotating st) (rotateStart st) (editingText
    st) (history st) (historyIndex st) (isModified st)
    (Plain (canUndo st)) (Plain (canRedo st)).
Definition set_panY (v : R) (st : State) : State :=
  mkState (currentTool st) (currentColor st) (currentStrokeWidth st) (zoom st) (panX
    st) v (strokes st) (currentStroke st) (isDrawingShape st) (shapeStartPoint st)
    (selectedStrokes st) (selectionBox st) (isSelecting st) (isDragging st)
    (dragStart st) (resizeHandle st) (isRotating st) (rotateStart st) (editingText
    st) (history st) (historyIndex st) (isModified st)
    (Plain (canUndo st)) (Plain (canRedo st)).
Definition set_strokes (v : list Stroke) (st : State) : State :=
  mkState (currentTool st) (currentColor st) (currentStrokeWidth st) (zoom st) (panX
    st) (panY st) v (currentStroke st) (isDrawingShape st) (shapeStartPoint st)
    (selectedStrokes st) (selectionBox st) (isSelecting st) (isDragging st)
    (dragStart st) (resizeHandle st) (isRotating st) (rotateStart st) (editingText
    st) (history st) (historyIndex st) (isModified st)
    (Plain (canUndo st)) (Plain (canRedo st)).
Definition set_currentStroke (v : option Stroke) (st : State) : State :=
  mkState (currentTool st) (currentColor st) (currentStrokeWidth st) (zoom st) (panX
    st) (panY st) (strokes st) v (isDrawingShape st) (shapeStartPoint st)
    (selectedStrokes st) (selectionBox st) (isSelecting st) (isDragging st)
    (dragStart st) (resizeHandle st) (isRotating st) (rotateStart st) (editingText
    st) (history st) (historyIndex st) (isModified st)
    (Plain (canUndo st)) (Plain (canRedo st)).
Definition set_isDrawingShape (v : bool) (st : State) : State :=
  mkState (currentTool st) (currentColor st) (currentStrokeWidth st) (zoom st) (panX
    st) (panY st) (strokes st) (currentStroke st) v (shapeStartPoint st)
    (selectedStrokes st) (selectionBox st) (isSelecting st) (isDragging st)
    (dragStart st) (resizeHandle st) (isRotating st) (rotateStart st) (editingText
    st) (history st) (historyIndex st) (isModified st)
    (Plain (canUndo st)) (Plain (canRedo st)).
Definition set_shapeStartPoint (v : option Point) (st : State) : State :=
  mkState (currentTool st) (currentColor st) (currentStrokeWidth st) (zoom st) (panX
    st) (panY st) (strokes st) (currentStroke st) (isDrawingShape st) v
    (selectedStrokes st) (selectionBox st) (isSelecting st) (isDragging st)
    (dragStart st) (resizeHandle st) (isRotating st) (rotateStart st) (editingText
    st) (history st) (historyIndex st) (isModified st)
    (Plain (canUndo st)) (Plain (canRedo st)).
Definition set_selectedStrokes (v : list string) (st : State) : State :=
  mkState (currentTool st) (currentColor st) (currentStrokeWidth st) (zoom st) (panX
    st) (panY st) (strokes st) (currentStroke st) (isDrawingShape st)
    (shapeStartPoint st) v (selectionBox st) (isSelecting st) (isDragging st)
    (dragStart st) (resizeHandle st) (isRotating st) (rotateStart st) (editingText
    st) (history st) (historyIndex st) (isModified st)
    (Plain (canUndo st)) (Plain (canRedo st)).
Definition set_selectionBox (v : option SelectionBox) (st : State) : State :=
  mkState (currentTool st) (currentColor st) (currentStrokeWidth st) (zoom st) (panX
    st) (panY st) (strokes st) (currentStroke st) (isDrawingShape st)
    (shapeStartPoint st) (selectedStrokes st) v (isSelecting st) (isDragging st)
    (dragStart st) (resizeHandle st) (isRotating st) (rotateStart st) (editingText
    st) (history st) (historyIndex st) (isModified st)
    (Plain (canUndo st)) (Plain (canRedo st)).
Definition set_isSelecting (v : bool) (st : State) : State :=
  mkState (currentTool st) (currentColor st) (currentStrokeWidth st) (zoom st) (panX
    st) (panY st) (strokes st) (currentStroke st) (isDrawingShape st)
    (shapeStartPoint st) (selectedStrokes st) (selectionBox st) v (isDragging st)
    (dragStart st) (resizeHandle st) (isRotating st) (rotateStart st) (editingText
    st) (history st) (historyIndex st) (isModified st)
    (Plain (canUndo st)) (Plain (canRedo st)).
Definition set_isDragging (v : bool) (st : State) : State :=
  mkState (currentTool st) (currentColor st) (currentStrokeWidth st) (zoom st) (panX
    st) (panY st) (strokes st) (currentStroke st) (isDrawingShape st)
    (shapeStartPoint st) (selectedStrokes st) (selectionBox st) (isSelecting st) v
    (dragStart st) (resizeHandle st) (isRotating st) (rotateStart st) (editingText
    st) (history st) (historyIndex st) (isModified st)
    (Plain (canUndo st)) (Plain (canRedo st)).
Definition set_dragStart (v : option Point) (st : State) : State :=
  mkState (currentTool st) (currentColor st) (currentStrokeWidth st) (zoom st) (panX
    st) (panY st) (strokes st) (currentStroke st) (isDrawingShape st)
    (shapeStartPoint st) (selectedStrokes st) (selectionBox st) (isSelecting st)
    (isDragging st) v (resizeHandle st) (isRotating st) (rotateStart st) (editingText
    st) (history st) (historyIndex st) (isModified st)
    (Plain (canUndo st)) (Plain (canRedo st)).
Definition set_resizeHandle (v : option string) (st : State) : State :=
  mkState (currentTool st) (currentColor st) (currentStrokeWidth st) (zoom st) (panX
    st) (panY st) (strokes st) (currentStroke st) (isDrawingShape st)
    (shapeStartPoint st) (selectedStrokes st) (selectionBox st) (isSelecting st)
    (isDragging st) (dragStart st) v (isRotating st) (rotateStart st) (editingText
    st) (history st) (historyIndex st) (isModified st)
    (Plain (canUndo st)) (Plain (canRedo st)).
Definition set_isRotating (v : bool) (st : State) : State :=
  mkState (currentTool st) (currentColor st) (currentStrokeWidth st) (zoom st) (panX
    st) (panY st) (strokes st) (currentStroke st) (isDrawingShape st)
    (shapeStartPoint st) (selectedStrokes st) (selectionBox st) (isSelecting st)
    (isDragging st) (dragStart st) (resizeHandle st) v (rotateStart st) (editingText
    st) (history st) (historyIndex st) (isModified st)
    (Plain (canUndo st)) (Plain (canRedo st)).
Definition set_rotateStart (v : option Point) (st : State) : State :=
  mkState (currentTool st) (currentColor st) (currentStrokeWidth st) (zoom st) (panX
    st) (panY st) (strokes st) (currentStroke st) (isDrawingShape st)
    (shapeStartPoint st) (selectedStrokes st) (selectionBox st) (isSelecting st)
    (isDragging st) (dragStart st) (resizeHandle st) (isRotating st) v (editingText
    st) (history st) (historyIndex st) (isModified st)
    (Plain (canUndo st)) (Plain (canRedo st)).
Definition set_editingText (v : option EditingText) (st : State) : State :=
  mkState (currentTool st) (currentColor st) (currentStrokeWidth st) (zoom st) (panX
    st) (panY st) (strokes st) (currentStroke st) (isDrawingShape st)
    (shapeStartPoint st) (selectedStrokes st) (selectionBox st) (isSelecting st)
    (isDragging st) (dragStart st) (resizeHandle st) (isRotating st) (rotateStart st)
    v (history st) (historyIndex st) (isModified st)
    (Plain (canUndo st)) (Plain (canRedo st)).
Definition set_history (v : list (list Stroke)) (st : State) : State :=
  mkState (currentTool st) (currentColor st) (currentStrokeWidth st) (zoom st) (panX
    st) (panY st) (strokes st) (currentStroke st) (isDrawingShape st)
    (shapeStartPoint st) (selectedStrokes st) (selectionBox st) (isSelecting st)
    (isDragging st) (dragStart st) (resizeHandle st) (isRotating st) (rotateStart st)
    (editingText st) v (historyIndex st) (isModified st)
    (Plain (canUndo st)) (Plain (canRedo st)).
Definition set_historyIndex (v : Z) (st : State) : State :=
  mkState (currentTool st) (currentColor st) (currentStrokeWidth st) (zoom st) (panX
    st) (panY st) (strokes st) (currentStroke st) (isDrawingShape st)
    (shapeStartPoint st) (selectedStrokes st) (selectionBox st) (isSelecting st)
    (isDragging st) (dragStart st) (resizeHandle st) (isRotating st) (rotateStart st)
    (editingText st) (history st) v (isModified st)
    (Plain (canUndo st)) (Plain (canRedo st)).
Definition set_isModified (v : bool) (st : State) : State :=
  mkState (currentTool st) (currentColor st) (currentStrokeWidth st) (zoom st) (panX
    st) (panY st) (strokes st) (currentStroke st) (isDrawingShape st)
    (shapeStartPoint st) (selectedStrokes st) (selectionBox st) (isSelecting st)
    (isDragging st) (dragStart st) (resizeHandle st) (isRotating st) (rotateStart st)
    (editingText st) (history st) (historyIndex st) v
    (Plain (canUndo st)) (Plain (canRedo st)).


Definition initialState : State :=
  mkState Tool.pen "#2563eb" 4 1 0 0 [] None false None [] None false false None
    None false None None [[]] 0%Z false Accessor Accessor.

(** The block every committing action repeats:
    [newHistory = history.slice(0, historyIndex + 1); newHistory.push(snapshot);
     set({ history: newHistory, historyIndex: newHistory.length - 1, isModified: true })]. *)
Definition pushHistory (snapshot : list Stroke) (st : State) : State :=
  let newHistory := JS.slice0 (history st) (historyIndex st + 1) ++ [snapshot] in
  set_isModified true
    (set_historyIndex (JS.len newHistory - 1) (set_history newHistory st)).

(** *** Core actions *)

Definition clearSelection (st : State) : State :=
  let newStrokes := map (Stroke.withSelected false) (strokes st) in
  set_strokes newStrokes (set_selectedStrokes [] st).

Definition setCurrentTool (tool : Tool.t) (st : State) : State :=
  let st1 := set_currentTool tool st in
  if negb (Tool.eqb tool Tool.select) then clearSelection st1 else st1.

Definition setCurrentColor (color : string) (st : State) : State :=
  if (Tool.eqb (currentTool st) Tool.select
      && Nat.ltb 0 (List.length (selectedStrokes st)))%bool
  then
    let newStrokes :=
      map (fun s => if JS.includes (selectedStrokes st) (Stroke.id s)
                    then Stroke.withColor color s else s)
          (strokes st) in
    set_currentColor color (set_strokes newStrokes (pushHistory newStrokes st))
  else set_currentColor color st.

Definition setCurrentStrokeWidth (width : R) (st : State) : State :=
  set_currentStrokeWidth width st.

Definition setZoom (z : R) (st : State) : State := set_zoom z st.

Definition setPan (x y : R) (st : State) : State := set_panX x (set_panY y st).

Definition resetView (st : State) : State := set_zoom 1 (set_panX 0 (set_panY 0 st)).

(** *** Drawing actions *)

Definition addStroke (stroke : Stroke) (st : State) : State :=
  let newStrokes := strokes st ++ [stroke] in
  set_strokes newStrokes (pushHistory newStrokes st).

Definition setCurrentStroke (stroke : option Stroke) (st : State) : State :=
  set_currentStroke stroke st.

Definition finishStroke (st : State) : State :=
  match currentStroke st with
  | Some cs => set_currentStroke None (set_currentTool Tool.select (addStroke cs st))
  | None => st
  end.

(** [now] is [Date.now().toString()]. *)
Definition startShape (now : string) (point : Point) (st : State) : State :=
  set_isDrawingShape true
    (set_shapeStartPoint (Some point)
       (set_currentStroke
          (Some (Stroke.mk now (currentTool st) [] (currentColor st)
                   (currentStrokeWidth st) (Some point) (Some point)
                   None None None None None None))
          st)).

Definition updateShape (point : Point) (st : State) : State :=
  match currentStroke st, isDrawingShape st with
  | Some cs, true => set_currentStroke (Some (Stroke.withEndPoint point cs)) st
  | _, _ => st
  end.

Definition finishShape (st : State) : State :=
  match currentStroke st, isDrawingShape st with
  | Some cs, true =>
      set_currentStroke None
        (set_isDrawingShape false
           (set_shapeStartPoint None
              (set_currentTool Tool.select (addStroke cs st))))
  | _, _ => st
  end.

(** *** Selection actions *)

Definition selectStroke (id : string) (addToSelection : bool) (st : State) : State :=
  let newSelected := if addToSelection then selectedStrokes st ++ [id] else [id] in
  let newStrokes :=
    map (fun stroke => Stroke.withSelected (JS.includes newSelected (Stroke.id stroke)) stroke)
        (strokes st) in
  set_selectedStrokes newSelected (set_strokes newStrokes st).

Definition selectMultiple (ids : list string) (st : State) : State :=
  let newStrokes :=
    map (fun stroke => Stroke.withSelected (JS.includes ids (Stroke.id stroke)) stroke)
        (strokes st) in
  set_selectedStrokes ids (set_strokes newStrokes st).

Definition deleteSelected (st : State) : State :=
  let newStrokes :=
    filter (fun stroke => negb (JS.includes (selectedStrokes st) (Stroke.id stroke)))
           (strokes st) in
  set_strokes newStrokes (set_selectedStrokes [] (pushHistory newStrokes st)).

Definition startSelection (point : Point) (st : State) : State :=
  set_isSelecting true
    (set_selectionBox
       (Some (SelectionBox.mk (Point.x point) (Point.y point) (Point.x point) (Point.y point)))
       st).

Definition updateSelection (point : Point) (st : State) : State :=
  match selectionBox st with
  | Some b =>
      set_selectionBox
        (Some (SelectionBox.mk (SelectionBox.startX b) (SelectionBox.startY b)
                 (Point.x point) (Point.y point)))
        st
  | None => st
  end.

(** The filter of the store's [finishSelection], for the normalized box. *)
Definition marqueeHits (ctx : Ctx2d) (minX minY maxX maxY : R) (stroke : Stroke) : bool :=
  match Tool.eqb (Stroke.type stroke) Tool.text, Stroke.points stroke with
  | true, _ :: _ =>
      let b := StrokeUtils.calculateBounds ctx stroke in
      HitDetector.overlaps (Bounds.minX b) (Bounds.minY b) (Bounds.maxX b) (Bounds.maxY b)
                           minX minY maxX maxY
  | _, _ =>
      match Stroke.startPoint stroke, Stroke.endPoint stroke with
      | Some sp, Some ep =>
          HitDetector.overlaps
            (Rmin (Point.x sp) (Point.x ep)) (Rmin (Point.y sp) (Point.y ep))
            (Rmax (Point.x sp) (Point.x ep)) (Rmax (Point.y sp) (Point.y ep))
            minX minY maxX maxY
      | _, _ =>
          match Stroke.points stroke with
          | _ :: _ =>
              existsb (fun point =>
                         HitDetector.inBox minX minY maxX maxY (Point.x point) (Point.y point))
                      (Stroke.points stroke)
          | [] => false
          end
      end
  end.

(** The ids [finishSelection] hands to [selectMultiple]. *)
Definition marqueeIds (ctx : Ctx2d) (box : SelectionBox) (scene : list Stroke) : list string :=
  let minX := Rmin (SelectionBox.startX box) (SelectionBox.endX box) in
  let maxX := Rmax (SelectionBox.startX box) (SelectionBox.endX box) in
  let minY := Rmin (SelectionBox.startY box) (SelectionBox.endY box) in
  let maxY := Rmax (SelectionBox.startY box) (SelectionBox.endY box) in
  map Stroke.id (filter (marqueeHits ctx minX minY maxX maxY) scene).

Definition finishSelection (ctx : Ctx2d) (st : State) : State :=
  let st1 :=
    match selectionBox st with
    | Some box => selectMultiple (marqueeIds ctx box (strokes st)) st
    | None => st
    end in
  set_isSelecting false (set_selectionBox None st1).

Definition startDrag (point : Point) (st : State) : State :=
  set_isDragging true (set_dragStart (Some point) st).

(** The per-stroke move of [updateDrag] is written out in the store; it is,
    branch for branch, [StrokeUtils.applyTranslation]. *)
Definition updateDrag (point : Point) (st : State) : State :=
  match isDragging st, dragStart st with
  | true, Some ds =>
      let deltaX := Point.x point - Point.x ds in
      let deltaY := Point.y point - Point.y ds in
      let newStrokes :=
        map (fun stroke =>
               if JS.includes (selectedStrokes st) (Stroke.id stroke)
               then StrokeUtils.applyTranslation stroke deltaX deltaY
               else stroke)
            (strokes st) in
      set_strokes newStrokes (set_dragStart (Some point) st)
  | _, _ => st
  end.

Definition finishDrag (st : State) : State :=
  if isDragging st
  then set_isDragging false (set_dragStart None (pushHistory (strokes st) st))
  else st.

Definition startResize (handle : string) (point : Point) (st : State) : State :=
  set_resizeHandle (Some handle) (set_dragStart (Some point) st).

(** The [switch (state.resizeHandle)] of the text branch of the store's
    [updateResize], one case per handle. *)
Definition resizeFontSwitch (handle : string) (currentFontSize deltaY : R) : R :=
  if String.eqb handle "se" then Rmax 12 (currentFontSize + deltaY * (8 / 10))
  else if String.eqb handle "sw" then Rmax 12 (currentFontSize + deltaY * (8 / 10))
  else if String.eqb handle "ne" then Rmax 12 (currentFontSize - deltaY * (8 / 10))
  else if String.eqb handle "nw" then Rmax 12 (currentFontSize - deltaY * (8 / 10))
  else if String.eqb handle "s" then Rmax 12 (currentFontSize + deltaY * (8 / 10))
  else if String.eqb handle "n" then Rmax 12 (currentFontSize - deltaY * (8 / 10))
  else currentFontSize.

(** The [switch (state.resizeHandle)] of the shape branch of the store's
    [updateResize]: [newStartPoint] and [newEndPoint] start as copies of the
    stroke's diagonal and each case adds the deltas to some coordinates. *)
Definition resizeShapeSwitch (handle : string) (startPoint endPoint : Point)
    (deltaX deltaY : R) : Point * Point :=
  let addX (p : Point) := Point.mk (Point.x p + deltaX) (Point.y p) in
  let addY (p : Point) := Point.mk (Point.x p) (Point.y p + deltaY) in
  let copy (p : Point) := Point.mk (Point.x p) (Point.y p) in
  let newStartPoint := copy startPoint in
  let newEndPoint := copy endPoint in
  if String.eqb handle "nw" then (addY (addX newStartPoint), newEndPoint)
  else if String.eqb handle "ne" then (addY newStartPoint, addX newEndPoint)
  else if String.eqb handle "sw" then (addX newStartPoint, addY newEndPoint)
  else if String.eqb handle "se" then (newStartPoint, addY (addX newEndPoint))
  else if String.eqb handle "n" then (addY newStartPoint, newEndPoint)
  else if String.eqb handle "s" then (newStartPoint, addY newEndPoint)
  else if String.eqb handle "w" then (addX newStartPoint, newEndPoint)
  else if String.eqb handle "e" then (newStartPoint, addX newEndPoint)
  else (newStartPoint, newEndPoint).

(** The store repeats the resize code of [StrokeUtils.applyResize] inline;
    the new values are computed from the first stroke with the selected id
    and written into every stroke with that id.  The store also computes the
    stroke's bounds here and never reads them; that dead value is left out. *)
Definition updateResize (point : Point) (st : State) : State :=
  match resizeHandle st, dragStart st, selectedStrokes st with
  | Some handle, Some ds, [strokeId] =>
      if negb (JS.truthyStr (Some handle)) then st else
      match JS.find (fun s => String.eqb (Stroke.id s) strokeId) (strokes st) with
      | None => st
      | Some stroke =>
          let deltaX := Point.x point - Point.x ds in
          let deltaY := Point.y point - Point.y ds in
          let newStrokes :=
            if Tool.eqb (Stroke.type stroke) Tool.text then
              let currentFontSize := JS.orNum (Stroke.fontSize stroke) 16 in
              let newFontSize := resizeFontSwitch handle currentFontSize deltaY in
              map (fun s => if String.eqb (Stroke.id s) strokeId
                            then Stroke.withFontSize (Some newFontSize) s else s)
                  (strokes st)
            else
              match Stroke.startPoint stroke, Stroke.endPoint stroke with
              | Some sp, Some ep =>
                  let '(newStartPoint, newEndPoint) :=
                    resizeShapeSwitch handle sp ep deltaX deltaY in
                  map (fun s => if String.eqb (Stroke.id s) strokeId
                                then Stroke.withShape newStartPoint newEndPoint s else s)
                      (strokes st)
              | _, _ => strokes st
              end in
          set_strokes newStrokes (set_dragStart (Some point) st)
      end
  | _, _, _ => st
  end.

Definition finishResize (st : State) : State :=
  if JS.truthyStr (resizeHandle st)
  then set_resizeHandle None (set_dragStart None (pushHistory (strokes st) st))
  else st.

Definition startRotate (point : Point) (st : State) : State :=
  set_isRotating true (set_rotateStart (Some point) st).

Definition updateRotate (ctx : Ctx2d) (point : Point) (st : State) : State :=
  match isRotating st, rotateStart st, selectedStrokes st with
  | true, Some rs, [strokeId] =>
      match JS.find (fun s => String.eqb (Stroke.id s) strokeId) (strokes st) with
      | None => st
      | Some stroke =>
          let bounds := StrokeUtils.calculateBounds ctx stroke in
          let centerX := (Bounds.minX bounds + Bounds.maxX bounds) / 2 in
          let centerY := (Bounds.minY bounds + Bounds.maxY bounds) / 2 in
          let startAngle := JS.atan2 (Point.y rs - centerY) (Point.x rs - centerX) in
          let currentAngle := JS.atan2 (Point.y point - centerY) (Point.x point - centerX) in
          let rotation := currentAngle - startAngle in
          let newStrokes :=
            map (fun s => if String.eqb (Stroke.id s) strokeId
                          then Stroke.withRotation (JS.orNum (Stroke.rotation s) 0 + rotation) s
                          else s)
                (strokes st) in
          set_strokes newStrokes (set_rotateStart (Some point) st)
      end
  | _, _, _ => st
  end.

Definition finishRotate (st : State) : State :=
  if isRotating st
  then set_isRotating false (set_rotateStart None (pushHistory (strokes st) st))
  else st.

(** *** Text actions *)

Definition startTextEdit (now : string) (point : Point) (st : State) : State :=
  set_editingText
    (Some (EditingText.mk now (Point.x point) (Point.y point) EmptyString false)) st.

Definition editingWithText (text : string) (e : EditingText) : EditingText :=
  EditingText.mk (EditingText.id e) (EditingText.x e) (EditingText.y e) text
                 (EditingText.mathMode e).

(** The text stroke built from the editing buffer. *)
Definition textStrokeOf (e : EditingText) (text : string) (st : State) : Stroke :=
  Stroke.mk (EditingText.id e) Tool.text
    [Point.mk (EditingText.x e) (EditingText.y e)]
    (currentColor st) (currentStrokeWidth st) None None (Some text)
    (Some (Rmax 16 (currentStrokeWidth st * 4)))
    (Some (EditingText.mathMode e)) None None None.

(** Each keystroke is written through to the scene, without a history entry. *)
Definition updateText (text : string) (st : State) : State :=
  match editingText st with
  | None => st
  | Some e =>
      let st1 := set_editingText (Some (editingWithText text e)) st in
      match JS.find (fun s => String.eqb (Stroke.id s) (EditingText.id e)) (strokes st) with
      | Some existing =>
          if Tool.eqb (Stroke.type existing) Tool.text then
            let newStrokes :=
              map (fun s => if String.eqb (Stroke.id s) (Stroke.id existing)
                            then Stroke.withText text s else s)
                  (strokes st) in
            set_isModified true (set_strokes newStrokes st1)
          else if negb (String.eqb text EmptyString) then
            set_isModified true (set_strokes (strokes st ++ [textStrokeOf e text st]) st1)
          else st1
      | None =>
          if negb (String.eqb text EmptyString) then
            set_isModified true (set_strokes (strokes st ++ [textStrokeOf e text st]) st1)
          else st1
      end
  end.

Definition finishTextEdit (st : State) : State :=
  let st1 :=
    match editingText st with
    | None => st
    | Some e =>
        if negb (JS.trimTruthy (EditingText.text e)) then st else
        let create :=
          set_currentTool Tool.select (addStroke (textStrokeOf e (EditingText.text e) st) st) in
        match JS.find (fun s => String.eqb (Stroke.id s) (EditingText.id e)) (strokes st) with
        | Some existingStroke =>
            if Tool.eqb (Stroke.type existingStroke) Tool.text then
              let preservedFontSize :=
                JS.nullishNum (Stroke.fontSize existingStroke)
                              (Rmax 16 (currentStrokeWidth st * 4)) in
              let preservedColor := Stroke.color existingStroke in
              let newStrokes :=
                map (fun stroke =>
                       if String.eqb (Stroke.id stroke) (EditingText.id e)
                       then Stroke.withMathMode (EditingText.mathMode e)
                              (Stroke.withColor preservedColor
                                 (Stroke.withFontSize (Some preservedFontSize)
                                    (Stroke.withText (EditingText.text e) stroke)))
                       else stroke)
                    (strokes st) in
              set_currentTool Tool.select
                (set_strokes newStrokes (pushHistory newStrokes st))
            else create
        | None => create
        end
    end in
  set_editingText None st1.

Definition setEditingText (editing : option EditingText) (st : State) : State :=
  set_editingText editing st.

(** *** Eraser *)

(** The filter of [eraseAtPoint]: [Some true] keeps the stroke, [Some false]
    drops it, [None] is the [TypeError] of reading [stroke.points[0].x] on a
    text stroke that has no point. *)
Definition eraseKeeps (x y radius : R) (stroke : Stroke) : option bool :=
  if Tool.eqb (Stroke.type stroke) Tool.text then
    match Stroke.points stroke with
    | textPoint :: _ =>
        let distance := sqrt ((Point.x textPoint - x) ^ 2 + (Point.y textPoint - y) ^ 2) in
        Some (JS.gtb distance radius)
    | [] => None
    end
  else if (Tool.eqb (Stroke.type stroke) Tool.rectangle
           || Tool.eqb (Stroke.type stroke) Tool.ellipse
           || Tool.eqb (Stroke.type stroke) Tool.line)%bool then
    match Stroke.startPoint stroke, Stroke.endPoint stroke with
    | Some sp, Some ep =>
        let minX := Rmin (Point.x sp) (Point.x ep) in
        let maxX := Rmax (Point.x sp) (Point.x ep) in
        let minY := Rmin (Point.y sp) (Point.y ep) in
        let maxY := Rmax (Point.y sp) (Point.y ep) in
        Some (negb (JS.geb x (minX - radius) && JS.leb x (maxX + radius)
                    && JS.geb y (minY - radius) && JS.leb y (maxY + radius)))
    | _, _ => Some true
    end
  else
    Some (negb (existsb
                  (fun point =>
                     let distance :=
                       sqrt ((Point.x point - x) ^ 2 + (Point.y point - y) ^ 2) in
                     JS.leb distance radius)
                  (Stroke.points stroke))).

(** [arr.filter(f)] for a callback that may throw: the first throw aborts. *)
Fixpoint filterThrow {A : Type} (f : A -> option bool) (arr : list A) : option (list A) :=
  match arr with
  | [] => Some []
  | a :: rest =>
      match f a with
      | None => None
      | Some keep =>
          match filterThrow f rest with
          | None => None
          | Some kept => Some (if keep then a :: kept else kept)
          end
      end
  end.

(** [None]: the call threw and the store is as it was. *)
Definition eraseAtPoint (x y radius : R) (st : State) : option State :=
  match filterThrow (eraseKeeps x y radius) (strokes st) with
  | None => None
  | Some newStrokes =>
      if negb (Nat.eqb (List.length newStrokes) (List.length (strokes st)))
      then Some (set_strokes newStrokes (pushHistory newStrokes st))
      else Some st
  end.

(** *** History actions (history-slice.ts)

    [None]: [history[newIndex]] is [undefined], so the scene would stop being
    an array. *)
Definition undo (st : State) : option State :=
  if (0 <? historyIndex st)%Z then
    let newIndex := (historyIndex st - 1)%Z in
    match JS.index (history st) newIndex with
    | Some snapshot =>
        Some (set_strokes snapshot (set_historyIndex newIndex (set_isModified true st)))
    | None => None
    end
  else Some st.

Definition redo (st : State) : option State :=
  if (historyIndex st <? JS.len (history st) - 1)%Z then
    let newIndex := (historyIndex st + 1)%Z in
    match JS.index (history st) newIndex with
    | Some snapshot =>
        Some (set_strokes snapshot (set_historyIndex newIndex (set_isModified true st)))
    | None => None
    end
  else Some st.

(** *** Documents and clear *)

Definition resetGesture (st : State) : State :=
  set_currentStroke None
    (set_editingText None
       (set_isDrawingShape false
          (set_shapeStartPoint None
             (set_selectedStrokes []
                (set_selectionBox None
                   (set_isSelecting false
                      (set_isDragging false
                         (set_dragStart None (set_resizeHandle None st))))))))).

Definition newDocument (st : State) : State :=
  set_strokes []
    (set_history [[]]
       (set_historyIndex 0%Z
          (set_isModified false
             (set_zoom 1 (set_panX 0 (set_panY 0 (resetGesture st))))))).

(** [docStrokes] is [document.strokes]. *)
Definition loadDocument (docStrokes : list Stroke) (st : State) : State :=
  set_strokes docStrokes
    (set_history [docStrokes]
       (set_historyIndex 0%Z
          (set_isModified false
             (set_zoom 1 (set_panX 0 (set_panY 0 (resetGesture st))))))).

Definition clear (st : State) : State :=
  set_strokes []
    (set_isRotating false
       (set_rotateStart None
          (resetGesture (pushHistory [] st)))).

(** *** The store as a transition system *)

Inductive Op : Type :=
| SetCurrentTool (tool : Tool.t)
| SetCurrentColor (color : string)
| SetCurrentStrokeWidth (width : R)
| SetZoom (z : R)
| SetPan (x y : R)
| ResetView
| AddStroke (stroke : Stroke)
| SetCurrentStroke (stroke : option Stroke)
| FinishStroke
| StartShape (now : string) (point : Point)
| UpdateShape (point : Point)
| FinishShape
| SelectStroke (id : string) (addToSelection : bool)
| SelectMultiple (ids : list string)
| ClearSelection
| DeleteSelected
| StartSelection (point : Point)
| UpdateSelection (point : Point)
| FinishSelection
| StartDrag (point : Point)
| UpdateDrag (point : Point)
| FinishDrag
| StartResize (handle : string) (point : Point)
| UpdateResize (point : Point)
| FinishResize
| StartRotate (point : Point)
| UpdateRotate (point : Point)
| FinishRotate
| StartTextEdit (now : string) (point : Point)
| UpdateText (text : string)
| FinishTextEdit
| SetEditingText (editing : option EditingText)
| EraseAtPoint (x y radius : R)
| Undo
| Redo
| NewDocument
| LoadDocument (docStrokes : list Stroke)
| Clear.

Definition step (ctx : Ctx2d) (op : Op) (st : State) : option State :=
  match op with
  | SetCurrentTool tool => Some (setCurrentTool tool st)
  | SetCurrentColor color => Some (setCurrentColor color st)
  | SetCurrentStrokeWidth width => Some (setCurrentStrokeWidth width st)
  | SetZoom z => Some (setZoom z st)
  | SetPan x y => Some (setPan x y st)
  | ResetView => Some (resetView st)
  | AddStroke stroke => Some (addStroke stroke st)
  | SetCurrentStroke stroke => Some (setCurrentStroke stroke st)
  | FinishStroke => Some (finishStroke st)
  | StartShape now point => Some (startShape now point st)
  | UpdateShape point => Some (updateShape point st)
  | FinishShape => Some (finishShape st)
  | SelectStroke id addToSelection => Some (selectStroke id addToSelection st)
  | SelectMultiple ids => Some (selectMultiple ids st)
  | ClearSelection => Some (clearSelection st)
  | DeleteSelected => Some (deleteSelected st)
  | StartSelection point => Some (startSelection point st)
  | UpdateSelection point => Some (updateSelection point st)
  | FinishSelection => Some (finishSelection ctx st)
  | StartDrag point => Some (startDrag point st)
  | UpdateDrag point => Some (updateDrag point st)
  | FinishDrag => Some (finishDrag st)
  | StartResize handle point => Some (startResize handle point st)
  | UpdateResize point => Some (updateResize point st)
  | FinishResize => Some (finishResize st)
  | StartRotate point => Some (startRotate point st)
  | UpdateRotate point => Some (updateRotate ctx point st)
  | FinishRotate => Some (finishRotate st)
  | StartTextEdit now point => Some (startTextEdit now point st)
  | UpdateText text => Some (updateText text st)
  | FinishTextEdit => Some (finishTextEdit st)
  | SetEditingText editing => Some (setEditingText editing st)
  | EraseAtPoint x y radius => eraseAtPoint x y radius st
  | Undo => undo st
  | Redo => redo st
  | NewDocument => Some (newDocument st)
  | LoadDocument docStrokes => Some (loadDocument docStrokes st)
  | Clear => Some (clear st)
  end.

(** The states the store can be in. *)
Inductive reachable (ctx : Ctx2d) : State -> Prop :=
| reach_init : reachable ctx initialState
| reach_step : forall st op st',
    reachable ctx st -> step ctx op st = Some st' -> reachable ctx st'.

End Store.

(** ** Vocabulary of the properties *)

(** *** The data-model invariant on strokes *)

Definition isShapeType (t : Tool.t) : bool :=
  (Tool.eqb t Tool.rectangle || Tool.eqb t Tool.ellipse || Tool.eqb t Tool.line)%bool.

(** A pen stroke has sample points and no diagonal, a shape has its
    diagonal, a text stroke has exactly its anchor. *)
Definition wellFormed (s : Stroke) : Prop :=
  match Stroke.type s with
  | Tool.pen =>
      Stroke.points s <> [] /\ Stroke.startPoint s = None /\ Stroke.endPoint s = None
  | Tool.rectangle | Tool.ellipse | Tool.line =>
      (exists sp ep, Stroke.startPoint s = Some sp /\ Stroke.endPoint s = Some ep)
      /\ Stroke.points s = []
  | Tool.text => exists anchor, Stroke.points s = [anchor]
  | _ => False
  end.

(** *** Hit regions, per stroke type *)

Definition hitRegion (calculateBounds : Stroke -> Bounds) (point : Point) (s : Stroke) : bool :=
  match Stroke.type s with
  | Tool.text =>
      let b := calculateBounds s in
      HitDetector.inBox (Bounds.minX b) (Bounds.minY b) (Bounds.maxX b) (Bounds.maxY b)
                        (Point.x point) (Point.y point)
  | Tool.rectangle | Tool.ellipse | Tool.line =>
      match Stroke.startPoint s, Stroke.endPoint s with
      | Some sp, Some ep =>
          HitDetector.inBox
            (Rmin (Point.x sp) (Point.x ep) - 12) (Rmin (Point.y sp) (Point.y ep) - 12)
            (Rmax (Point.x sp) (Point.x ep) + 12) (Rmax (Point.y sp) (Point.y ep) + 12)
            (Point.x point) (Point.y point)
      | _, _ => false
      end
  | Tool.pen =>
      existsb (fun p => JS.leb (HitDetector.distance p point)
                               (Rmax 14 (Stroke.strokeWidth s + 10)))
              (Stroke.points s)
  | _ => false
  end.

(** The hit region as the fields of a stroke give it, whatever its type: a
    text stroke that has a point is tested by its computed bounds; otherwise
    a stroke with both diagonal points by their min/max box widened by 12;
    otherwise by its sample points, so a stroke with none is never hit. *)
Definition hitRegionByFields (calculateBounds : Stroke -> Bounds) (point : Point)
    (s : Stroke) : bool :=
  if (Tool.eqb (Stroke.type s) Tool.text && Nat.ltb 0 (List.length (Stroke.points s)))%bool
  then
    let b := calculateBounds s in
    HitDetector.inBox (Bounds.minX b) (Bounds.minY b) (Bounds.maxX b) (Bounds.maxY b)
                      (Point.x point) (Point.y point)
  else
    match Stroke.startPoint s, Stroke.endPoint s with
    | Some sp, Some ep =>
        HitDetector.inBox
          (Rmin (Point.x sp) (Point.x ep) - 12) (Rmin (Point.y sp) (Point.y ep) - 12)
          (Rmax (Point.x sp) (Point.x ep) + 12) (Rmax (Point.y sp) (Point.y ep) + 12)
          (Point.x point) (Point.y point)
    | _, _ =>
        existsb (fun p => JS.leb (HitDetector.distance p point)
                                 (Rmax 14 (Stroke.strokeWidth s + 10)))
                (Stroke.points s)
    end.

(** *** Marquee membership, per stroke type

    [anchorMembership] takes a text stroke when its anchor lies in the box,
    [boundsMembership] when its computed bounds overlap the box; both take a
    pen stroke with a sample point in the box and a shape whose diagonal box
    overlaps the box. *)
Definition shapeOrPenMembership (minX minY maxX maxY : R) (s : Stroke) : bool :=
  match Stroke.type s with
  | Tool.rectangle | Tool.ellipse | Tool.line =>
      match Stroke.startPoint s, Stroke.endPoint s with
      | Some sp, Some ep =>
          HitDetector.overlaps
            (Rmin (Point.x sp) (Point.x ep)) (Rmin (Point.y sp) (Point.y ep))
            (Rmax (Point.x sp) (Point.x ep)) (Rmax (Point.y sp) (Point.y ep))
            minX minY maxX maxY
      | _, _ => false
      end
  | Tool.pen =>
      existsb (fun p => HitDetector.inBox minX minY maxX maxY (Point.x p) (Point.y p))
              (Stroke.points s)
  | _ => false
  end.

Definition anchorMembership (minX minY maxX maxY : R) (s : Stroke) : bool :=
  match Stroke.type s with
  | Tool.text =>
      match Stroke.points s with
      | anchor :: _ =>
          HitDetector.inBox minX minY maxX maxY (Point.x anchor) (Point.y anchor)
      | [] => false
      end
  | _ => shapeOrPenMembership minX minY maxX maxY s
  end.

Definition boundsMembership (ctx : Ctx2d) (minX minY maxX maxY : R) (s : Stroke) : bool :=
  match Stroke.type s with
  | Tool.text =>
      let b := StrokeUtils.calculateBounds ctx s in
      HitDetector.overlaps (Bounds.minX b) (Bounds.minY b) (Bounds.maxX b) (Bounds.maxY b)
                           minX minY maxX maxY
  | _ => shapeOrPenMembership minX minY maxX maxY s
  end.

(** The ids selected by a membership test over the normalized box. *)
Definition selectedBy (member : R -> R -> R -> R -> Stroke -> bool)
    (box : SelectionBox) (scene : list Stroke) : list string :=
  map Stroke.id
    (filter (member (Rmin (SelectionBox.startX box) (SelectionBox.endX box))
                    (Rmin (SelectionBox.startY box) (SelectionBox.endY box))
                    (Rmax (SelectionBox.startX box) (SelectionBox.endX box))
                    (Rmax (SelectionBox.startY box) (SelectionBox.endY box)))
            scene).

(** *** Eraser retention, per stroke type *)

Definition retained (x y radius : R) (s : Stroke) : bool :=
  match Stroke.type s with
  | Tool.text =>
      match Stroke.points s with
      | anchor :: _ => JS.gtb (HitDetector.distance anchor (Point.mk x y)) radius
      | [] => true
      end
  | Tool.rectangle | Tool.ellipse | Tool.line =>
      match Stroke.startPoint s, Stroke.endPoint s with
      | Some sp, Some ep =>
          negb (HitDetector.inBox
                  (Rmin (Point.x sp) (Point.x ep) - radius)
                  (Rmin (Point.y sp) (Point.y ep) - radius)
                  (Rmax (Point.x sp) (Point.x ep) + radius)
                  (Rmax (Point.y sp) (Point.y ep) + radius) x y)
      | _, _ => true
      end
  | _ =>
      negb (existsb (fun p => JS.leb (HitDetector.distance p (Point.mk x y)) radius)
                    (Stroke.points s))
  end.

(** *** Rotated bounds as "turn the four corners of the unrotated box" *)

Definition unrotated (s : Stroke) : Stroke := Stroke.withRotation 0 s.

Definition cornerRotatedBounds (ctx : Ctx2d) (s : Stroke) : Bounds :=
  let u := StrokeUtils.calculateBounds ctx (unrotated s) in
  StrokeUtils.rotatedCornerBox
    (Bounds.minX u) (Bounds.minY u) (Bounds.maxX u) (Bounds.maxY u)
    ((Bounds.minX u + Bounds.maxX u) / 2) ((Bounds.minY u + Bounds.maxY u) / 2)
    (JS.orNum (Stroke.rotation s) 0).

(** *** History vocabulary *)

(** The guard under which an action reaches its history push. *)
Definition commits (op : Store.Op) (st : Store.State) : bool :=
  match op with
  | Store.AddStroke _ | Store.DeleteSelected | Store.Clear => true
  | Store.FinishStroke =>
      match Store.currentStroke st with Some _ => true | None => false end
  | Store.FinishShape =>
      match Store.currentStroke st with
      | Some _ => Store.isDrawingShape st
      | None => false
      end
  | Store.FinishDrag => Store.isDragging st
  | Store.FinishResize => JS.truthyStr (Store.resizeHandle st)
  | Store.FinishRotate => Store.isRotating st
  | Store.EraseAtPoint x y radius =>
      match Store.filterThrow (Store.eraseKeeps x y radius) (Store.strokes st) with
      | Some kept => negb (Nat.eqb (List.length kept) (List.length (Store.strokes st)))
      | None => false
      end
  | Store.SetCurrentColor _ =>
      (Tool.eqb (Store.currentTool st) Tool.select
       && Nat.ltb 0 (List.length (Store.selectedStrokes st)))%bool
  | Store.FinishTextEdit =>
      match Store.editingText st with
      | Some e => JS.trimTruthy (EditingText.text e)
      | None => false
      end
  | _ => false
  end.

(** The actions that move or replace the history without pushing. *)
Definition rewinds (op : Store.Op) : bool :=
  match op with
  | Store.Undo | Store.Redo | Store.NewDocument | Store.LoadDocument _ => true
  | _ => false
  end.

(** [n] commits since the initial state, with any selection, gesture, view
    and text-buffer actions in between, and no undo, redo or document change. *)
Inductive editing (ctx : Ctx2d) : Store.State -> nat -> Prop :=
| editing_init : editing ctx Store.initialState 0
| editing_commit : forall st op st' n,
    editing ctx st n -> commits op st = true ->
    Store.step ctx op st = Some st' -> editing ctx st' (S n)
| editing_between : forall st op st' n,
    editing ctx st n -> commits op st = false -> rewinds op = false ->
    Store.step ctx op st = Some st' -> editing ctx st' n.

(** The state right after the [n]-th commit. *)
Inductive committed (ctx : Ctx2d) : Store.State -> nat -> Prop :=
| committed_init : committed ctx Store.initialState 0
| committed_next : forall st op st' n,
    editing ctx st n -> commits op st = true ->
    Store.step ctx op st = Some st' -> committed ctx st' (S n).

Fixpoint undoN (k : nat) (st : Store.State) : option Store.State :=
  match k with
  | O => Some st
  | S k' => match Store.undo st with Some st' => undoN k' st' | None => None end
  end.

Fixpoint redoN (k : nat) (st : Store.State) : option Store.State :=
  match k with
  | O => Some st
  | S k' => match Store.redo st with Some st' => redoN k' st' | None => None end
  end.

(** The history invariant. *)
Definition indexInRange (st : Store.State) : Prop :=
  (0 <= Store.historyIndex st < JS.len (Store.history st))%Z.

Definition sceneIsCurrentSnapshot (st : Store.State) : Prop :=
  JS.index (Store.history st) (Store.historyIndex st) = Some (Store.strokes st).

(** What a push looks like from outside. *)
Definition pushed (st st' : Store.State) : Prop :=
  Store.history st' =
    JS.slice0 (Store.history st) (Store.historyIndex st + 1) ++ [Store.strokes st']
  /\ Store.historyIndex st' = (JS.len (Store.history st') - 1)%Z.

Definition historyKept (st st' : Store.State) : Prop :=
  Store.history st' = Store.history st /\ Store.historyIndex st' = Store.historyIndex st.

(** The actions that write the history or move the index: a commit, an
    undo or redo that is not at the end of the stack, a new or loaded document. *)
Definition writesHistory (op : Store.Op) (st : Store.State) : bool :=
  (commits op st
   || match op with
      | Store.Undo => Store.get_canUndo st
      | Store.Redo => Store.get_canRedo st
      | Store.NewDocument | Store.LoadDocument _ => true
      | _ => false
      end)%bool.

(** What a [set] call leaves of the two computed properties: data properties
    with the values they read in the old state. *)
Definition merged (st st' : Store.State) : Prop :=
  Store.canUndoProperty st' = Store.Plain (Store.canUndo st)
  /\ Store.canRedoProperty st' = Store.Plain (Store.canRedo st).

(** *** Selection vocabulary *)

(** Every stroke's flag says whether its id is in the selection array. *)
Definition flagsFollowSelection (st : Store.State) : Prop :=
  forall s, In s (Store.strokes st) ->
            Stroke.isSelected s = JS.includes (Store.selectedStrokes st) (Stroke.id s).

Definition flaggedIds (st : Store.State) : list string :=
  map Stroke.id (filter Stroke.isSelected (Store.strokes st)).

(** The flagged ids and the selection array are the same set. *)
Definition selectionMirrored (st : Store.State) : Prop :=
  forall id, In id (flaggedIds st) <-> In id (Store.selectedStrokes st).

Definition sceneIds (st : Store.State) : list string := map Stroke.id (Store.strokes st).

(** *** Sample scenes *)

Definition blue : string := "#2563eb".

(** A canvas whose font is monospaced: every character is [0.6 * fontSize] wide. *)
Definition monoCtx : Ctx2d :=
  Some (fun fontSize line => INR (String.length line) * fontSize * (6 / 10)).

Definition rect100x50 : Stroke :=
  StrokeUtils.createShapeStroke "r" Tool.rectangle (Point.mk 0 0) (Point.mk 100 50) blue 4.

Definition rectNear : Stroke :=
  StrokeUtils.createShapeStroke "a" Tool.rectangle (Point.mk 0 0) (Point.mk 10 10) blue 4.

Definition rectFar : Stroke :=
  StrokeUtils.createShapeStroke "b" Tool.rectangle (Point.mk 100 100) (Point.mk 110 110) blue 4.

Definition rectOver : Stroke :=
  StrokeUtils.createShapeStroke "c" Tool.rectangle (Point.mk 5 5) (Point.mk 20 20) blue 4.

Definition penAt20 : Stroke :=
  StrokeUtils.createPenStroke "p" (Point.mk 20 20) blue 4.

(** A two-point pen stroke turned by an eighth of a turn. *)
Definition penDiagonal : Stroke :=
  Stroke.mk "d" Tool.pen [Point.mk 0 0; Point.mk 2 2] blue 4
    None None None None None None (Some (PI / 4)) None.

(** A text stroke anchored just outside the box [(0,0)-(5,5)]. *)
Definition textOutside : Stroke :=
  StrokeUtils.createTextStroke "t" (Point.mk (-1) (-1)) "Hi" blue 4 None.

(** A text stroke that lost its anchor and carries a diagonal. *)
Definition anchorlessText : Stroke :=
  Stroke.mk "t0" Tool.text [] blue 4 (Some (Point.mk 0 0)) (Some (Point.mk 10 10))
    (Some "Hi"%string) None None None None None.

Definition anchorlessState : Store.State := Store.addStroke anchorlessText Store.initialState.

Definition marquee05 : SelectionBox := SelectionBox.mk 0 0 5 5.

Definition marqueeScenario : SelectionBox := SelectionBox.mk (-5) (-5) 20 20.

Definition withMarquee (box : SelectionBox) (scene : list Stroke) : Store.State :=
  Store.set_selectionBox (Some box)
    (Store.set_isSelecting true (Store.set_strokes scene Store.initialState)).

Definition onePenState : Store.State := Store.addStroke penAt20 Store.initialState.

Definition selectedOnce : Store.State := Store.selectStroke "p" false onePenState.

Definition selectedTwice : Store.State := Store.selectStroke "p" true selectedOnce.

Definition view2 : CoordinateTransformer.CanvasState :=
  CoordinateTransformer.mkCanvasState 2 30 40.

Definition rect10 : CoordinateTransformer.Rect := CoordinateTransformer.mkRect 8 16.

(** *** Vocabulary of the further properties *)

(** The nine names [getResizeHandle] can return. *)
Definition handleNames : list string :=
  ["nw"; "ne"; "sw"; "se"; "n"; "s"; "w"; "e"; "rotate"]%string.

(** The characters of the lines, with one separator after each line. *)
Fixpoint spanOf (lines : list string) : Z :=
  match lines with
  | [] => 0%Z
  | l :: rest => (JS.strLen l + 1 + spanOf rest)%Z
  end.

(** The caret is inside the buffer and a remembered column is not negative. *)
Definition caretInRange (ed : Whiteboard.Editor) : Prop :=
  (0 <= Whiteboard.caretIndex ed <= JS.strLen (Whiteboard.text ed))%Z /\
  (forall d, Whiteboard.desiredColumn ed = Some d -> (0 <= d)%Z).

Definition rectRotated : Stroke :=
  Stroke.withRotation (PI / 4) rect100x50.

Definition editorHi : Whiteboard.Editor :=
  Whiteboard.mkEditor "Hi" 1%Z None.

(** The point lies on the stroke's own geometry: inside the diagonal's box
    of a shape, or on a sample of a pen stroke without a diagonal. *)
Definition onGeometry (point : Point) (s : Stroke) : Prop :=
  (exists sp ep,
      isShapeType (Stroke.type s) = true /\
      Stroke.startPoint s = Some sp /\ Stroke.endPoint s = Some ep /\
      Rmin (Point.x sp) (Point.x ep) <= Point.x point <= Rmax (Point.x sp) (Point.x ep) /\
      Rmin (Point.y sp) (Point.y ep) <= Point.y point <= Rmax (Point.y sp) (Point.y ep))
  \/
  (Stroke.type s = Tool.pen /\ Stroke.startPoint s = None /\ In point (Stroke.points s)).

(** The marquee dragged the other way: its two corners exchanged. *)
Definition reversed (box : SelectionBox) : SelectionBox :=
  SelectionBox.mk (SelectionBox.endX box) (SelectionBox.endY box)
                  (SelectionBox.startX box) (SelectionBox.startY box).

(** The marquee given by its other diagonal. *)
Definition mirrored (box : SelectionBox) : SelectionBox :=
  SelectionBox.mk (SelectionBox.endX box) (SelectionBox.startY box)
                  (SelectionBox.startX box) (SelectionBox.endY box).

(** The zoom limits [handleWheel] passes on by default. *)
Definition zoomInLimits (z : R) : Prop := 1 / 10 <= z <= 5.

(** The scene and every snapshot of the history hold well-formed strokes. *)
Definition sceneWellFormed (st : Store.State) : Prop :=
  Forall wellFormed (Store.strokes st)
  /\ Forall (Forall wellFormed) (Store.history st).

(** At most one stroke of the scene carries the id. *)
Definition namedOnce (id : string) (scene : list Stroke) : Prop :=
  (List.length (filter (fun s => String.eqb (Stroke.id s) id) scene) <= 1)%nat.

(** What the callers of the store see to: the strokes they hand over are
    well formed, and a resize acts on a stroke whose id is its own. *)
Definition handsOverWellFormed (op : Store.Op) (st : Store.State) : Prop :=
  match op with
  | Store.AddStroke s => wellFormed s
  | Store.FinishStroke | Store.FinishShape =>
      forall cs, Store.currentStroke st = Some cs -> wellFormed cs
  | Store.LoadDocument docStrokes => Forall wellFormed docStrokes
  | Store.UpdateResize _ =>
      forall id, Store.selectedStrokes st = [id] -> namedOnce id (Store.strokes st)
  | _ => True
  end.

(** * Properties *)

(** ** Tactics for the numeric tests *)

Ltac decide_reals :=
  repeat match goal with
         | |- context [Rle_dec ?a ?b] => destruct (Rle_dec a b); try lra
         | |- context [Rlt_dec ?a ?b] => destruct (Rlt_dec a b); try lra
         | |- context [Req_dec_T ?a ?b] => destruct (Req_dec_T a b); try lra
         end.

Ltac js_num :=
  unfold HitDetector.inBox, HitDetector.overlaps,
         JS.geb, JS.gtb, JS.leb, JS.ltb, JS.truthyNum, Rmin, Rmax;
  simpl; decide_reals; simpl; try reflexivity; try lra.

(** ** Coordinate transforms *)

Section Coordinates.
Import CoordinateTransformer.

Variables (rect : Rect) (state : CanvasState).
Hypothesis zoom_nonzero : zoom state <> 0.

Lemma screenToCanvas_canvasToScreen (cx cy : R) :
  let s := canvasToScreen cx cy rect state in
  screenToCanvas (Point.x s) (Point.y s) rect state = Point.mk cx cy.
Proof.
  unfold screenToCanvas, canvasToScreen; simpl.
  f_equal; field; exact zoom_nonzero.
Qed.

Lemma canvasToScreen_screenToCanvas (sx sy : R) :
  let c := screenToCanvas sx sy rect state in
  canvasToScreen (Point.x c) (Point.y c) rect state = Point.mk sx sy.
Proof.
  unfold screenToCanvas, canvasToScreen; simpl.
  f_equal; field; exact zoom_nonzero.
Qed.

End Coordinates.

(** C10: with a fixed canvas rectangle and a view whose zoom is not zero,
    [screenToCanvas] and [canvasToScreen] undo each other exactly, in both
    orders, at every point. *)
Theorem C10_screen_canvas_inverse :
  forall (p : Point) (rect : CoordinateTransformer.Rect)
         (state : CoordinateTransformer.CanvasState),
    CoordinateTransformer.zoom state <> 0 ->
    (let s := CoordinateTransformer.canvasToScreen (Point.x p) (Point.y p) rect state in
     CoordinateTransformer.screenToCanvas (Point.x s) (Point.y s) rect state = p)
    /\
    (let c := CoordinateTransformer.screenToCanvas (Point.x p) (Point.y p) rect state in
     CoordinateTransformer.canvasToScreen (Point.x c) (Point.y c) rect state = p).
Proof.
  intros [px py] rect state Hz; split; simpl.
  - apply (screenToCanvas_canvasToScreen rect state Hz px py).
  - apply (canvasToScreen_screenToCanvas rect state Hz px py).
Qed.

Lemma C10_witness :
  CoordinateTransformer.zoom view2 <> 0 /\
  (let s := CoordinateTransformer.canvasToScreen 3 7 rect10 view2 in
   CoordinateTransformer.screenToCanvas (Point.x s) (Point.y s) rect10 view2 = Point.mk 3 7)
  /\
  (let c := CoordinateTransformer.screenToCanvas 3 7 rect10 view2 in
   CoordinateTransformer.canvasToScreen (Point.x c) (Point.y c) rect10 view2 = Point.mk 3 7).
Proof.
  assert (Hz : CoordinateTransformer.zoom view2 <> 0) by (simpl; lra).
  split; [exact Hz|].
  exact (C10_screen_canvas_inverse (Point.mk 3 7) rect10 view2 Hz).
Defined.

(** ** Resizing *)

Section Resize.

Variable stroke : Stroke.
Variables (sp ep : Point).
Hypothesis is_shape : isShapeType (Stroke.type stroke) = true.
Hypothesis has_start : Stroke.startPoint stroke = Some sp.
Hypothesis has_end : Stroke.endPoint stroke = Some ep.

Lemma shape_not_text : Tool.eqb (Stroke.type stroke) Tool.text = false.
Proof.
  unfold isShapeType in is_shape.
  destruct (Stroke.type stroke); simpl in *; congruence.
Qed.

Lemma applyResize_shape (handle : string) (dx dy : R) :
  StrokeUtils.applyResize stroke handle dx dy =
  Stroke.withShape (fst (StrokeUtils.resizedShape handle sp ep dx dy))
                   (snd (StrokeUtils.resizedShape handle sp ep dx dy)) stroke.
Proof.
  unfold StrokeUtils.applyResize.
  rewrite shape_not_text, has_start, has_end.
  destruct (StrokeUtils.resizedShape handle sp ep dx dy); reflexivity.
Qed.

End Resize.

(** C6: on a rectangle, ellipse or line with both diagonal points, each of
    the eight handles moves exactly the coordinates of its row (nw: start x
    and y; ne: end x, start y; sw: start x, end y; se: end x and y; n: start
    y; s: end y; w: start x; e: end x) and every other field of the stroke
    stays as it was; the rectangle (0,0)-(100,50) resized by [se] with
    (10,20) has bounds (0,0)-(110,70). *)
Theorem C6_applyResize_mapping :
  forall (stroke : Stroke) (sp ep : Point) (dx dy : R),
    isShapeType (Stroke.type stroke) = true ->
    Stroke.startPoint stroke = Some sp ->
    Stroke.endPoint stroke = Some ep ->
    let sx := Point.x sp in let sy := Point.y sp in
    let ex := Point.x ep in let ey := Point.y ep in
    let moved := fun sx' sy' ex' ey' =>
      Stroke.mk (Stroke.id stroke) (Stroke.type stroke) (Stroke.points stroke)
        (Stroke.color stroke) (Stroke.strokeWidth stroke)
        (Some (Point.mk sx' sy')) (Some (Point.mk ex' ey'))
        (Stroke.text stroke) (Stroke.fontSize stroke) (Stroke.mathMode stroke)
        (Stroke.selected stroke) (Stroke.rotation stroke) (Stroke.bounds stroke) in
    StrokeUtils.applyResize stroke "nw" dx dy = moved (sx + dx) (sy + dy) ex ey /\
    StrokeUtils.applyResize stroke "ne" dx dy = moved sx (sy + dy) (ex + dx) ey /\
    StrokeUtils.applyResize stroke "sw" dx dy = moved (sx + dx) sy ex (ey + dy) /\
    StrokeUtils.applyResize stroke "se" dx dy = moved sx sy (ex + dx) (ey + dy) /\
    StrokeUtils.applyResize stroke "n" dx dy = moved sx (sy + dy) ex ey /\
    StrokeUtils.applyResize stroke "s" dx dy = moved sx sy ex (ey + dy) /\
    StrokeUtils.applyResize stroke "w" dx dy = moved (sx + dx) sy ex ey /\
    StrokeUtils.applyResize stroke "e" dx dy = moved sx sy (ex + dx) ey /\
    (forall ctx,
        StrokeUtils.calculateBounds ctx (StrokeUtils.applyResize rect100x50 "se" 10 20)
        = Bounds.mk 0 0 110 70).
Proof.
  intros stroke sp ep dx dy Hshape Hs He sx sy ex ey moved.
  repeat match goal with
         | |- _ /\ _ => split
         | |- StrokeUtils.applyResize _ _ _ _ = _ =>
             rewrite (applyResize_shape stroke sp ep Hshape Hs He); reflexivity
         end.
  intros ctx. unfold StrokeUtils.calculateBounds; simpl.
  unfold JS.truthyNum. destruct (Req_dec_T 0 0) as [_|n]; [|exfalso; apply n; reflexivity].
  f_equal; unfold Rmin, Rmax; decide_reals.
Qed.

Lemma C6_witness :
  isShapeType (Stroke.type rect100x50) = true /\
  StrokeUtils.applyResize rect100x50 "se" 10 20 =
  StrokeUtils.createShapeStroke "r" Tool.rectangle
    (Point.mk 0 0) (Point.mk (100 + 10) (50 + 20)) blue 4.
Proof.
  split; [reflexivity|].
  exact (proj1 (proj2 (proj2 (proj2
    (C6_applyResize_mapping rect100x50 (Point.mk 0 0) (Point.mk 100 50) 10 20
       eq_refl eq_refl eq_refl))))).
Defined.

(** ** Bounds *)

Lemma truthyNum_nonzero (a : R) : a <> 0 -> JS.truthyNum a = true.
Proof. intros H; unfold JS.truthyNum; destruct (Req_dec_T a 0); [contradiction|reflexivity]. Qed.

Lemma truthyNum_zero : JS.truthyNum 0 = false.
Proof. unfold JS.truthyNum; destruct (Req_dec_T 0 0) as [_|n]; [reflexivity|now elim n]. Qed.

Lemma truthyNum_orNum (v : option R) : JS.truthyNum (JS.orNum v 0) = true -> JS.orNum v 0 <> 0.
Proof.
  intros H E; rewrite E in H; rewrite truthyNum_zero in H; discriminate.
Qed.

Lemma extend_fold_shrinks (ps : list Point) (b : Bounds) :
  let r := fold_left StrokeUtils.extend ps b in
  Bounds.minX r <= Bounds.minX b /\ Bounds.minY r <= Bounds.minY b /\
  Bounds.maxX b <= Bounds.maxX r /\ Bounds.maxY b <= Bounds.maxY r.
Proof.
  revert b; induction ps as [|q ps IH]; intros b; simpl.
  - repeat split; apply Rle_refl.
  - destruct (IH (StrokeUtils.extend b q)) as (H1 & H2 & H3 & H4); simpl in *.
    pose proof (Rmin_l (Bounds.minX b) (Point.x q)).
    pose proof (Rmin_l (Bounds.minY b) (Point.y q)).
    pose proof (Rmax_l (Bounds.maxX b) (Point.x q)).
    pose proof (Rmax_l (Bounds.maxY b) (Point.y q)).
    repeat split; lra.
Qed.

Lemma extend_fold_encloses (ps : list Point) (b : Bounds) (q : Point) :
  In q ps ->
  let r := fold_left StrokeUtils.extend ps b in
  Bounds.minX r <= Point.x q <= Bounds.maxX r /\
  Bounds.minY r <= Point.y q <= Bounds.maxY r.
Proof.
  revert b; induction ps as [|a ps IH]; intros b Hin; simpl in *; [contradiction|].
  destruct Hin as [->|Hin]; [|apply IH; exact Hin].
  destruct (extend_fold_shrinks ps (StrokeUtils.extend b q)) as (H1 & H2 & H3 & H4);
    simpl in *.
  pose proof (Rmin_r (Bounds.minX b) (Point.x q)).
  pose proof (Rmin_r (Bounds.minY b) (Point.y q)).
  pose proof (Rmax_r (Bounds.maxX b) (Point.x q)).
  pose proof (Rmax_r (Bounds.maxY b) (Point.y q)).
  repeat split; lra.
Qed.

(** The running box of a non-empty array contains each of its points. *)
Lemma boxOf_encloses (p : Point) (ps : list Point) (q : Point) :
  In q (p :: ps) ->
  let r := StrokeUtils.boxOf p ps in
  Bounds.minX r <= Point.x q <= Bounds.maxX r /\
  Bounds.minY r <= Point.y q <= Bounds.maxY r.
Proof.
  intros [<-|Hin]; unfold StrokeUtils.boxOf.
  - destruct (extend_fold_shrinks ps
                (Bounds.mk (Point.x p) (Point.y p) (Point.x p) (Point.y p)))
      as (H1 & H2 & H3 & H4); simpl in *.
    repeat split; assumption.
  - apply extend_fold_encloses; exact Hin.
Qed.

Lemma cos_eighth_turn : cos (PI / 4) = sin (PI / 4) /\ 0 < sin (PI / 4).
Proof.
  rewrite cos_PI4, sin_PI4; split; [reflexivity|].
  apply Rdiv_lt_0_compat; [lra|]. apply sqrt_lt_R0; lra.
Qed.

Lemma eighth_turn_nonzero : PI / 4 <> 0.
Proof. pose proof PI_RGT_0; lra. Qed.

(** C4, as stated, fails: for the pen stroke (0,0),(2,2) turned by PI/4 the
    code's box is not the box of the four turned corners of the unrotated
    box (its right edge is at 1, the turned corner (2,0) lies further right). *)
Lemma C4_counterexample :
  StrokeUtils.calculateBounds monoCtx penDiagonal <> cornerRotatedBounds monoCtx penDiagonal.
Proof.
  intros H. apply (f_equal Bounds.maxX) in H.
  unfold cornerRotatedBounds, unrotated, StrokeUtils.calculateBounds, penDiagonal in H.
  cbn [Stroke.rotation Stroke.withRotation Stroke.type Stroke.points Stroke.startPoint
       Stroke.endPoint Tool.eqb JS.orNum] in H.
  rewrite truthyNum_zero in H.
  rewrite (truthyNum_nonzero _ eighth_turn_nonzero) in H.
  rewrite truthyNum_zero in H.
  rewrite (truthyNum_nonzero _ eighth_turn_nonzero) in H.
  unfold StrokeUtils.rotatedCornerBox, StrokeUtils.boxOf, rotatePoint in H.
  destruct cos_eighth_turn as [Hc Hs].
  cbn [fold_left map StrokeUtils.extend Bounds.minX Bounds.minY Bounds.maxX Bounds.maxY
       Point.x Point.y] in H.
  rewrite Hc in H.
  replace (Rmin 0 2) with 0 in H by (symmetry; apply Rmin_left; lra).
  replace (Rmax 0 2) with 2 in H by (symmetry; apply Rmax_right; lra).
  revert H. revert Hs. generalize (sin (PI / 4)). intros s Hs H.
  match type of H with
  | Rmax ?A ?B = Rmax (Rmax (Rmax ?C1 ?C2) ?C3) ?C4 =>
      assert (Hl : Rmax A B <= 1) by (apply Rmax_lub; lra);
      pose proof (Rmax_r C1 C2) as H2;
      pose proof (Rmax_l (Rmax C1 C2) C3) as H3;
      pose proof (Rmax_l (Rmax (Rmax C1 C2) C3) C4) as H4;
      assert (Hr : 1 < C2) by lra
  end.
  lra.
Qed.

Ltac norm_minmax :=
  repeat match goal with
         | |- context [Rmin ?a ?b] =>
             first [ rewrite (Rmin_left a b) by lra | rewrite (Rmin_right a b) by lra ]
         | |- context [Rmax ?a ?b] =>
             first [ rewrite (Rmax_left a b) by lra | rewrite (Rmax_right a b) by lra ]
         end.

Section BoundsByKind.

Variable ctx : Ctx2d.
Variable stroke : Stroke.

Let rotation : R := JS.orNum (Stroke.rotation stroke) 0.

Lemma rotation_cases :
  (rotation = 0 /\ JS.truthyNum rotation = false) \/
  (rotation <> 0 /\ JS.truthyNum rotation = true).
Proof.
  destruct (Req_dec_T rotation 0) as [E|N].
  - left; split; [exact E|]. rewrite E; apply truthyNum_zero.
  - right; split; [exact N|]. apply truthyNum_nonzero; exact N.
Qed.

Lemma calculateBounds_shape (sp ep : Point) :
  isShapeType (Stroke.type stroke) = true ->
  Stroke.startPoint stroke = Some sp -> Stroke.endPoint stroke = Some ep ->
  let x0 := Rmin (Point.x sp) (Point.x ep) in
  let y0 := Rmin (Point.y sp) (Point.y ep) in
  let x1 := Rmax (Point.x sp) (Point.x ep) in
  let y1 := Rmax (Point.y sp) (Point.y ep) in
  StrokeUtils.calculateBounds ctx stroke =
  if JS.truthyNum rotation
  then StrokeUtils.rotatedCornerBox x0 y0 x1 y1 ((x0 + x1) / 2) ((y0 + y1) / 2) rotation
  else Bounds.mk x0 y0 x1 y1.
Proof.
  intros Hshape Hs He; simpl.
  unfold StrokeUtils.calculateBounds.
  rewrite (shape_not_text stroke Hshape), Hs, He. reflexivity.
Qed.

Lemma calculateBounds_pen (p : Point) (ps : list Point) :
  Stroke.type stroke = Tool.pen ->
  Stroke.startPoint stroke = None -> Stroke.endPoint stroke = None ->
  Stroke.points stroke = p :: ps ->
  let u := StrokeUtils.boxOf p ps in
  let cx := (Bounds.minX u + Bounds.maxX u) / 2 in
  let cy := (Bounds.minY u + Bounds.maxY u) / 2 in
  let turn := fun q : Point => rotatePoint (Point.x q) (Point.y q) cx cy rotation in
  StrokeUtils.calculateBounds ctx stroke =
  if JS.truthyNum rotation then StrokeUtils.boxOf (turn p) (map turn ps) else u.
Proof.
  intros Ht Hs He Hp; simpl.
  unfold StrokeUtils.calculateBounds.
  rewrite Ht, Hs, ?He, Hp. reflexivity.
Qed.

Lemma calculateBounds_text (measureText : R -> string -> R) (anchor : Point)
    (rest : list Point) :
  ctx = Some measureText ->
  Stroke.type stroke = Tool.text ->
  Stroke.points stroke = anchor :: rest ->
  let fontSize := JS.orNum (Stroke.fontSize stroke) 16 in
  let lines := JS.splitLines (JS.orStr (Stroke.text stroke)) in
  let lineHeight := fontSize * (12 / 10) in
  let w := StrokeUtils.maxFrom 20 (map (measureText fontSize) lines) in
  let h := Rmax lineHeight (lineHeight * INR (List.length lines)) in
  let ax := Point.x anchor in
  let ay := Point.y anchor in
  StrokeUtils.calculateBounds ctx stroke =
  if JS.truthyNum rotation
  then
    let b := StrokeUtils.rotatedCornerBox ax ay (ax + w) (ay + h)
               (ax + w / 2) (ay + h / 2) rotation in
    Bounds.mk (Bounds.minX b - 2) (Bounds.minY b - 2) (Bounds.maxX b + 2) (Bounds.maxY b + 2)
  else Bounds.mk (ax - 2) (ay - 2) (ax + w + 2) (ay + h + 2).
Proof.
  intros Hc Ht Hp; simpl.
  unfold StrokeUtils.calculateBounds.
  rewrite Hc, Ht, Hp. reflexivity.
Qed.

End BoundsByKind.

(** C4, amended.  With rotation 0 (or none) [calculateBounds] returns the
    unrotated box of the stroke's kind: the min/max box of the diagonal for a
    rectangle, ellipse or line, the box of the sample points for a pen
    stroke, the measured text box padded by 2 for a text stroke.  With a
    rotation other than 0 it returns: for a shape, the box of the four
    corners of that unrotated box turned about the box's centre; for a pen
    stroke, the box of the sample points, each turned about the centre of the
    unrotated box; for a text stroke, the box of the four turned corners of
    the unpadded measured box, then padded by 2.  A box of points contains
    each of them. *)
Theorem C4_calculateBounds_by_kind :
  forall (ctx : Ctx2d) (stroke : Stroke),
    let rotation := JS.orNum (Stroke.rotation stroke) 0 in
    (forall sp ep,
        isShapeType (Stroke.type stroke) = true ->
        Stroke.startPoint stroke = Some sp -> Stroke.endPoint stroke = Some ep ->
        let x0 := Rmin (Point.x sp) (Point.x ep) in
        let y0 := Rmin (Point.y sp) (Point.y ep) in
        let x1 := Rmax (Point.x sp) (Point.x ep) in
        let y1 := Rmax (Point.y sp) (Point.y ep) in
        (rotation = 0 -> StrokeUtils.calculateBounds ctx stroke = Bounds.mk x0 y0 x1 y1) /\
        (rotation <> 0 ->
         StrokeUtils.calculateBounds ctx stroke =
         StrokeUtils.boxOf (rotatePoint x0 y0 ((x0 + x1) / 2) ((y0 + y1) / 2) rotation)
           [ rotatePoint x1 y0 ((x0 + x1) / 2) ((y0 + y1) / 2) rotation;
             rotatePoint x1 y1 ((x0 + x1) / 2) ((y0 + y1) / 2) rotation;
             rotatePoint x0 y1 ((x0 + x1) / 2) ((y0 + y1) / 2) rotation ]
         /\ StrokeUtils.calculateBounds ctx stroke = cornerRotatedBounds ctx stroke))
    /\
    (forall p ps,
        Stroke.type stroke = Tool.pen ->
        Stroke.startPoint stroke = None -> Stroke.endPoint stroke = None ->
        Stroke.points stroke = p :: ps ->
        let u := StrokeUtils.boxOf p ps in
        let cx := (Bounds.minX u + Bounds.maxX u) / 2 in
        let cy := (Bounds.minY u + Bounds.maxY u) / 2 in
        let turn := fun q : Point => rotatePoint (Point.x q) (Point.y q) cx cy rotation in
        (rotation = 0 -> StrokeUtils.calculateBounds ctx stroke = u) /\
        (rotation <> 0 ->
         StrokeUtils.calculateBounds ctx stroke = StrokeUtils.boxOf (turn p) (map turn ps)))
    /\
    (forall measureText anchor rest,
        ctx = Some measureText ->
        Stroke.type stroke = Tool.text ->
        Stroke.points stroke = anchor :: rest ->
        let fontSize := JS.orNum (Stroke.fontSize stroke) 16 in
        let lines := JS.splitLines (JS.orStr (Stroke.text stroke)) in
        let lineHeight := fontSize * (12 / 10) in
        let w := StrokeUtils.maxFrom 20 (map (measureText fontSize) lines) in
        let h := Rmax lineHeight (lineHeight * INR (List.length lines)) in
        let ax := Point.x anchor in
        let ay := Point.y anchor in
        (rotation = 0 ->
         StrokeUtils.calculateBounds ctx stroke =
         Bounds.mk (ax - 2) (ay - 2) (ax + w + 2) (ay + h + 2)) /\
        (rotation <> 0 ->
         let b := StrokeUtils.boxOf (rotatePoint ax ay (ax + w / 2) (ay + h / 2) rotation)
                    [ rotatePoint (ax + w) ay (ax + w / 2) (ay + h / 2) rotation;
                      rotatePoint (ax + w) (ay + h) (ax + w / 2) (ay + h / 2) rotation;
                      rotatePoint ax (ay + h) (ax + w / 2) (ay + h / 2) rotation ] in
         StrokeUtils.calculateBounds ctx stroke =
         Bounds.mk (Bounds.minX b - 2) (Bounds.minY b - 2)
                   (Bounds.maxX b + 2) (Bounds.maxY b + 2)))
    /\
    (forall p ps q,
        In q (p :: ps) ->
        Bounds.minX (StrokeUtils.boxOf p ps) <= Point.x q <= Bounds.maxX (StrokeUtils.boxOf p ps)
        /\
        Bounds.minY (StrokeUtils.boxOf p ps) <= Point.y q <= Bounds.maxY (StrokeUtils.boxOf p ps)).
Proof.
  intros ctx stroke rotation.
  assert (Hzero : rotation = 0 -> JS.truthyNum rotation = false)
    by (intros ->; apply truthyNum_zero).
  pose proof (truthyNum_nonzero rotation) as Hnz.
  repeat split.
  - intros E. rewrite (calculateBounds_shape ctx stroke sp ep H H0 H1).
    fold rotation. rewrite (Hzero E). reflexivity.
  - rewrite (calculateBounds_shape ctx stroke sp ep H H0 H1).
    fold rotation. rewrite (Hnz H2). reflexivity.
  - rewrite (calculateBounds_shape ctx stroke sp ep H H0 H1).
    fold rotation. rewrite (Hnz H2).
    unfold cornerRotatedBounds, unrotated.
    rewrite (calculateBounds_shape ctx (Stroke.withRotation 0 stroke) sp ep); auto.
    cbn [Stroke.rotation Stroke.withRotation JS.orNum].
    rewrite !truthyNum_zero. reflexivity.
  - intros E. rewrite (calculateBounds_pen ctx stroke p ps H H0 H1 H2).
    fold rotation. rewrite (Hzero E). reflexivity.
  - intros N. rewrite (calculateBounds_pen ctx stroke p ps H H0 H1 H2).
    fold rotation. rewrite (Hnz N). reflexivity.
  - intros E. rewrite (calculateBounds_text ctx stroke measureText anchor rest H H0 H1).
    fold rotation. rewrite (Hzero E). reflexivity.
  - intros N. rewrite (calculateBounds_text ctx stroke measureText anchor rest H H0 H1).
    fold rotation. rewrite (Hnz N). reflexivity.
  - apply (boxOf_encloses p ps q H).
  - apply (boxOf_encloses p ps q H).
  - apply (boxOf_encloses p ps q H).
  - apply (boxOf_encloses p ps q H).
Qed.

Lemma C4_witness :
  isShapeType (Stroke.type rect100x50) = true /\
  JS.orNum (Stroke.rotation rect100x50) 0 = 0 /\
  StrokeUtils.calculateBounds monoCtx rect100x50 =
  Bounds.mk (Rmin 0 100) (Rmin 0 50) (Rmax 0 100) (Rmax 0 50).
Proof.
  split; [reflexivity|]. split; [reflexivity|].
  exact (proj1 (proj1 (C4_calculateBounds_by_kind monoCtx rect100x50)
                  (Point.mk 0 0) (Point.mk 100 50) eq_refl eq_refl eq_refl)
               eq_refl).
Defined.

(** ** Hit testing *)

Section HitTest.

Variable calculateBounds : Stroke -> Bounds.
Variable point : Point.

Let hit := HitDetector.hitTest calculateBounds point.

(** The downward scan returns the stroke of the greatest index below [n]
    among those that take the hit. *)
Lemma scanDown_topmost (strokes : list Stroke) (n : nat) :
  match HitDetector.scanDown calculateBounds point strokes n with
  | Some s =>
      exists i, (i < n)%nat /\ nth_error strokes i = Some s /\ hit s = true /\
                forall j s', (i < j < n)%nat -> nth_error strokes j = Some s' -> hit s' = false
  | None =>
      forall j s', (j < n)%nat -> nth_error strokes j = Some s' -> hit s' = false
  end.
Proof.
  induction n as [|n IH]; simpl.
  - intros j s' Hj; lia.
  - destruct (nth_error strokes n) as [sn|] eqn:En.
    + destruct (HitDetector.hitTest calculateBounds point sn) eqn:Eh.
      * exists n. repeat split; auto. intros j s' Hj; lia.
      * destruct (HitDetector.scanDown calculateBounds point strokes n) as [s|].
        -- destruct IH as (i & Hi & Hnth & Hhit & Habove).
           exists i. repeat split; auto.
           intros j s' Hj Hs'. destruct (Nat.eq_dec j n) as [->|Hne].
           ++ rewrite En in Hs'; injection Hs' as <-. exact Eh.
           ++ apply (Habove j); [lia|exact Hs'].
        -- intros j s' Hj Hs'. destruct (Nat.eq_dec j n) as [->|Hne].
           ++ rewrite En in Hs'; injection Hs' as <-. exact Eh.
           ++ apply (IH j); [lia|exact Hs'].
    + destruct (HitDetector.scanDown calculateBounds point strokes n) as [s|].
      * destruct IH as (i & Hi & Hnth & Hhit & Habove).
        exists i. repeat split; auto.
        intros j s' Hj Hs'. destruct (Nat.eq_dec j n) as [->|Hne].
        -- rewrite En in Hs'; discriminate.
        -- apply (Habove j); [lia|exact Hs'].
      * intros j s' Hj Hs'. destruct (Nat.eq_dec j n) as [->|Hne].
        -- rewrite En in Hs'; discriminate.
        -- apply (IH j); [lia|exact Hs'].
Qed.

(** On a well-formed stroke the code's dispatch on the fields present picks
    the region of the stroke's type. *)
Lemma hitTest_wellFormed (s : Stroke) :
  wellFormed s -> hit s = hitRegion calculateBounds point s.
Proof.
  unfold wellFormed, hit, HitDetector.hitTest, hitRegion.
  destruct (Stroke.type s); simpl; try contradiction.
  - intros (Hp & Hs & He). rewrite Hs.
    destruct (Stroke.points s); [contradiction|reflexivity].
  - intros ((sp & ep & Hs & He) & Hp). rewrite Hs, He.
    destruct (Stroke.points s); reflexivity.
  - intros ((sp & ep & Hs & He) & Hp). rewrite Hs, He.
    destruct (Stroke.points s); reflexivity.
  - intros ((sp & ep & Hs & He) & Hp). rewrite Hs, He.
    destruct (Stroke.points s); reflexivity.
  - intros (anchor & Hp). rewrite Hp. reflexivity.
Qed.

Lemma getStrokeAtPoint_last (front : list Stroke) (top : Stroke) :
  hit top = true ->
  HitDetector.getStrokeAtPoint point (front ++ [top]) calculateBounds = Some top.
Proof.
  intros Hhit. unfold HitDetector.getStrokeAtPoint.
  rewrite length_app, Nat.add_comm; simpl.
  rewrite nth_error_app2, Nat.sub_diag by lia; simpl.
  fold hit. rewrite Hhit. reflexivity.
Qed.

End HitTest.

Lemma hitTest_byFields (calculateBounds : Stroke -> Bounds) (point : Point) (s : Stroke) :
  HitDetector.hitTest calculateBounds point s = hitRegionByFields calculateBounds point s.
Proof.
  unfold HitDetector.hitTest, hitRegionByFields.
  destruct (Tool.eqb (Stroke.type s) Tool.text); cbn [andb].
  - destruct (Stroke.points s) as [|p ps]; cbn [List.length Nat.ltb Nat.leb].
    + destruct (Stroke.startPoint s), (Stroke.endPoint s); reflexivity.
    + reflexivity.
  - destruct (Stroke.startPoint s), (Stroke.endPoint s), (Stroke.points s); reflexivity.
Qed.

(** The claim as stated fails on a stroke outside the data model: the text
    stroke without an anchor is returned at a point that its region by type,
    the computed bounds, does not hold. *)
Lemma C5_counterexample :
  HitDetector.getStrokeAtPoint (Point.mk 15 5) [anchorlessText]
    (StrokeUtils.calculateBounds monoCtx) = Some anchorlessText
  /\ hitRegion (StrokeUtils.calculateBounds monoCtx) (Point.mk 15 5) anchorlessText = false.
Proof.
  split.
  - apply (getStrokeAtPoint_last (StrokeUtils.calculateBounds monoCtx) (Point.mk 15 5)
             [] anchorlessText).
    unfold HitDetector.hitTest, anchorlessText; simpl. norm_minmax. js_num.
  - unfold hitRegion, StrokeUtils.calculateBounds, anchorlessText.
    cbn [Stroke.type Stroke.points Stroke.rotation Stroke.startPoint Stroke.endPoint
         Tool.eqb JS.orNum Point.x Point.y].
    rewrite truthyNum_zero.
    cbn [Bounds.minX Bounds.minY Bounds.maxX Bounds.maxY Point.x Point.y].
    norm_minmax. js_num.
Qed.

(** C5 (as amended): for every scene [getStrokeAtPoint] returns the stroke
    of the greatest array index among those whose hit region holds the
    point, and [null] exactly when no region holds it; of two strokes that
    both hold the point, the later one is returned.  The region is the one
    the stroke's fields give: computed bounds for a text stroke with a point;
    otherwise the diagonal's min/max box widened by 12 for a stroke with both
    diagonal points; otherwise some sample point within
    [max(14, strokeWidth + 10)].  On strokes that satisfy the data-model
    invariant this is the region by type of the claim. *)
Theorem C5_getStrokeAtPoint_topmost :
  forall (calculateBounds : Stroke -> Bounds) (point : Point) (strokes : list Stroke),
    match HitDetector.getStrokeAtPoint point strokes calculateBounds with
    | Some s =>
        exists i, nth_error strokes i = Some s /\
                  hitRegionByFields calculateBounds point s = true /\
                  forall j s', (i < j)%nat -> nth_error strokes j = Some s' ->
                               hitRegionByFields calculateBounds point s' = false
    | None =>
        forall s, In s strokes -> hitRegionByFields calculateBounds point s = false
    end
    /\
    (forall below a between b,
        strokes = below ++ a :: between ++ [b] ->
        hitRegionByFields calculateBounds point a = true ->
        hitRegionByFields calculateBounds point b = true ->
        HitDetector.getStrokeAtPoint point strokes calculateBounds = Some b)
    /\
    (forall s, wellFormed s ->
               hitRegionByFields calculateBounds point s = hitRegion calculateBounds point s).
Proof.
  intros cb point strokes.
  split; [|split].
  - unfold HitDetector.getStrokeAtPoint.
    pose proof (scanDown_topmost cb point strokes (List.length strokes)) as H.
    destruct (HitDetector.scanDown cb point strokes (List.length strokes)) as [s|].
    + destruct H as (i & Hi & Hnth & Hhit & Habove).
      exists i. split; [exact Hnth|]. split.
      * rewrite <- hitTest_byFields. exact Hhit.
      * intros j s' Hj Hs'. rewrite <- hitTest_byFields.
        apply (Habove j); [|exact Hs'].
        split; [exact Hj|]. apply nth_error_Some. rewrite Hs'; discriminate.
    + intros s Hin. destruct (In_nth_error _ _ Hin) as (j & Hj).
      rewrite <- hitTest_byFields. apply (H j); [|exact Hj].
      apply nth_error_Some. rewrite Hj; discriminate.
  - intros below a between b -> Ha Hb.
    replace (below ++ a :: between ++ [b]) with ((below ++ a :: between) ++ [b])
      by (rewrite <- app_assoc; reflexivity).
    apply getStrokeAtPoint_last. rewrite hitTest_byFields. exact Hb.
  - intros s Hwf. rewrite <- hitTest_byFields. apply hitTest_wellFormed. exact Hwf.
Qed.

Lemma rect_wellFormed (id : string) (a b : Point) (c : string) (w : R) :
  wellFormed (StrokeUtils.createShapeStroke id Tool.rectangle a b c w).
Proof. split; [exists a, b; split; reflexivity | reflexivity]. Qed.

Lemma C5_witness :
  wellFormed rectOver /\
  HitDetector.getStrokeAtPoint (Point.mk 7 7) [rectNear; rectOver]
    (StrokeUtils.calculateBounds monoCtx) = Some rectOver.
Proof.
  split; [apply rect_wellFormed|].
  pose proof (C5_getStrokeAtPoint_topmost (StrokeUtils.calculateBounds monoCtx)
                (Point.mk 7 7) [rectNear; rectOver]) as (_ & Hlater & Hregion).
  apply (Hlater [] rectNear [] rectOver eq_refl).
  - rewrite (Hregion rectNear (rect_wellFormed _ _ _ _ _)).
    unfold hitRegion; simpl. norm_minmax. js_num.
  - rewrite (Hregion rectOver (rect_wellFormed _ _ _ _ _)).
    unfold hitRegion; simpl. norm_minmax. js_num.
Defined.

(** ** Marquee selection *)

Lemma textOutside_bounds :
  StrokeUtils.calculateBounds monoCtx textOutside =
  Bounds.mk (-3) (-3) 21 (-1 + 16 * (12 / 10) + 2).
Proof.
  unfold StrokeUtils.calculateBounds, textOutside, StrokeUtils.createTextStroke, monoCtx.
  cbn [Stroke.rotation Stroke.type Stroke.points Stroke.fontSize Stroke.text Tool.eqb
       JS.orNum JS.orStr Point.x Point.y].
  rewrite truthyNum_zero.
  replace (Rmax 16 (4 * 4)) with 16 by (symmetry; apply Rmax_left; lra).
  rewrite (truthyNum_nonzero 16) by lra.
  cbn [JS.splitLines Ascii.eqb JS.newline Bool.eqb map List.length String.length
       StrokeUtils.maxFrom fold_left].
  replace (INR 2) with 2 by (simpl; lra).
  replace (INR 1) with 1 by reflexivity.
  norm_minmax. f_equal; lra.
Qed.

(** C8, as stated, fails for text: finishing the marquee (0,0)-(5,5) over a
    text stroke anchored at (-1,-1) selects it, although its anchor is
    outside the box. *)
Lemma C8_counterexample :
  Store.selectedStrokes (Store.finishSelection monoCtx (withMarquee marquee05 [textOutside]))
  <> selectedBy anchorMembership marquee05 [textOutside].
Proof.
  unfold Store.finishSelection, withMarquee, selectedBy, marquee05, Store.marqueeIds.
  cbn [Store.selectionBox Store.set_selectionBox Store.set_isSelecting Store.set_strokes
       Store.strokes Store.selectMultiple Store.selectedStrokes Store.set_selectedStrokes
       Store.marqueeIds SelectionBox.startX SelectionBox.startY SelectionBox.endX
       SelectionBox.endY filter].
  replace (Store.marqueeHits monoCtx (Rmin 0 5) (Rmin 0 5) (Rmax 0 5) (Rmax 0 5) textOutside)
    with true.
  - replace (anchorMembership (Rmin 0 5) (Rmin 0 5) (Rmax 0 5) (Rmax 0 5) textOutside)
      with false.
    + simpl. discriminate.
    + unfold anchorMembership; simpl. norm_minmax. js_num.
  - unfold Store.marqueeHits.
    change (Stroke.type textOutside) with Tool.text.
    change (Stroke.points textOutside) with [Point.mk (-1) (-1)].
    cbn [Tool.eqb]. rewrite textOutside_bounds.
    cbn [Bounds.minX Bounds.minY Bounds.maxX Bounds.maxY].
    norm_minmax. js_num.
Qed.

Section Marquee.

Variable ctx : Ctx2d.
Variables minX minY maxX maxY : R.

Lemma marqueeHits_wellFormed (s : Stroke) :
  wellFormed s ->
  Store.marqueeHits ctx minX minY maxX maxY s = boundsMembership ctx minX minY maxX maxY s.
Proof.
  unfold wellFormed, Store.marqueeHits, boundsMembership, shapeOrPenMembership.
  destruct (Stroke.type s); simpl; try contradiction.
  - intros (Hp & Hs & He). rewrite Hs.
    destruct (Stroke.points s); [contradiction|reflexivity].
  - intros ((sp & ep & Hs & He) & Hp). rewrite Hs, He.
    destruct (Stroke.points s); reflexivity.
  - intros ((sp & ep & Hs & He) & Hp). rewrite Hs, He.
    destruct (Stroke.points s); reflexivity.
  - intros ((sp & ep & Hs & He) & Hp). rewrite Hs, He.
    destruct (Stroke.points s); reflexivity.
  - intros (anchor & Hp). rewrite Hp. reflexivity.
Qed.

Lemma inSelection_wellFormed (s : Stroke) :
  wellFormed s ->
  HitDetector.inSelection minX minY maxX maxY s = anchorMembership minX minY maxX maxY s.
Proof.
  unfold wellFormed, HitDetector.inSelection, anchorMembership, shapeOrPenMembership.
  destruct (Stroke.type s); simpl; try contradiction.
  - intros (Hp & Hs & He). rewrite Hs.
    destruct (Stroke.points s); [contradiction|reflexivity].
  - intros ((sp & ep & Hs & He) & Hp). rewrite Hs, He.
    destruct (Stroke.points s); reflexivity.
  - intros ((sp & ep & Hs & He) & Hp). rewrite Hs, He.
    destruct (Stroke.points s); reflexivity.
  - intros ((sp & ep & Hs & He) & Hp). rewrite Hs, He.
    destruct (Stroke.points s); reflexivity.
  - intros (anchor & Hp). rewrite Hp. reflexivity.
Qed.

End Marquee.

Lemma finishSelection_selected (ctx : Ctx2d) (st : Store.State) (box : SelectionBox) :
  Store.selectionBox st = Some box ->
  Store.selectedStrokes (Store.finishSelection ctx st) =
  Store.marqueeIds ctx box (Store.strokes st).
Proof. intros Hb. unfold Store.finishSelection. rewrite Hb. reflexivity. Qed.

Lemma scenario_near_hit (ctx : Ctx2d) :
  Store.marqueeHits ctx (Rmin (-5) 20) (Rmin (-5) 20) (Rmax (-5) 20) (Rmax (-5) 20) rectNear
  = true.
Proof. unfold Store.marqueeHits; simpl. norm_minmax. js_num. Qed.

Lemma scenario_far_miss (ctx : Ctx2d) :
  Store.marqueeHits ctx (Rmin (-5) 20) (Rmin (-5) 20) (Rmax (-5) 20) (Rmax (-5) 20) rectFar
  = false.
Proof. unfold Store.marqueeHits; simpl. norm_minmax. js_num. Qed.

(** C8, amended.  On a scene of well-formed strokes the membership computed
    when the marquee is finished is: for a pen stroke, some sample point in
    the normalized box; for a shape, its diagonal's min/max box overlapping
    the normalized box; for a text stroke, its computed bounds overlapping
    the normalized box.  [getStrokesInSelectionBox] differs only on text,
    where it asks for the anchor to lie in the box.  With rectangles
    (0,0)-(10,10) and (100,100)-(110,110), the marquee (-5,-5)-(20,20)
    selects only the first, by either function. *)
Theorem C8_marquee_membership :
  forall (ctx : Ctx2d) (st : Store.State) (box : SelectionBox),
    Store.selectionBox st = Some box ->
    Forall wellFormed (Store.strokes st) ->
    Store.selectedStrokes (Store.finishSelection ctx st) =
      selectedBy (boundsMembership ctx) box (Store.strokes st)
    /\ HitDetector.getStrokesInSelectionBox (Store.strokes st) box =
      selectedBy anchorMembership box (Store.strokes st)
    /\ Store.selectedStrokes
         (Store.finishSelection ctx (withMarquee marqueeScenario [rectNear; rectFar]))
       = ["a"%string]
    /\ HitDetector.getStrokesInSelectionBox [rectNear; rectFar] marqueeScenario
       = ["a"%string].
Proof.
  intros ctx st box Hbox Hwf. rewrite Forall_forall in Hwf.
  repeat split.
  - rewrite (finishSelection_selected ctx st box Hbox).
    unfold Store.marqueeIds, selectedBy. f_equal.
    apply filter_ext_in. intros s Hs. apply marqueeHits_wellFormed, Hwf, Hs.
  - unfold HitDetector.getStrokesInSelectionBox, selectedBy. f_equal.
    apply filter_ext_in. intros s Hs. apply inSelection_wellFormed, Hwf, Hs.
  - rewrite (finishSelection_selected ctx
               (withMarquee marqueeScenario [rectNear; rectFar]) marqueeScenario eq_refl).
    unfold Store.marqueeIds, withMarquee, marqueeScenario.
    cbn [Store.strokes Store.set_selectionBox Store.set_isSelecting Store.set_strokes
         SelectionBox.startX SelectionBox.startY SelectionBox.endX SelectionBox.endY filter].
    rewrite scenario_near_hit, scenario_far_miss. reflexivity.
  - unfold HitDetector.getStrokesInSelectionBox, marqueeScenario.
    cbn [SelectionBox.startX SelectionBox.startY SelectionBox.endX SelectionBox.endY filter].
    replace (HitDetector.inSelection (Rmin (-5) 20) (Rmin (-5) 20) (Rmax (-5) 20)
               (Rmax (-5) 20) rectNear) with true
      by (unfold HitDetector.inSelection; simpl; norm_minmax; js_num).
    replace (HitDetector.inSelection (Rmin (-5) 20) (Rmin (-5) 20) (Rmax (-5) 20)
               (Rmax (-5) 20) rectFar) with false
      by (unfold HitDetector.inSelection; simpl; norm_minmax; js_num).
    reflexivity.
Qed.

Lemma C8_witness :
  Store.selectionBox (withMarquee marqueeScenario [rectNear; rectFar]) = Some marqueeScenario /\
  Forall wellFormed (Store.strokes (withMarquee marqueeScenario [rectNear; rectFar])) /\
  Store.selectedStrokes
    (Store.finishSelection monoCtx (withMarquee marqueeScenario [rectNear; rectFar]))
  = selectedBy (boundsMembership monoCtx) marqueeScenario [rectNear; rectFar].
Proof.
  assert (Hwf : Forall wellFormed (Store.strokes (withMarquee marqueeScenario [rectNear; rectFar])))
    by (repeat constructor; apply rect_wellFormed).
  split; [reflexivity|]. split; [exact Hwf|].
  exact (proj1 (C8_marquee_membership monoCtx
                  (withMarquee marqueeScenario [rectNear; rectFar]) marqueeScenario
                  eq_refl Hwf)).
Defined.

(** ** The history *)

Ltac store_unfold :=
  unfold Store.setCurrentTool, Store.setCurrentColor, Store.setCurrentStrokeWidth,
    Store.setZoom, Store.setPan, Store.resetView, Store.addStroke, Store.setCurrentStroke,
    Store.finishStroke, Store.startShape, Store.updateShape, Store.finishShape,
    Store.selectStroke, Store.selectMultiple, Store.clearSelection, Store.deleteSelected,
    Store.startSelection, Store.updateSelection, Store.finishSelection,
    Store.startDrag, Store.updateDrag, Store.finishDrag, Store.startResize,
    Store.updateResize, Store.finishResize, Store.startRotate, Store.updateRotate,
    Store.finishRotate, Store.startTextEdit, Store.updateText, Store.finishTextEdit,
    Store.setEditingText, Store.newDocument, Store.loadDocument, Store.clear,
    Store.resetGesture, Store.selectMultiple, Store.clearSelection, Store.addStroke
    in *.

Ltac split_guards :=
  repeat match goal with
         | |- context [match ?x with _ => _ end] => destruct x eqn:?
         end.

Lemma pushHistory_history (snapshot : list Stroke) (st : Store.State) :
  Store.history (Store.pushHistory snapshot st) =
  JS.slice0 (Store.history st) (Store.historyIndex st + 1) ++ [snapshot].
Proof. reflexivity. Qed.

Lemma pushHistory_index (snapshot : list Stroke) (st : Store.State) :
  Store.historyIndex (Store.pushHistory snapshot st) =
  (JS.len (Store.history (Store.pushHistory snapshot st)) - 1)%Z.
Proof. reflexivity. Qed.

Lemma pushHistory_strokes (snapshot : list Stroke) (st : Store.State) :
  Store.strokes (Store.pushHistory snapshot st) = Store.strokes st.
Proof. reflexivity. Qed.

Lemma eraseAtPoint_cases (x y radius : R) (st st' : Store.State) :
  Store.eraseAtPoint x y radius st = Some st' ->
  exists kept,
    Store.filterThrow (Store.eraseKeeps x y radius) (Store.strokes st) = Some kept /\
    ((List.length kept <> List.length (Store.strokes st) /\
      st' = Store.set_strokes kept (Store.pushHistory kept st)) \/
     (List.length kept = List.length (Store.strokes st) /\ st' = st)).
Proof.
  unfold Store.eraseAtPoint.
  destruct (Store.filterThrow (Store.eraseKeeps x y radius) (Store.strokes st)) as [kept|];
    [|discriminate].
  destruct (Nat.eqb (List.length kept) (List.length (Store.strokes st))) eqn:E; simpl;
    intros H; injection H as <-; exists kept; split; auto.
  - right; split; [apply Nat.eqb_eq; exact E|reflexivity].
  - left; split; [apply Nat.eqb_neq; exact E|reflexivity].
Qed.

(** An action whose guard holds pushes one snapshot, the scene it leaves. *)
Lemma commit_pushes (ctx : Ctx2d) (op : Store.Op) (st st' : Store.State) :
  commits op st = true -> Store.step ctx op st = Some st' -> pushed st st'.
Proof.
  intros Hc Hstep.
  destruct op; simpl in Hc; try discriminate; simpl in Hstep;
    try (injection Hstep as <-).
  - (* setCurrentColor *)
    unfold Store.setCurrentColor. rewrite Hc. split; reflexivity.
  - split; reflexivity.
  - unfold Store.finishStroke.
    destruct (Store.currentStroke st); [|discriminate]. split; reflexivity.
  - unfold Store.finishShape.
    destruct (Store.currentStroke st); [|discriminate]. rewrite Hc. split; reflexivity.
  - split; reflexivity.
  - unfold Store.finishDrag. rewrite Hc. split; reflexivity.
  - unfold Store.finishResize. rewrite Hc. split; reflexivity.
  - unfold Store.finishRotate. rewrite Hc. split; reflexivity.
  - unfold Store.finishTextEdit.
    destruct (Store.editingText st) as [e|]; [|discriminate]. rewrite Hc; simpl.
    destruct (JS.find _ _) as [existing|]; [|split; reflexivity].
    destruct (Tool.eqb (Stroke.type existing) Tool.text); split; reflexivity.
  - destruct (eraseAtPoint_cases _ _ _ _ _ Hstep) as (kept & Hk & [[Hlen ->]|[Hlen ->]]).
    + split; reflexivity.
    + rewrite Hk in Hc. apply Nat.eqb_eq in Hlen. rewrite Hlen in Hc. discriminate.
  - split; reflexivity.
Qed.

(** An action whose guard fails, other than undo, redo and the document
    actions, leaves the history and the index as they were. *)
Lemma no_commit_keeps (ctx : Ctx2d) (op : Store.Op) (st st' : Store.State) :
  commits op st = false -> rewinds op = false ->
  Store.step ctx op st = Some st' -> historyKept st st'.
Proof.
  intros Hc Hr Hstep.
  destruct op; simpl in Hc, Hr; try discriminate; simpl in Hstep;
    try (injection Hstep as <-);
    try (split; reflexivity);
    try (store_unfold; try rewrite Hc; split_guards; split; reflexivity).
  - unfold Store.finishStroke.
    destruct (Store.currentStroke st); [discriminate|split; reflexivity].
  - unfold Store.finishShape.
    destruct (Store.currentStroke st); [rewrite Hc|]; split; reflexivity.
  - unfold Store.finishTextEdit.
    destruct (Store.editingText st); [rewrite Hc|]; split; reflexivity.
  - destruct (eraseAtPoint_cases _ _ _ _ _ Hstep) as (kept & Hk & [[Hlen ->]|[Hlen ->]]).
    + rewrite Hk in Hc. apply Nat.eqb_neq in Hlen. rewrite Hlen in Hc. discriminate.
    + split; reflexivity.
Qed.

Lemma slice0_next (A : Type) (arr : list A) (i : Z) :
  (0 <= i)%Z -> JS.slice0 arr (i + 1) = firstn (S (Z.to_nat i)) arr.
Proof.
  intros Hi. unfold JS.slice0.
  destruct (Z.ltb_spec (i + 1) 0); [lia|].
  f_equal. lia.
Qed.

Lemma index_in_range (A : Type) (arr : list A) (i : Z) :
  (0 <= i < JS.len arr)%Z -> exists a, JS.index arr i = Some a.
Proof.
  intros [H0 H1]. unfold JS.index, JS.len in *.
  destruct (Z.ltb_spec i 0); [lia|].
  destruct (nth_error arr (Z.to_nat i)) eqn:E; [eauto|].
  apply nth_error_None in E. lia.
Qed.

Lemma index_last (A : Type) (arr : list A) (a : A) :
  JS.index (arr ++ [a]) (JS.len (arr ++ [a]) - 1) = Some a.
Proof.
  unfold JS.index, JS.len. rewrite length_app; simpl.
  destruct (Z.ltb_spec (Z.of_nat (List.length arr + 1) - 1) 0); [lia|].
  replace (Z.to_nat (Z.of_nat (List.length arr + 1) - 1)) with (List.length arr) by lia.
  rewrite nth_error_app2, Nat.sub_diag by lia. reflexivity.
Qed.

Lemma pushed_current (st st' : Store.State) :
  pushed st st' ->
  sceneIsCurrentSnapshot st' /\ indexInRange st' /\ Store.get_canRedo st' = false.
Proof.
  intros [Hh Hi]. unfold sceneIsCurrentSnapshot, indexInRange, Store.get_canRedo.
  rewrite Hi. split; [|split].
  - rewrite Hh. apply index_last.
  - rewrite Hh. unfold JS.len. rewrite length_app; simpl. lia.
  - apply Z.ltb_irrefl.
Qed.

Lemma undo_cases (st : Store.State) :
  indexInRange st ->
  exists st', Store.undo st = Some st' /\ Store.history st' = Store.history st /\
    ((Store.get_canUndo st = true /\
      Store.historyIndex st' = (Store.historyIndex st - 1)%Z /\
      sceneIsCurrentSnapshot st')
     \/ (Store.get_canUndo st = false /\ st' = st)).
Proof.
  intros [H0 H1]. unfold Store.undo, Store.get_canUndo.
  destruct (Z.ltb_spec 0 (Store.historyIndex st)) as [Hlt|Hge].
  - destruct (index_in_range _ (Store.history st) (Store.historyIndex st - 1))
      as (snapshot & Hs); [lia|].
    rewrite Hs. eexists; split; [reflexivity|]. split; [reflexivity|].
    left. split; [reflexivity|]. split; [reflexivity|]. exact Hs.
  - exists st. split; [reflexivity|]. split; [reflexivity|]. right; split; reflexivity.
Qed.

Lemma redo_cases (st : Store.State) :
  indexInRange st ->
  exists st', Store.redo st = Some st' /\ Store.history st' = Store.history st /\
    ((Store.get_canRedo st = true /\
      Store.historyIndex st' = (Store.historyIndex st + 1)%Z /\
      sceneIsCurrentSnapshot st')
     \/ (Store.get_canRedo st = false /\ st' = st)).
Proof.
  intros [H0 H1]. unfold Store.redo, Store.get_canRedo.
  destruct (Z.ltb_spec (Store.historyIndex st) (JS.len (Store.history st) - 1)) as [Hlt|Hge].
  - destruct (index_in_range _ (Store.history st) (Store.historyIndex st + 1))
      as (snapshot & Hs); [lia|].
    rewrite Hs. eexists; split; [reflexivity|]. split; [reflexivity|].
    left. split; [reflexivity|]. split; [reflexivity|]. exact Hs.
  - exists st. split; [reflexivity|]. split; [reflexivity|]. right; split; reflexivity.
Qed.

Lemma commits_not_rewinds (op : Store.Op) (st : Store.State) :
  rewinds op = true -> commits op st = false.
Proof. destruct op; simpl; intros H; try discriminate; reflexivity. Qed.

(** Every step either writes the history and leaves the scene equal to the
    current snapshot, or leaves history and index alone. *)
Lemma step_history (ctx : Ctx2d) (op : Store.Op) (st st' : Store.State) :
  indexInRange st -> Store.step ctx op st = Some st' ->
  indexInRange st' /\
  (writesHistory op st = true -> sceneIsCurrentSnapshot st') /\
  (writesHistory op st = false -> historyKept st st').
Proof.
  intros Hin Hstep. unfold writesHistory.
  destruct (commits op st) eqn:Hc.
  - destruct (pushed_current st st' (commit_pushes ctx op st st' Hc Hstep)) as (H1 & H2 & _).
    simpl. split; [exact H2|]. split; [intros _; exact H1|discriminate].
  - destruct (rewinds op) eqn:Hr.
    + destruct op; simpl in Hr; try discriminate; simpl in Hstep |- *.
      * destruct (undo_cases st Hin) as (st1 & Hu & Hh & [(Hcan & Hi & Hs)|(Hcan & ->)]);
          rewrite Hstep in Hu; injection Hu as <-; rewrite Hcan.
        -- split; [|split; [intros _; exact Hs|discriminate]].
           unfold indexInRange in *. rewrite Hh, Hi.
           unfold Store.get_canUndo in Hcan. apply Z.ltb_lt in Hcan. lia.
        -- split; [exact Hin|]. split; [discriminate|intros _; split; reflexivity].
      * destruct (redo_cases st Hin) as (st1 & Hu & Hh & [(Hcan & Hi & Hs)|(Hcan & ->)]);
          rewrite Hstep in Hu; injection Hu as <-; rewrite Hcan.
        -- split; [|split; [intros _; exact Hs|discriminate]].
           unfold indexInRange in *. rewrite Hh, Hi.
           unfold Store.get_canRedo in Hcan. apply Z.ltb_lt in Hcan. lia.
        -- split; [exact Hin|]. split; [discriminate|intros _; split; reflexivity].
      * injection Hstep as <-. split; [|split; [intros _; reflexivity|discriminate]].
        unfold indexInRange, Store.newDocument, JS.len; simpl. lia.
      * injection Hstep as <-. split; [|split; [intros _; reflexivity|discriminate]].
        unfold indexInRange, Store.loadDocument, JS.len; simpl. lia.
    + destruct (no_commit_keeps ctx op st st' Hc Hr Hstep) as [Hh Hi].
      split; [unfold indexInRange in *; rewrite Hh, Hi; exact Hin|].
      split.
      * destruct op; simpl in Hr |- *; discriminate.
      * intros _; split; assumption.
Qed.

Lemma initial_indexInRange : indexInRange Store.initialState.
Proof. unfold indexInRange, JS.len; simpl. lia. Qed.

Lemma reachable_indexInRange (ctx : Ctx2d) (st : Store.State) :
  Store.reachable ctx st -> indexInRange st.
Proof.
  induction 1 as [|st op st' _ IH Hstep].
  - apply initial_indexInRange.
  - apply (step_history ctx op st st' IH Hstep).
Qed.

(** An action either makes no [set] call and leaves the state as it is, or
    its merge turns the computed properties into data properties. *)
Lemma step_merges (ctx : Ctx2d) (op : Store.Op) (st st' : Store.State) :
  Store.step ctx op st = Some st' -> st' = st \/ merged st st'.
Proof.
  intros Hstep. unfold merged.
  destruct op; cbn [Store.step] in Hstep; try (injection Hstep as <-).
  all: try (store_unfold; split_guards;
            first [left; reflexivity | right; split; reflexivity]).
  - (* eraseAtPoint *)
    destruct (eraseAtPoint_cases x y radius st st' Hstep)
      as (kept & _ & [[_ ->]|[_ ->]]); [right; split; reflexivity|left; reflexivity].
  - (* undo *)
    unfold Store.undo in Hstep. destruct (0 <? Store.historyIndex st)%Z.
    + destruct (JS.index (Store.history st) _); [|discriminate].
      injection Hstep as <-. right; split; reflexivity.
    + injection Hstep as <-. left; reflexivity.
  - (* redo *)
    unfold Store.redo in Hstep.
    destruct (Store.historyIndex st <? JS.len (Store.history st) - 1)%Z.
    + destruct (JS.index (Store.history st) _); [|discriminate].
      injection Hstep as <-. right; split; reflexivity.
    + injection Hstep as <-. left; reflexivity.
Qed.

(** The store never reads [canUndo] or [canRedo] as true: both accessors
    give false in the initial state, and the first merge fixes that value. *)
Lemma reachable_reads_false (ctx : Ctx2d) (st : Store.State) :
  Store.reachable ctx st -> Store.canUndo st = false /\ Store.canRedo st = false.
Proof.
  induction 1 as [|st op st' _ [IHu IHr] Hstep].
  - split; reflexivity.
  - destruct (step_merges ctx op st st' Hstep) as [->|[Hu Hr]]; [split; assumption|].
    unfold Store.canUndo, Store.canRedo. rewrite Hu, Hr. split; assumption.
Qed.

Lemma selectedOnce_reachable : Store.reachable monoCtx selectedOnce.
Proof.
  apply (Store.reach_step monoCtx onePenState (Store.SelectStroke "p" false)); [|reflexivity].
  apply (Store.reach_step monoCtx Store.initialState (Store.AddStroke penAt20));
    [apply Store.reach_init|reflexivity].
Qed.

(** C3, as stated, fails: after drawing one pen stroke and selecting it the
    scene holds the stroke with its [selected] flag set, while the current
    snapshot holds it without the flag. *)
Lemma C3_counterexample :
  Store.reachable monoCtx selectedOnce /\
  ~ (indexInRange selectedOnce /\ sceneIsCurrentSnapshot selectedOnce).
Proof.
  split; [apply selectedOnce_reachable|].
  intros [_ H]. unfold sceneIsCurrentSnapshot in H.
  cbv [selectedOnce onePenState Store.selectStroke Store.addStroke Store.pushHistory
       Store.initialState Store.history Store.historyIndex Store.strokes
       Store.set_strokes Store.set_selectedStrokes Store.set_history
       Store.set_historyIndex Store.set_isModified JS.slice0 JS.index JS.len
       Z.add Z.ltb Z.compare Pos.compare Pos.compare_cont Z.to_nat Pos.to_nat
       Pos.iter_op Nat.add firstn app List.length Z.of_nat Pos.of_succ_nat Pos.succ
       Z.sub Z.opp Z.pos_sub Pos.pred_double nth_error map] in H.
  injection H as H. discriminate H.
Qed.

(** C3, amended.  In every reachable state [0 <= historyIndex <
    history.length], so [history[historyIndex]] is defined.  The scene equals
    [history[historyIndex]] in the initial state and right after every
    action that writes the history (a commit, an undo or redo that moves the
    index, a new or loaded document); every other action (selection, the
    updates of a drag, resize or rotation in progress, text typed into the
    buffer, tool and view changes) leaves history and index as they were,
    whatever it does to the scene. *)
Theorem C3_history_invariant :
  forall (ctx : Ctx2d) (st : Store.State),
    Store.reachable ctx st ->
    indexInRange st
    /\ (exists snapshot, JS.index (Store.history st) (Store.historyIndex st) = Some snapshot)
    /\ sceneIsCurrentSnapshot Store.initialState
    /\ (forall op st',
           Store.step ctx op st = Some st' ->
           (writesHistory op st = true -> sceneIsCurrentSnapshot st') /\
           (writesHistory op st = false -> historyKept st st')).
Proof.
  intros ctx st Hreach.
  pose proof (reachable_indexInRange ctx st Hreach) as Hin.
  split; [exact Hin|]. split; [apply index_in_range; exact Hin|].
  split; [reflexivity|].
  intros op st' Hstep. apply (step_history ctx op st st' Hin Hstep).
Qed.

Lemma C3_witness :
  Store.reachable monoCtx selectedOnce /\ indexInRange selectedOnce.
Proof.
  split; [apply selectedOnce_reachable|].
  exact (proj1 (C3_history_invariant monoCtx selectedOnce selectedOnce_reachable)).
Defined.

(** C2: an action that commits truncates the history to its first
    [historyIndex + 1] snapshots and appends exactly one, the scene it
    leaves, and sets the index to the last position; so the test of
    [canRedo] ([historyIndex < history.length - 1]) fails afterwards, and
    when the commit follows an undo, the snapshots from the undone position
    on are no longer in the history.  In a store reached from the initial
    state the property [canRedo] itself reads false after the commit. *)
Theorem C2_commit_truncates_then_appends :
  forall (ctx : Ctx2d) (op : Store.Op) (st st' : Store.State),
    commits op st = true ->
    Store.step ctx op st = Some st' ->
    Store.history st' =
      JS.slice0 (Store.history st) (Store.historyIndex st + 1) ++ [Store.strokes st']
    /\ Store.historyIndex st' = (JS.len (Store.history st') - 1)%Z
    /\ Store.get_canRedo st' = false
    /\ (indexInRange st ->
        Store.history st' =
          firstn (S (Z.to_nat (Store.historyIndex st))) (Store.history st)
          ++ [Store.strokes st']
        /\ Store.historyIndex st' = (Store.historyIndex st + 1)%Z)
    /\ (forall st0,
           Store.reachable ctx st0 -> Store.get_canUndo st0 = true ->
           Store.undo st0 = Some st ->
           Store.history st' =
             firstn (Z.to_nat (Store.historyIndex st0)) (Store.history st0)
             ++ [Store.strokes st']
           /\ JS.len (Store.history st') = (Store.historyIndex st0 + 1)%Z
           /\ Store.get_canRedo st' = false)
    /\ (Store.reachable ctx st -> Store.canRedo st' = false).
Proof.
  intros ctx op st st' Hc Hstep.
  pose proof (commit_pushes ctx op st st' Hc Hstep) as Hp.
  destruct (pushed_current st st' Hp) as (_ & _ & Hredo).
  destruct Hp as [Hh Hi].
  assert (Hrange : indexInRange st ->
            Store.history st' =
              firstn (S (Z.to_nat (Store.historyIndex st))) (Store.history st)
              ++ [Store.strokes st']
            /\ Store.historyIndex st' = (Store.historyIndex st + 1)%Z).
  { intros [H0 H1]. rewrite slice0_next in Hh by exact H0. split; [exact Hh|].
    rewrite Hi, Hh. unfold JS.len in *. rewrite length_app, length_firstn; cbn [List.length]. lia. }
  split; [exact Hh|]. split; [exact Hi|]. split; [exact Hredo|]. split; [exact Hrange|].
  split.
  2:{ intros Hreach.
      exact (proj2 (reachable_reads_false ctx st'
                      (Store.reach_step ctx st op st' Hreach Hstep))). }
  - intros st0 Hreach Hcan Hundo.
    pose proof (reachable_indexInRange ctx st0 Hreach) as Hin0.
    destruct (undo_cases st0 Hin0) as (st1 & Hu & Hh1 & [(_ & Hi1 & _)|(Hno & _)]);
      [|congruence].
    rewrite Hundo in Hu; injection Hu as <-.
    unfold Store.get_canUndo in Hcan; apply Z.ltb_lt in Hcan.
    rewrite Hh, Hh1, Hi1.
    replace (Store.historyIndex st0 - 1 + 1)%Z with (Store.historyIndex st0) by lia.
    unfold JS.slice0. destruct (Z.ltb_spec (Store.historyIndex st0) 0); [lia|].
    split; [reflexivity|]. split; [|exact Hredo].
    destruct Hin0 as [_ Hlt]. unfold JS.len in *.
    rewrite length_app, length_firstn; cbn [List.length]. lia.
Qed.

Lemma C2_witness :
  commits (Store.AddStroke penAt20) Store.initialState = true /\
  Store.step monoCtx (Store.AddStroke penAt20) Store.initialState = Some onePenState /\
  Store.get_canRedo onePenState = false.
Proof.
  split; [reflexivity|]. split; [reflexivity|].
  exact (proj1 (proj2 (proj2
    (C2_commit_truncates_then_appends monoCtx (Store.AddStroke penAt20)
       Store.initialState onePenState eq_refl eq_refl)))).
Defined.

(** ** Undo and redo *)

Lemma editing_shape (ctx : Ctx2d) (st : Store.State) (n : nat) :
  editing ctx st n ->
  JS.len (Store.history st) = (Z.of_nat n + 1)%Z /\ Store.historyIndex st = Z.of_nat n.
Proof.
  induction 1 as [|st op st' n _ IH Hc Hstep|st op st' n _ IH Hc Hr Hstep].
  - split; reflexivity.
  - destruct IH as [Hl Hi].
    destruct (commit_pushes ctx op st st' Hc Hstep) as [Hh Hi'].
    rewrite slice0_next in Hh by lia.
    assert (Hlen : JS.len (Store.history st') = (Z.of_nat (S n) + 1)%Z).
    { rewrite Hh. unfold JS.len in *. rewrite length_app, length_firstn; cbn [List.length]. lia. }
    split; [exact Hlen|]. rewrite Hi', Hlen. lia.
  - destruct IH as [Hl Hi].
    destruct (no_commit_keeps ctx op st st' Hc Hr Hstep) as [Hh Hi'].
    rewrite Hh, Hi'. split; assumption.
Qed.

(** Right after the [n]-th commit the history has [n + 1] snapshots, the
    index is [n] and the scene is the last snapshot. *)
Lemma committed_shape (ctx : Ctx2d) (st : Store.State) (n : nat) :
  committed ctx st n ->
  JS.len (Store.history st) = (Z.of_nat n + 1)%Z /\ Store.historyIndex st = Z.of_nat n
  /\ sceneIsCurrentSnapshot st.
Proof.
  intros H. destruct H as [|st op st' n He Hc Hstep].
  - repeat split.
  - destruct (editing_shape ctx st' (S n)
                (editing_commit ctx st op st' n He Hc Hstep)) as [Hl Hi].
    split; [exact Hl|]. split; [exact Hi|].
    apply (pushed_current st st' (commit_pushes ctx op st st' Hc Hstep)).
Qed.

Lemma undoN_moves (k : nat) (st : Store.State) :
  indexInRange st -> (Z.of_nat k <= Store.historyIndex st)%Z ->
  exists st1, undoN k st = Some st1 /\ Store.history st1 = Store.history st
              /\ Store.historyIndex st1 = (Store.historyIndex st - Z.of_nat k)%Z.
Proof.
  revert st; induction k as [|k IH]; intros st Hin Hk.
  - exists st; simpl; repeat split; lia.
  - destruct (undo_cases st Hin) as (st' & Hu & Hh & [(_ & Hi & _)|(Hno & _)]).
    + destruct (IH st') as (st1 & H1 & H2 & H3).
      * unfold indexInRange in *; rewrite Hh, Hi; lia.
      * rewrite Hi; lia.
      * exists st1. simpl; rewrite Hu. split; [exact H1|].
        split; [congruence|]. rewrite H3, Hi; lia.
    + unfold Store.get_canUndo in Hno. apply Z.ltb_ge in Hno. lia.
Qed.

Lemma redoN_moves (k : nat) (st : Store.State) :
  indexInRange st ->
  (Store.historyIndex st + Z.of_nat k <= JS.len (Store.history st) - 1)%Z ->
  exists st2, redoN k st = Some st2 /\ Store.history st2 = Store.history st
              /\ Store.historyIndex st2 = (Store.historyIndex st + Z.of_nat k)%Z
              /\ (k <> O -> sceneIsCurrentSnapshot st2)
              /\ (k = O -> st2 = st).
Proof.
  revert st; induction k as [|k IH]; intros st Hin Hk.
  - exists st; simpl; repeat split; try lia; congruence.
  - destruct (redo_cases st Hin) as (st' & Hu & Hh & [(_ & Hi & Hs)|(Hno & _)]).
    + destruct (IH st') as (st2 & H1 & H2 & H3 & H4 & H5).
      * unfold indexInRange in *; rewrite Hh, Hi; lia.
      * rewrite Hh, Hi; lia.
      * exists st2. simpl; rewrite Hu. split; [exact H1|].
        split; [congruence|]. split; [rewrite H3, Hi; lia|].
        split; [|discriminate]. intros _.
        destruct k as [|k']; [rewrite (H5 eq_refl); exact Hs|apply H4; discriminate].
    + unfold Store.get_canRedo in Hno. apply Z.ltb_ge in Hno. lia.
Qed.

(** C1: after [N] commits from the initial state (with whatever selection
    and gesture steps lie between them), [k <= N] undos followed by [k]
    redos all succeed and give back the scene, and with it the history and
    the index, that were current before the undos. *)
Theorem C1_undo_redo_round_trip :
  forall (ctx : Ctx2d) (st : Store.State) (N k : nat),
    committed ctx st N ->
    (k <= N)%nat ->
    exists st1 st2,
      undoN k st = Some st1 /\ redoN k st1 = Some st2 /\
      Store.strokes st2 = Store.strokes st /\
      Store.history st2 = Store.history st /\
      Store.historyIndex st2 = Store.historyIndex st.
Proof.
  intros ctx st N k Hc Hk.
  destruct (committed_shape ctx st N Hc) as (Hl & Hi & Hs).
  assert (Hin : indexInRange st) by (unfold indexInRange; lia).
  destruct (undoN_moves k st Hin) as (st1 & Hu & Hh1 & Hi1); [lia|].
  assert (Hin1 : indexInRange st1) by (unfold indexInRange in *; rewrite Hh1, Hi1; lia).
  destruct (redoN_moves k st1 Hin1) as (st2 & Hr & Hh2 & Hi2 & Hcur & Hsame);
    [rewrite Hh1, Hi1; lia|].
  exists st1, st2. split; [exact Hu|]. split; [exact Hr|].
  assert (Hidx : Store.historyIndex st2 = Store.historyIndex st) by (rewrite Hi2, Hi1; lia).
  split; [|split; [congruence|exact Hidx]].
  destruct k as [|k'].
  - rewrite (Hsame eq_refl). simpl in Hu. congruence.
  - specialize (Hcur ltac:(discriminate)). unfold sceneIsCurrentSnapshot in *.
    rewrite Hh2, Hh1, Hidx, Hs in Hcur. congruence.
Qed.

Lemma onePenState_committed : committed monoCtx onePenState 1.
Proof.
  apply (committed_next monoCtx Store.initialState (Store.AddStroke penAt20));
    [apply editing_init|reflexivity|reflexivity].
Qed.

Lemma C1_witness :
  committed monoCtx onePenState 1 /\ (1 <= 1)%nat /\
  exists st1 st2,
    undoN 1 onePenState = Some st1 /\ redoN 1 st1 = Some st2 /\
    Store.strokes st2 = Store.strokes onePenState /\
    Store.history st2 = Store.history onePenState /\
    Store.historyIndex st2 = Store.historyIndex onePenState.
Proof.
  split; [apply onePenState_committed|]. split; [apply le_n|].
  exact (C1_undo_redo_round_trip monoCtx onePenState 1 1 onePenState_committed (le_n 1)).
Defined.

(** ** Erasing *)

Lemma eraseKeeps_retained (x y radius : R) (s : Stroke) :
  (Stroke.type s = Tool.text -> Stroke.points s <> []) ->
  Store.eraseKeeps x y radius s = Some (retained x y radius s).
Proof.
  intros Hanchor. unfold Store.eraseKeeps, retained, HitDetector.distance, HitDetector.inBox.
  destruct (Stroke.type s) eqn:Ht; simpl; try reflexivity.
  - destruct (Stroke.startPoint s), (Stroke.endPoint s); reflexivity.
  - destruct (Stroke.startPoint s), (Stroke.endPoint s); reflexivity.
  - destruct (Stroke.startPoint s), (Stroke.endPoint s); reflexivity.
  - destruct (Stroke.points s); [elim (Hanchor eq_refl); reflexivity|reflexivity].
Qed.

Lemma filterThrow_filter (A : Type) (f : A -> option bool) (g : A -> bool) (l : list A) :
  (forall a, In a l -> f a = Some (g a)) -> Store.filterThrow f l = Some (filter g l).
Proof.
  induction l as [|a l IH]; intros H; simpl; [reflexivity|].
  rewrite (H a (or_introl eq_refl)), IH by (intros b Hb; apply H; right; exact Hb).
  reflexivity.
Qed.

Lemma filter_keeps_all (A : Type) (g : A -> bool) (l : list A) :
  (forall a, In a l -> g a = true) -> filter g l = l.
Proof.
  induction l as [|a l IH]; intros H; simpl; [reflexivity|].
  rewrite (H a (or_introl eq_refl)), IH by (intros b Hb; apply H; right; exact Hb).
  reflexivity.
Qed.

Lemma filter_drops_some (A : Type) (g : A -> bool) (l : list A) :
  (exists a, In a l /\ g a = false) -> (List.length (filter g l) < List.length l)%nat.
Proof.
  induction l as [|a l IH]; intros (b & Hb & Hg); simpl in *; [contradiction|].
  pose proof (filter_length_le g l) as Hle.
  destruct Hb as [->|Hb].
  - rewrite Hg. lia.
  - destruct (g a); simpl; [|lia].
    apply -> Nat.succ_lt_mono. apply IH. exists b; split; assumption.
Qed.

Lemma all_or_some (A : Type) (g : A -> bool) (l : list A) :
  (forall a, In a l -> g a = true) \/ (exists a, In a l /\ g a = false).
Proof.
  destruct (forallb g l) eqn:E.
  - left. apply forallb_forall. exact E.
  - right. induction l as [|a l IH]; simpl in E; [discriminate|].
    destruct (g a) eqn:Ea.
    + destruct (IH E) as (b & Hb & Hg). exists b; split; [right; exact Hb|exact Hg].
    + exists a; split; [left; reflexivity|exact Ea].
Qed.

(** X29: in a reachable state whose text strokes have their anchor,
    [eraseAtPoint] returns; the strokes it removes are exactly those that
    fail the retention test of their type (text: anchor further than
    [radius] from the point; shapes: the point outside the diagonal's
    min/max box widened by [radius]; pen: no sample point within [radius]);
    it pushes exactly one snapshot, the index going up by one, exactly when
    some stroke is removed, and changes nothing at all when none is. *)
Theorem X29_eraseAtPoint_on_anchored_scenes :
  forall (ctx : Ctx2d) (st : Store.State) (x y radius : R),
    Store.reachable ctx st ->
    (forall s, In s (Store.strokes st) -> Stroke.type s = Tool.text -> Stroke.points s <> []) ->
    exists st',
      Store.eraseAtPoint x y radius st = Some st'
      /\ Store.strokes st' = filter (retained x y radius) (Store.strokes st)
      /\ (forall s, In s (Store.strokes st) ->
                    (In s (Store.strokes st') <-> retained x y radius s = true))
      /\ ((exists s, In s (Store.strokes st) /\ retained x y radius s = false) ->
          Store.history st' =
            firstn (S (Z.to_nat (Store.historyIndex st))) (Store.history st)
            ++ [Store.strokes st']
          /\ Store.historyIndex st' = (Store.historyIndex st + 1)%Z)
      /\ ((forall s, In s (Store.strokes st) -> retained x y radius s = true) -> st' = st)
      /\ (Store.historyIndex st' = (Store.historyIndex st + 1)%Z <->
          exists s, In s (Store.strokes st) /\ retained x y radius s = false).
Proof.
  intros ctx st x y radius Hreach Hanchor.
  pose proof (reachable_indexInRange ctx st Hreach) as Hin.
  assert (Hf : Store.filterThrow (Store.eraseKeeps x y radius) (Store.strokes st)
               = Some (filter (retained x y radius) (Store.strokes st))).
  { apply filterThrow_filter. intros s Hs. apply eraseKeeps_retained. apply Hanchor, Hs. }
  assert (Hmem : forall st', Store.strokes st' = filter (retained x y radius) (Store.strokes st) ->
            forall s, In s (Store.strokes st) ->
                      (In s (Store.strokes st') <-> retained x y radius s = true)).
  { intros st' E s Hs. rewrite E, filter_In. tauto. }
  unfold Store.eraseAtPoint. rewrite Hf.
  destruct (all_or_some _ (retained x y radius) (Store.strokes st)) as [Hall|Hsome].
  - rewrite (filter_keeps_all _ _ _ Hall) in *. rewrite Nat.eqb_refl; simpl.
    exists st. split; [reflexivity|]. split; [reflexivity|].
    split; [apply Hmem; reflexivity|].
    split; [intros (s & Hs & Hr); rewrite (Hall s Hs) in Hr; discriminate|].
    split; [reflexivity|].
    split; [lia|]. intros (s & Hs & Hr); rewrite (Hall s Hs) in Hr; discriminate.
  - pose proof (filter_drops_some _ _ _ Hsome) as Hlt.
    destruct (Nat.eqb_spec (List.length (filter (retained x y radius) (Store.strokes st)))
                           (List.length (Store.strokes st))) as [E|_]; [lia|]. simpl.
    eexists. split; [reflexivity|]. split; [reflexivity|].
    split; [apply Hmem; reflexivity|].
    assert (Hpush : Store.history
                      (Store.set_strokes (filter (retained x y radius) (Store.strokes st))
                         (Store.pushHistory (filter (retained x y radius) (Store.strokes st)) st))
                    = firstn (S (Z.to_nat (Store.historyIndex st))) (Store.history st)
                      ++ [filter (retained x y radius) (Store.strokes st)]
                    /\ Store.historyIndex
                         (Store.set_strokes (filter (retained x y radius) (Store.strokes st))
                            (Store.pushHistory (filter (retained x y radius) (Store.strokes st)) st))
                       = (Store.historyIndex st + 1)%Z).
    { destruct Hin as [H0 H1].
      cbn [Store.history Store.historyIndex Store.set_strokes Store.pushHistory
           Store.set_isModified Store.set_historyIndex Store.set_history].
      rewrite slice0_next by exact H0. split; [reflexivity|].
      unfold JS.len in *. rewrite length_app, length_firstn; cbn [List.length]. lia. }
    split; [intros _; exact Hpush|].
    split.
    + intros Hall. destruct Hsome as (s & Hs & Hr). rewrite (Hall s Hs) in Hr; discriminate.
    + split; [intros _; exact Hsome|intros _; apply Hpush].
Qed.

Lemma onePenState_reachable : Store.reachable monoCtx onePenState.
Proof.
  apply (Store.reach_step monoCtx Store.initialState (Store.AddStroke penAt20));
    [apply Store.reach_init|reflexivity].
Qed.

Lemma onePenState_anchored :
  forall s, In s (Store.strokes onePenState) -> Stroke.type s = Tool.text -> Stroke.points s <> [].
Proof. intros s [<-|[]]; simpl; discriminate. Qed.

(** The eraser scenario: a pen stroke with a point at (20,20), erased at
    (20,20) with radius 10, is removed and the history is pushed once. *)
Lemma X29_witness :
  Store.reachable monoCtx onePenState /\
  (forall s, In s (Store.strokes onePenState) ->
             Stroke.type s = Tool.text -> Stroke.points s <> []) /\
  exists st',
    Store.eraseAtPoint 20 20 10 onePenState = Some st' /\
    Store.strokes st' = [] /\
    Store.history st' = [[]; [penAt20]; []] /\
    Store.historyIndex st' = 2%Z.
Proof.
  split; [apply onePenState_reachable|]. split; [apply onePenState_anchored|].
  assert (Hgone : retained 20 20 10 penAt20 = false).
  { unfold retained, HitDetector.distance; simpl.
    replace ((20 - 20) * ((20 - 20) * 1) + (20 - 20) * ((20 - 20) * 1)) with 0 by lra.
    rewrite sqrt_0. unfold JS.leb. destruct (Rle_dec 0 10); [reflexivity|lra]. }
  destruct (X29_eraseAtPoint_on_anchored_scenes monoCtx onePenState 20 20 10
              onePenState_reachable onePenState_anchored)
    as (st' & H1 & H2 & _ & H4 & _).
  exists st'. split; [exact H1|].
  assert (Hs : Store.strokes st' = []).
  { rewrite H2. change (Store.strokes onePenState) with [penAt20].
    cbn [filter]. rewrite Hgone. reflexivity. }
  split; [exact Hs|].
  destruct H4 as [Hh Hi].
  - exists penAt20. split; [left; reflexivity|exact Hgone].
  - rewrite Hh, Hi, Hs. split; reflexivity.
Defined.

Lemma anchorlessState_reachable : Store.reachable monoCtx anchorlessState.
Proof.
  apply (Store.reach_step monoCtx Store.initialState (Store.AddStroke anchorlessText));
    [apply Store.reach_init|reflexivity].
Qed.

Lemma filterThrow_throws (f : Stroke -> option bool) (scene : list Stroke) (s : Stroke) :
  In s scene -> f s = None -> Store.filterThrow f scene = None.
Proof.
  induction scene as [|a scene IH]; intros Hin Hf; [contradiction|].
  cbn [Store.filterThrow]. destruct Hin as [->|Hin].
  - rewrite Hf. reflexivity.
  - destruct (f a); [|reflexivity]. rewrite (IH Hin Hf). reflexivity.
Qed.

(** C7 (a defect of the code): whenever the scene holds a text stroke with
    an empty [points] array, [eraseAtPoint] throws at [stroke.points[0].x],
    for every point and radius: no stroke is removed, also none that fails
    its retention test, and the store stays as it was.  The branch for
    shapes beside it guards the missing diagonal and keeps such a stroke. *)
Theorem C7_eraseAtPoint_throws :
  forall (st : Store.State) (x y radius : R) (s : Stroke),
    In s (Store.strokes st) -> Stroke.type s = Tool.text -> Stroke.points s = [] ->
    Store.eraseAtPoint x y radius st = None
    /\ (forall shape,
          isShapeType (Stroke.type shape) = true -> Stroke.startPoint shape = None ->
          Store.eraseKeeps x y radius shape = Some true).
Proof.
  intros st x y radius s Hin Hty Hpts. split.
  - unfold Store.eraseAtPoint.
    rewrite (filterThrow_throws (Store.eraseKeeps x y radius) (Store.strokes st) s Hin);
      [reflexivity|].
    unfold Store.eraseKeeps. rewrite Hty, Hpts. reflexivity.
  - intros shape Hshape Hstart. unfold Store.eraseKeeps.
    rewrite (shape_not_text shape Hshape), Hstart.
    unfold isShapeType in Hshape. rewrite Hshape. reflexivity.
Qed.

(** The failing input: the store after [addStroke] of a text stroke without
    an anchor, erased at (0,0) with radius 5. *)
Lemma C7_witness :
  Store.reachable monoCtx anchorlessState
  /\ Store.eraseAtPoint 0 0 5 anchorlessState = None.
Proof.
  split; [apply anchorlessState_reachable|].
  exact (proj1 (C7_eraseAtPoint_throws anchorlessState 0 0 5 anchorlessText
                  (or_introl eq_refl) eq_refl eq_refl)).
Defined.

(** ** Selection *)

Lemma includes_In (ids : list string) (id : string) :
  JS.includes ids id = true <-> In id ids.
Proof.
  unfold JS.includes. rewrite existsb_exists. split.
  - intros (x & Hx & E). apply String.eqb_eq in E. subst; exact Hx.
  - intros H. exists id. split; [exact H|apply String.eqb_refl].
Qed.

Lemma flags_after_map (ids : list string) (scene : list Stroke) (s : Stroke) :
  In s (map (fun stroke => Stroke.withSelected (JS.includes ids (Stroke.id stroke)) stroke) scene) ->
  Stroke.isSelected s = JS.includes ids (Stroke.id s).
Proof.
  rewrite in_map_iff. intros (s0 & <- & _). reflexivity.
Qed.

Lemma selectMultiple_flags (ids : list string) (st : Store.State) :
  flagsFollowSelection (Store.selectMultiple ids st).
Proof. intros s Hs. apply (flags_after_map ids (Store.strokes st) s Hs). Qed.

Lemma selectStroke_flags (id : string) (add : bool) (st : Store.State) :
  flagsFollowSelection (Store.selectStroke id add st).
Proof. intros s Hs. apply (flags_after_map _ (Store.strokes st) s Hs). Qed.

Lemma clearSelection_flags (st : Store.State) :
  flagsFollowSelection (Store.clearSelection st).
Proof.
  intros s Hs. unfold Store.clearSelection in Hs; simpl in Hs.
  apply in_map_iff in Hs. destruct Hs as (s0 & <- & _). reflexivity.
Qed.

Lemma flaggedIds_In (st : Store.State) (id : string) :
  In id (flaggedIds st) <->
  exists s, In s (Store.strokes st) /\ Stroke.isSelected s = true /\ Stroke.id s = id.
Proof.
  unfold flaggedIds. rewrite in_map_iff. split.
  - intros (s & E & Hs). apply filter_In in Hs. exists s; tauto.
  - intros (s & Hs & Hf & E). exists s. split; [exact E|]. apply filter_In; tauto.
Qed.

(** When the flags follow the selection array, the flagged ids are the
    selected ids that name a stroke of the scene. *)
Lemma flags_give_intersection (st : Store.State) (id : string) :
  flagsFollowSelection st ->
  (In id (flaggedIds st) <-> In id (Store.selectedStrokes st) /\ In id (sceneIds st)).
Proof.
  intros Hf. rewrite flaggedIds_In. unfold sceneIds. rewrite in_map_iff. split.
  - intros (s & Hs & Hsel & E). rewrite (Hf s Hs), includes_In, E in Hsel.
    split; [exact Hsel|]. exists s; split; assumption.
  - intros (Hsel & s & E & Hs). exists s. split; [exact Hs|]. split; [|exact E].
    rewrite (Hf s Hs), includes_In, E. exact Hsel.
Qed.

Lemma flags_give_mirror (st : Store.State) :
  flagsFollowSelection st ->
  (forall id, In id (Store.selectedStrokes st) -> In id (sceneIds st)) ->
  selectionMirrored st.
Proof.
  intros Hf Hin id. rewrite (flags_give_intersection st id Hf). split; [tauto|].
  intros H; split; [exact H|apply Hin; exact H].
Qed.

Lemma sceneIds_flagged (ids : list string) (scene : list Stroke) :
  map Stroke.id
      (map (fun stroke => Stroke.withSelected (JS.includes ids (Stroke.id stroke)) stroke) scene)
  = map Stroke.id scene.
Proof. rewrite map_map. apply map_ext. reflexivity. Qed.

Lemma marqueeIds_in_scene (ctx : Ctx2d) (box : SelectionBox) (scene : list Stroke) (id : string) :
  In id (Store.marqueeIds ctx box scene) -> In id (map Stroke.id scene).
Proof.
  unfold Store.marqueeIds. rewrite !in_map_iff.
  intros (s & E & Hs). apply filter_In in Hs. exists s; tauto.
Qed.

(** Filtering a scene with distinct ids leaves distinct ids. *)
Lemma filtered_ids_distinct (keep : Stroke -> bool) (scene : list Stroke) :
  NoDup (map Stroke.id scene) -> NoDup (map Stroke.id (filter keep scene)).
Proof.
  intros Hdistinct. induction scene as [|s scene IH]; cbn [filter map] in *.
  - exact Hdistinct.
  - apply NoDup_cons_iff in Hdistinct. destruct Hdistinct as [Hfresh Hrest].
    destruct (keep s); cbn [map]; [|exact (IH Hrest)].
    apply NoDup_cons_iff. split; [|exact (IH Hrest)].
    intros Hin. apply Hfresh.
    apply in_map_iff in Hin. destruct Hin as (s' & Eid & Hs').
    apply in_map_iff. exists s'. split; [exact Eid|].
    apply filter_In in Hs'. exact (proj1 Hs').
Qed.

Lemma selectedTwice_reachable : Store.reachable monoCtx selectedTwice.
Proof.
  apply (Store.reach_step monoCtx selectedOnce (Store.SelectStroke "p" true));
    [apply selectedOnce_reachable|reflexivity].
Qed.

(** C9, as stated, fails: selecting with [addToSelection] a stroke that is
    already selected puts its id into [selectedStrokes] a second time. *)
Lemma C9_counterexample :
  Store.reachable monoCtx selectedTwice /\
  Store.selectedStrokes selectedTwice = ["p"%string; "p"%string] /\
  ~ (selectionMirrored selectedTwice /\ NoDup (Store.selectedStrokes selectedTwice)).
Proof.
  split; [apply selectedTwice_reachable|]. split; [reflexivity|].
  intros [_ Hnd].
  change (Store.selectedStrokes selectedTwice) with ["p"%string; "p"%string] in Hnd.
  apply NoDup_cons_iff in Hnd. destruct Hnd as [Hfresh _].
  apply Hfresh. left; reflexivity.
Qed.

(** C9, amended.  After [selectStroke], [selectMultiple], [clearSelection]
    and a [finishSelection] with an active marquee, every stroke's
    [selected] flag is true exactly when its id is in [selectedStrokes]; so
    the flagged ids are the selected ids that name a stroke of the scene, and
    the two sets are equal whenever every selected id names one (always so
    after [clearSelection] and [finishSelection]).  [deleteSelected] empties
    [selectedStrokes] and leaves the flags of the surviving strokes as they
    were, so the sets are equal after it when the flags followed the
    selection before it.  [selectedStrokes] has no duplicates after
    [selectStroke] without [addToSelection], [clearSelection] and
    [deleteSelected]; after [selectStroke] with [addToSelection] when it had
    none and the id was not yet in it; after [selectMultiple] when the ids
    given have none; after [finishSelection] when the scene's ids have none. *)
Theorem C9_selection_mirror :
  forall (ctx : Ctx2d) (st : Store.State),
    (forall id add, flagsFollowSelection (Store.selectStroke id add st))
    /\ (forall ids, flagsFollowSelection (Store.selectMultiple ids st))
    /\ flagsFollowSelection (Store.clearSelection st)
    /\ selectionMirrored (Store.clearSelection st)
    /\ (forall box, Store.selectionBox st = Some box ->
                    flagsFollowSelection (Store.finishSelection ctx st) /\
                    selectionMirrored (Store.finishSelection ctx st))
    /\ (forall id add,
           In id (sceneIds st) ->
           (add = true -> forall i, In i (Store.selectedStrokes st) -> In i (sceneIds st)) ->
           selectionMirrored (Store.selectStroke id add st))
    /\ (forall ids,
           (forall i, In i ids -> In i (sceneIds st)) ->
           selectionMirrored (Store.selectMultiple ids st))
    /\ Store.selectedStrokes (Store.deleteSelected st) = []
    /\ (flagsFollowSelection st -> selectionMirrored (Store.deleteSelected st))
    /\ (forall id, NoDup (Store.selectedStrokes (Store.selectStroke id false st)))
    /\ (forall id,
           NoDup (Store.selectedStrokes st) -> ~ In id (Store.selectedStrokes st) ->
           NoDup (Store.selectedStrokes (Store.selectStroke id true st)))
    /\ (forall ids, NoDup ids -> NoDup (Store.selectedStrokes (Store.selectMultiple ids st)))
    /\ NoDup (Store.selectedStrokes (Store.clearSelection st))
    /\ NoDup (Store.selectedStrokes (Store.deleteSelected st))
    /\ (forall box, Store.selectionBox st = Some box -> NoDup (sceneIds st) ->
                    NoDup (Store.selectedStrokes (Store.finishSelection ctx st))).
Proof.
  intros ctx st.
  split; [intros id add; apply selectStroke_flags|].
  split; [intros ids; apply selectMultiple_flags|].
  split; [apply clearSelection_flags|].
  split; [apply flags_give_mirror; [apply clearSelection_flags|intros id []]|].
  split.
  { intros box Hbox.
    assert (Hf : flagsFollowSelection (Store.finishSelection ctx st)).
    { unfold Store.finishSelection. rewrite Hbox. intros s Hs.
      apply (flags_after_map _ (Store.strokes st) s Hs). }
    split; [exact Hf|]. apply flags_give_mirror; [exact Hf|].
    intros id Hid. rewrite (finishSelection_selected ctx st box Hbox) in Hid.
    unfold sceneIds, Store.finishSelection. rewrite Hbox.
    cbn [Store.strokes Store.selectMultiple Store.set_selectedStrokes Store.set_strokes
         Store.set_isSelecting Store.set_selectionBox].
    rewrite sceneIds_flagged. apply (marqueeIds_in_scene ctx box _ id Hid). }
  split.
  { intros id add Hid Hsel. apply flags_give_mirror; [apply selectStroke_flags|].
    intros i Hi. unfold sceneIds, Store.selectStroke in *.
    cbn [Store.strokes Store.selectedStrokes Store.set_selectedStrokes Store.set_strokes] in *.
    rewrite sceneIds_flagged.
    destruct add.
    - apply in_app_or in Hi. destruct Hi as [Hi|[<-|[]]]; [apply Hsel; auto|exact Hid].
    - destruct Hi as [<-|[]]. exact Hid. }
  split.
  { intros ids Hids. apply flags_give_mirror; [apply selectMultiple_flags|].
    intros i Hi. unfold sceneIds, Store.selectMultiple in *.
    cbn [Store.strokes Store.selectedStrokes Store.set_selectedStrokes Store.set_strokes] in *.
    rewrite sceneIds_flagged. apply Hids, Hi. }
  split; [reflexivity|].
  split.
  { intros Hf. apply flags_give_mirror; [|intros id []].
    intros s Hs. unfold Store.deleteSelected in Hs |- *.
    cbn [Store.strokes Store.selectedStrokes Store.set_selectedStrokes Store.set_strokes
         Store.pushHistory Store.set_isModified Store.set_historyIndex Store.set_history]
      in Hs |- *.
    apply filter_In in Hs. destruct Hs as [Hs Hnot].
    rewrite (Hf s Hs). apply negb_true_iff in Hnot. rewrite Hnot. reflexivity. }
  split; [intros id; repeat constructor; intros []|].
  split.
  { intros id Hnd Hnot. unfold Store.selectStroke.
    cbn [Store.selectedStrokes Store.set_selectedStrokes Store.set_strokes].
    apply NoDup_app; [exact Hnd|repeat constructor; intros []|].
    intros a Ha [<-|[]]. exact (Hnot Ha). }
  split; [intros ids Hnd; exact Hnd|].
  split; [constructor|].
  split; [constructor|].
  intros box Hbox Hnd. rewrite (finishSelection_selected ctx st box Hbox).
  unfold Store.marqueeIds. apply filtered_ids_distinct. exact Hnd.
Qed.

Lemma C9_witness :
  In "p"%string (sceneIds onePenState) /\
  selectionMirrored (Store.selectStroke "p" false onePenState).
Proof.
  assert (Hin : In "p"%string (sceneIds onePenState)) by (left; reflexivity).
  split; [exact Hin|].
  refine (proj1 (proj2 (proj2 (proj2 (proj2 (proj2
            (C9_selection_mirror monoCtx onePenState))))))
            "p"%string false Hin _).
  intros E; discriminate E.
Defined.

(** * Further properties of the code *)

(** ** A tactic for nested comparisons and the trigonometric identity *)

Ltac decide_innermost :=
  repeat match goal with
         | |- context [Rle_dec ?a ?b] =>
             lazymatch a with
             | context [Rle_dec _ _] => fail
             | _ => lazymatch b with
                    | context [Rle_dec _ _] => fail
                    | _ => destruct (Rle_dec a b)
                    end
             end
         end.

Lemma trig_unit (angle : R) : sin angle * sin angle + cos angle * cos angle = 1.
Proof. pose proof (sin2_cos2 angle) as H. unfold Rsqr in H. exact H. Qed.

(** ** Well-ordered bounds *)

Lemma maxFrom_ge (d : R) (l : list R) : d <= StrokeUtils.maxFrom d l.
Proof.
  unfold StrokeUtils.maxFrom. revert d; induction l as [|a l IH]; intros d; cbn.
  - apply Rle_refl.
  - eapply Rle_trans; [apply (Rmax_l d a)|apply IH].
Qed.

Lemma boxOf_ordered (p : Point) (ps : list Point) :
  Bounds.minX (StrokeUtils.boxOf p ps) <= Bounds.maxX (StrokeUtils.boxOf p ps) /\
  Bounds.minY (StrokeUtils.boxOf p ps) <= Bounds.maxY (StrokeUtils.boxOf p ps).
Proof.
  destruct (boxOf_encloses p ps p (or_introl eq_refl)) as [[H1 H2] [H3 H4]].
  split; lra.
Qed.

Lemma padded_ordered (b : Bounds) (pad : R) :
  0 <= pad ->
  Bounds.minX b <= Bounds.maxX b /\ Bounds.minY b <= Bounds.maxY b ->
  Bounds.minX b - pad <= Bounds.maxX b + pad /\ Bounds.minY b - pad <= Bounds.maxY b + pad.
Proof. intros Hp [H1 H2]; split; lra. Qed.

(** X5: the box [calculateBounds] returns is never inside out: [minX <=
    maxX] and [minY <= maxY], for every stroke whose font size, if it is a
    text stroke, is not negative. *)
Theorem X5_bounds_ordered :
  forall (ctx : Ctx2d) (s : Stroke),
    (Stroke.type s = Tool.text -> 0 <= JS.orNum (Stroke.fontSize s) 16) ->
    Bounds.minX (StrokeUtils.calculateBounds ctx s) <= Bounds.maxX (StrokeUtils.calculateBounds ctx s)
    /\
    Bounds.minY (StrokeUtils.calculateBounds ctx s) <= Bounds.maxY (StrokeUtils.calculateBounds ctx s).
Proof.
  intros ctx s Hfont. unfold StrokeUtils.calculateBounds.
  assert (Hrest :
    let b :=
      match Stroke.startPoint s, Stroke.endPoint s with
      | Some sp, Some ep =>
          if JS.truthyNum (JS.orNum (Stroke.rotation s) 0)
          then StrokeUtils.rotatedCornerBox
                 (Rmin (Point.x sp) (Point.x ep)) (Rmin (Point.y sp) (Point.y ep))
                 (Rmax (Point.x sp) (Point.x ep)) (Rmax (Point.y sp) (Point.y ep))
                 ((Rmin (Point.x sp) (Point.x ep) + Rmax (Point.x sp) (Point.x ep)) / 2)
                 ((Rmin (Point.y sp) (Point.y ep) + Rmax (Point.y sp) (Point.y ep)) / 2)
                 (JS.orNum (Stroke.rotation s) 0)
          else Bounds.mk (Rmin (Point.x sp) (Point.x ep)) (Rmin (Point.y sp) (Point.y ep))
                         (Rmax (Point.x sp) (Point.x ep)) (Rmax (Point.y sp) (Point.y ep))
      | _, _ =>
          match Stroke.points s with
          | p :: ps =>
              if JS.truthyNum (JS.orNum (Stroke.rotation s) 0)
              then
                StrokeUtils.boxOf
                  (rotatePoint (Point.x p) (Point.y p)
                     ((Bounds.minX (StrokeUtils.boxOf p ps) + Bounds.maxX (StrokeUtils.boxOf p ps)) / 2)
                     ((Bounds.minY (StrokeUtils.boxOf p ps) + Bounds.maxY (StrokeUtils.boxOf p ps)) / 2)
                     (JS.orNum (Stroke.rotation s) 0))
                  (map (fun q : Point =>
                          rotatePoint (Point.x q) (Point.y q)
                            ((Bounds.minX (StrokeUtils.boxOf p ps) + Bounds.maxX (StrokeUtils.boxOf p ps)) / 2)
                            ((Bounds.minY (StrokeUtils.boxOf p ps) + Bounds.maxY (StrokeUtils.boxOf p ps)) / 2)
                            (JS.orNum (Stroke.rotation s) 0)) ps)
              else StrokeUtils.boxOf p ps
          | [] => Bounds.mk 0 0 0 0
          end
      end in
    Bounds.minX b <= Bounds.maxX b /\ Bounds.minY b <= Bounds.maxY b).
  { cbv zeta.
    destruct (Stroke.startPoint s) as [sp|], (Stroke.endPoint s) as [ep|].
    1: { destruct (JS.truthyNum _); [apply boxOf_ordered|].
         cbn. split; [apply Rle_trans with (Point.x sp); [apply Rmin_l|apply Rmax_l]
                     |apply Rle_trans with (Point.y sp); [apply Rmin_l|apply Rmax_l]]. }
    all: destruct (Stroke.points s) as [|p ps]; [cbn; lra|];
      destruct (JS.truthyNum _); apply boxOf_ordered. }
  destruct (Tool.eqb (Stroke.type s) Tool.text) eqn:Et; [|exact Hrest].
  destruct (Stroke.points s) as [|point rest] eqn:Hp; [exact Hrest|].
  assert (Hty : Stroke.type s = Tool.text) by (destruct (Stroke.type s); simpl in Et; congruence).
  specialize (Hfont Hty).
  assert (Hlh : 0 <= JS.orNum (Stroke.fontSize s) 16 * (12 / 10)) by lra.
  destruct ctx as [measureText|].
  - destruct (JS.truthyNum _).
    + apply (padded_ordered _ 2); [lra|apply boxOf_ordered].
    + cbn.
      pose proof (maxFrom_ge 20
        (map (measureText (JS.orNum (Stroke.fontSize s) 16))
             (JS.splitLines (JS.orStr (Stroke.text s))))) as Hw.
      pose proof (Rmax_l (JS.orNum (Stroke.fontSize s) 16 * (12 / 10))
        (JS.orNum (Stroke.fontSize s) 16 * (12 / 10)
         * INR (List.length (JS.splitLines (JS.orStr (Stroke.text s)))))) as Hh.
      split; lra.
  - cbn.
    pose proof (Rmax_l 20
      (INR (String.length (JS.orStr (Stroke.text s))) * JS.orNum (Stroke.fontSize s) 16 * (6 / 10)))
      as Hw.
    split; lra.
Qed.

Lemma X5_witness :
  (Stroke.type textOutside = Tool.text -> 0 <= JS.orNum (Stroke.fontSize textOutside) 16) /\
  Bounds.minX (StrokeUtils.calculateBounds monoCtx textOutside)
  <= Bounds.maxX (StrokeUtils.calculateBounds monoCtx textOutside).
Proof.
  assert (H : Stroke.type textOutside = Tool.text ->
              0 <= JS.orNum (Stroke.fontSize textOutside) 16).
  { intros _. unfold textOutside, StrokeUtils.createTextStroke, JS.orNum, JS.truthyNum.
    cbn [Stroke.fontSize].
    destruct (Req_dec_T (Rmax 16 (4 * 4)) 0); [lra|].
    eapply Rle_trans; [|apply Rmax_l]. lra. }
  split; [exact H|]. exact (proj1 (X5_bounds_ordered monoCtx textOutside H)).
Defined.

(** ** The pivot *)

Lemma min_plus_max (a b : R) : Rmin a b + Rmax a b = a + b.
Proof. unfold Rmin, Rmax. destruct (Rle_dec a b); lra. Qed.

Lemma splitLines_length (text : string) : (1 <= List.length (JS.splitLines text))%nat.
Proof.
  induction text as [|c rest IH]; cbn; [lia|].
  destruct (Ascii.eqb c JS.newline); cbn; [lia|].
  destruct (JS.splitLines rest); cbn in *; lia.
Qed.

(** X7: the point the renderer rotates a stroke about ([getStrokeCenter])
    and the origin of the frame in which the hit detector looks for the
    resize and rotate handles are computed alike: their x coordinates agree
    for every stroke, and both coordinates agree for every stroke that is
    not a text stroke with an anchor (for those the two places multiply the
    line height in a different order).  For a stroke with both diagonal
    points that is not such a text the pivot is the midpoint of the
    diagonal; for a rotated pen stroke it is the point about which
    [calculateBounds] turns the samples. *)
Theorem X7_renderer_and_hit_detector_share_pivot :
  forall (measureText : R -> string -> R) (s : Stroke),
    fst (fst (fst (HitDetector.frameOf (Some measureText) s)))
    = fst (CanvasRenderer.getStrokeCenter measureText s)
    /\
    (Tool.eqb (Stroke.type s) Tool.text = false \/ Stroke.points s = [] ->
     fst (fst (HitDetector.frameOf (Some measureText) s))
     = CanvasRenderer.getStrokeCenter measureText s)
    /\
    (forall sp ep,
        Tool.eqb (Stroke.type s) Tool.text = false \/ Stroke.points s = [] ->
        Stroke.startPoint s = Some sp -> Stroke.endPoint s = Some ep ->
        CanvasRenderer.getStrokeCenter measureText s
        = ((Point.x sp + Point.x ep) / 2, (Point.y sp + Point.y ep) / 2))
    /\
    (forall p ps,
        Stroke.type s = Tool.pen ->
        Stroke.startPoint s = None -> Stroke.endPoint s = None ->
        Stroke.points s = p :: ps ->
        JS.orNum (Stroke.rotation s) 0 <> 0 ->
        let pivot := CanvasRenderer.getStrokeCenter measureText s in
        let turn := fun q : Point =>
          rotatePoint (Point.x q) (Point.y q) (fst pivot) (snd pivot)
                      (JS.orNum (Stroke.rotation s) 0) in
        StrokeUtils.calculateBounds (Some measureText) s
        = StrokeUtils.boxOf (turn p) (map turn ps)).
Proof.
  intros measureText s.
  assert (Hplain : Tool.eqb (Stroke.type s) Tool.text = false \/ Stroke.points s = [] ->
                   fst (fst (HitDetector.frameOf (Some measureText) s))
                   = CanvasRenderer.getStrokeCenter measureText s).
  { intros Hnot. unfold HitDetector.frameOf, CanvasRenderer.getStrokeCenter.
    destruct (Tool.eqb (Stroke.type s) Tool.text).
    - destruct Hnot as [Hnot|Hnot]; [discriminate|]. rewrite Hnot.
      destruct (Stroke.startPoint s), (Stroke.endPoint s); reflexivity.
    - destruct (Stroke.startPoint s), (Stroke.endPoint s), (Stroke.points s); reflexivity. }
  split; [|split; [exact Hplain|split]].
  - unfold HitDetector.frameOf, CanvasRenderer.getStrokeCenter.
    destruct (Tool.eqb (Stroke.type s) Tool.text).
    + destruct (Stroke.points s) as [|p0 rest]; [|reflexivity].
      destruct (Stroke.startPoint s), (Stroke.endPoint s); reflexivity.
    + destruct (Stroke.startPoint s), (Stroke.endPoint s), (Stroke.points s); reflexivity.
  - intros sp ep Hnot Hs He. unfold CanvasRenderer.getStrokeCenter. rewrite Hs, He.
    assert (Hmid : (Rmin (Point.x sp) (Point.x ep) + Rmax (Point.x sp) (Point.x ep)) / 2
                   = (Point.x sp + Point.x ep) / 2
                   /\ (Rmin (Point.y sp) (Point.y ep) + Rmax (Point.y sp) (Point.y ep)) / 2
                      = (Point.y sp + Point.y ep) / 2)
      by (rewrite !min_plus_max; split; reflexivity).
    destruct Hmid as [Hx Hy].
    destruct (Tool.eqb (Stroke.type s) Tool.text).
    + destruct Hnot as [Hnot|Hnot]; [discriminate|]. rewrite Hnot, Hx, Hy. reflexivity.
    + rewrite Hx, Hy. destruct (Stroke.points s); reflexivity.
  - intros p ps Ht Hs He Hp Hrot pivot turn.
    rewrite (calculateBounds_pen (Some measureText) s p ps Ht Hs He Hp).
    rewrite (truthyNum_nonzero _ Hrot).
    unfold turn, pivot, CanvasRenderer.getStrokeCenter. rewrite Ht, Hs, Hp. reflexivity.
Qed.

Lemma X7_witness :
  JS.orNum (Stroke.rotation penDiagonal) 0 <> 0 /\
  StrokeUtils.calculateBounds (Some (fun _ _ => 0)) penDiagonal
  = StrokeUtils.boxOf
      (rotatePoint 0 0
         (fst (CanvasRenderer.getStrokeCenter (fun _ _ => 0) penDiagonal))
         (snd (CanvasRenderer.getStrokeCenter (fun _ _ => 0) penDiagonal))
         (JS.orNum (Stroke.rotation penDiagonal) 0))
      [rotatePoint 2 2
         (fst (CanvasRenderer.getStrokeCenter (fun _ _ => 0) penDiagonal))
         (snd (CanvasRenderer.getStrokeCenter (fun _ _ => 0) penDiagonal))
         (JS.orNum (Stroke.rotation penDiagonal) 0)].
Proof.
  assert (H : JS.orNum (Stroke.rotation penDiagonal) 0 <> 0).
  { unfold penDiagonal; cbn [Stroke.rotation JS.orNum].
    rewrite (truthyNum_nonzero _ eighth_turn_nonzero). exact eighth_turn_nonzero. }
  split; [exact H|].
  exact (proj2 (proj2 (proj2
           (X7_renderer_and_hit_detector_share_pivot (fun _ _ => 0) penDiagonal)))
           (Point.mk 0 0) [Point.mk 2 2] eq_refl eq_refl eq_refl eq_refl H).
Defined.

(** ** Text resize *)

Lemma resizedFontSize_floor (handle : string) (current deltaY : R) :
  In handle ["se"; "sw"; "s"; "ne"; "nw"; "n"]%string ->
  12 <= StrokeUtils.resizedFontSize handle current deltaY.
Proof.
  intros Hin. cbn in Hin.
  repeat (destruct Hin as [<-|Hin]; [cbn; apply Rmax_l|]). contradiction.
Qed.

(** X9: resizing a text stroke only rewrites its font size.  With a bottom
    handle ([se], [sw], [s]) the new size is [max(12, size + 0.8 * dy)] and
    with a top handle ([ne], [nw], [n]) it is [max(12, size - 0.8 * dy)],
    where [size] is the current font size (16 when absent); so it is never
    below 12, [s] with [dy] is [n] with [-dy], and the size grows by exactly
    [0.8 * dy] when that leaves it at 12 or above.  The [e] and [w] handles
    keep the current size.  Anchor, text and rotation stay as they were. *)
Theorem X9_text_resize :
  forall (s : Stroke) (handle : string) (dx dy : R),
    Stroke.type s = Tool.text ->
    let r := StrokeUtils.applyResize s handle dx dy in
    let size := JS.orNum (Stroke.fontSize s) 16 in
    r = Stroke.withFontSize (Stroke.fontSize r) s
    /\ (In handle ["se"; "sw"; "s"]%string ->
        Stroke.fontSize r = Some (Rmax 12 (size + dy * (8 / 10))))
    /\ (In handle ["ne"; "nw"; "n"]%string ->
        Stroke.fontSize r = Some (Rmax 12 (size - dy * (8 / 10))))
    /\ (In handle ["se"; "sw"; "s"; "ne"; "nw"; "n"]%string ->
        exists f, Stroke.fontSize r = Some f /\ 12 <= f)
    /\ (In handle ["e"; "w"]%string -> Stroke.fontSize r = Some size)
    /\ StrokeUtils.applyResize s "s" dx dy = StrokeUtils.applyResize s "n" dx (- dy)
    /\ (12 <= size + dy * (8 / 10) ->
        Stroke.fontSize (StrokeUtils.applyResize s "se" dx dy)
        = Some (size + dy * (8 / 10))).
Proof.
  intros s handle dx dy Ht r size. unfold r, size, StrokeUtils.applyResize. rewrite Ht.
  cbn [Tool.eqb Stroke.fontSize Stroke.withFontSize].
  split; [reflexivity|]. split; [|split; [|split; [|split; [|split]]]].
  - intros [<-|[<-|[<-|[]]]]; reflexivity.
  - intros [<-|[<-|[<-|[]]]]; reflexivity.
  - intros Hin. eexists; split; [reflexivity|]. apply resizedFontSize_floor; exact Hin.
  - intros [<-|[<-|[]]]; reflexivity.
  - cbn. do 2 f_equal. f_equal. ring.
  - intros Hbig. cbn. f_equal. apply Rmax_right. exact Hbig.
Qed.

Lemma X9_witness :
  Stroke.type textOutside = Tool.text /\
  StrokeUtils.applyResize textOutside "s" 0 5 = StrokeUtils.applyResize textOutside "n" 0 (- 5).
Proof.
  split; [reflexivity|].
  exact (proj1 (proj2 (proj2 (proj2 (proj2 (proj2
           (X9_text_resize textOutside "s" 0 5 eq_refl))))))).
Defined.

(** ** Resize and rotate handles *)

Lemma leb_true (a b : R) : a <= b -> JS.leb a b = true.
Proof. intros H. unfold JS.leb. destruct (Rle_dec a b); [reflexivity|contradiction]. Qed.

Lemma leb_false (a b : R) : b < a -> JS.leb a b = false.
Proof. intros H. unfold JS.leb. destruct (Rle_dec a b); [lra|reflexivity]. Qed.

Lemma geb_true (a b : R) : b <= a -> JS.geb a b = true.
Proof. intros H. unfold JS.geb. apply leb_true; exact H. Qed.

Lemma geb_false (a b : R) : a < b -> JS.geb a b = false.
Proof. intros H. unfold JS.geb. apply leb_false; exact H. Qed.

Lemma handle_found_named (handleSize lx ly hw hh : R) (hnd : string * (R * R)) :
  List.find (HitDetector.onHandle handleSize lx ly) (HitDetector.handlesLocal hw hh) = Some hnd ->
  In (fst hnd) ["nw"; "ne"; "sw"; "se"; "n"; "s"; "w"; "e"]%string.
Proof.
  intros H. apply find_some in H. destruct H as [Hin _].
  unfold HitDetector.handlesLocal in Hin. cbn in Hin.
  repeat (destruct Hin as [<-|Hin]; [cbn; tauto|]). contradiction.
Qed.

Lemma getResizeHandle_named (ctx : Ctx2d) (point : Point) (selectedStrokes : list string)
    (strokes : list Stroke) (zoom : R) (calculateBounds : Stroke -> Bounds) (name : string) :
  HitDetector.getResizeHandle ctx point selectedStrokes strokes zoom calculateBounds
  = Some name ->
  In name handleNames /\ JS.truthyStr (Some name) = true.
Proof.
  unfold HitDetector.getResizeHandle. intros H.
  destruct selectedStrokes as [|id [|id' rest]]; try discriminate.
  destruct (JS.find _ strokes) as [s|]; [|discriminate].
  assert (Hname : In name handleNames).
  { destruct (HitDetector.frameOf ctx s) as [[[cx cy] w] h].
    destruct (HitDetector.toLocal cx cy _ point) as [lx ly].
    destruct (List.find _ _) as [hnd|] eqn:Efind.
    - injection H as <-. apply handle_found_named in Efind.
      unfold handleNames. cbn in Efind |- *. tauto.
    - destruct (JS.leb _ _); [|discriminate]. injection H as <-.
      unfold handleNames; cbn; tauto. }
  split; [exact Hname|].
  unfold handleNames in Hname. cbn in Hname.
  repeat (destruct Hname as [<-|Hname]; [reflexivity|]). contradiction.
Qed.

(** X10: [getResizeHandle] answers [null] unless exactly one stroke is
    selected and that id names a stroke of the scene; whatever it answers is
    one of the nine handle names, never the empty string. *)
Theorem X10_getResizeHandle_guards :
  forall (ctx : Ctx2d) (point : Point) (selectedStrokes : list string)
         (strokes : list Stroke) (zoom : R) (calculateBounds : Stroke -> Bounds),
    (List.length selectedStrokes <> 1%nat ->
     HitDetector.getResizeHandle ctx point selectedStrokes strokes zoom calculateBounds = None)
    /\ (forall id,
           selectedStrokes = [id] ->
           (forall s, In s strokes -> Stroke.id s <> id) ->
           HitDetector.getResizeHandle ctx point selectedStrokes strokes zoom calculateBounds
           = None)
    /\ (forall name,
           HitDetector.getResizeHandle ctx point selectedStrokes strokes zoom calculateBounds
           = Some name ->
           In name handleNames /\ JS.truthyStr (Some name) = true
           /\ exists id stroke, selectedStrokes = [id] /\ In stroke strokes
                                /\ Stroke.id stroke = id).
Proof.
  intros ctx point sel strokes zoom cb. unfold HitDetector.getResizeHandle.
  split; [|split].
  - intros Hlen. destruct sel as [|id [|id' rest]]; try reflexivity. elim Hlen; reflexivity.
  - intros id -> Hnone.
    destruct (JS.find _ strokes) as [s|] eqn:Ef; [|reflexivity].
    apply find_some in Ef. destruct Ef as [Hin Heq].
    apply String.eqb_eq in Heq. elim (Hnone s Hin Heq).
  - intros name H.
    destruct (getResizeHandle_named ctx point sel strokes zoom cb name H) as [Hname Htruthy].
    split; [exact Hname|]. split; [exact Htruthy|].
    destruct sel as [|id [|id' rest]]; try discriminate.
    destruct (JS.find _ strokes) as [s|] eqn:Ef; [|discriminate].
    apply find_some in Ef. destruct Ef as [Hin Heq]. apply String.eqb_eq in Heq.
    exists id, s. repeat split; assumption.
Qed.

Lemma toLocal_rotatePoint (x y cx cy angle : R) :
  let p := rotatePoint x y cx cy angle in
  HitDetector.toLocal cx cy angle p = (x - cx, y - cy).
Proof.
  unfold HitDetector.toLocal, rotatePoint; cbn [Point.x Point.y].
  rewrite cos_neg, sin_neg. pose proof (trig_unit angle) as H.
  f_equal.
  - replace ((cx + (x - cx) * cos angle - (y - cy) * sin angle - cx) * cos angle
             - (cy + (x - cx) * sin angle + (y - cy) * cos angle - cy) * - sin angle)
      with ((x - cx) * (sin angle * sin angle + cos angle * cos angle)) by ring.
    rewrite H. ring.
  - replace ((cx + (x - cx) * cos angle - (y - cy) * sin angle - cx) * - sin angle
             + (cy + (x - cx) * sin angle + (y - cy) * cos angle - cy) * cos angle)
      with ((y - cy) * (sin angle * sin angle + cos angle * cos angle)) by ring.
    rewrite H. ring.
Qed.

Lemma onHandle_below (handleSize lx ly : R) (hnd : string * (R * R)) :
  ly < snd (snd hnd) - handleSize -> HitDetector.onHandle handleSize lx ly hnd = false.
Proof.
  intros H. unfold HitDetector.onHandle.
  rewrite (geb_false ly _ H). rewrite andb_false_r. reflexivity.
Qed.

Section Handles.

Variable ctx : Ctx2d.
Variable calculateBounds : Stroke -> Bounds.
Variables (strokes : list Stroke) (id : string) (stroke : Stroke).
Variables (zoom cx cy w h : R).
Hypothesis zoom_pos : 0 < zoom.
Hypothesis found : JS.find (fun s => String.eqb (Stroke.id s) id) strokes = Some stroke.
Hypothesis frame : HitDetector.frameOf ctx stroke = (cx, cy, w, h).
Hypothesis width_ok : 0 <= w.
Hypothesis height_ok : 0 <= h.

Let angle : R := JS.orNum (Stroke.rotation stroke) 0.
Let hw : R := w / 2 + 6 / zoom.
Let hh : R := h / 2 + 6 / zoom.

Lemma unit_pos : 0 < / zoom.
Proof. apply Rinv_0_lt_compat; exact zoom_pos. Qed.

Lemma rotate_handle_hit :
  HitDetector.getResizeHandle ctx
    (rotatePoint cx (cy - hh - 30 / zoom) cx cy angle) [id] strokes zoom calculateBounds
  = Some "rotate"%string.
Proof.
  unfold HitDetector.getResizeHandle. rewrite found, frame.
  fold angle. rewrite toLocal_rotatePoint. fold hw hh.
  pose proof unit_pos as Hu. unfold Rdiv in *.
  assert (Hhh : 0 < hh) by (unfold hh, Rdiv; lra).
  assert (Hhw : 0 < hw) by (unfold hw, Rdiv; lra).
  unfold HitDetector.handlesLocal. cbn [List.find].
  rewrite !onHandle_below by (cbn [fst snd]; lra).
  replace (JS.hypot (cx - cx - 0) (cy - hh - 30 * / zoom - cy - (- hh - 30 * / zoom))) with 0.
  - rewrite leb_true by lra. reflexivity.
  - unfold JS.hypot.
    replace ((cx - cx - 0) ^ 2 + (cy - hh - 30 * / zoom - cy - (- hh - 30 * / zoom)) ^ 2)
      with 0 by ring.
    symmetry; apply sqrt_0.
Qed.

Lemma corner_handle_hit :
  HitDetector.getResizeHandle ctx
    (rotatePoint (cx - hw) (cy - hh) cx cy angle) [id] strokes zoom calculateBounds
  = Some "nw"%string.
Proof.
  unfold HitDetector.getResizeHandle. rewrite found, frame.
  fold angle. rewrite toLocal_rotatePoint. fold hw hh.
  pose proof unit_pos as Hu. unfold Rdiv in *.
  unfold HitDetector.handlesLocal. cbn [List.find].
  replace (HitDetector.onHandle (8 * / zoom) (cx - hw - cx) (cy - hh - cy)
             ("nw"%string, (- hw, - hh))) with true; [reflexivity|].
  unfold HitDetector.onHandle; cbn [fst snd].
  rewrite !geb_true, !leb_true by lra. reflexivity.
Qed.

End Handles.

(** X11: with one stroke selected and a positive zoom, a click exactly on
    the rotation handle (30/zoom above the top edge of the padded frame,
    carried along by the stroke's rotation) is answered with [rotate], and
    a click exactly on the top-left corner of the padded frame with [nw]:
    the handles are found where the turned stroke shows them. *)
Theorem X11_handles_follow_rotation :
  forall (ctx : Ctx2d) (calculateBounds : Stroke -> Bounds) (strokes : list Stroke)
         (id : string) (stroke : Stroke) (zoom cx cy w h : R),
    0 < zoom ->
    JS.find (fun s => String.eqb (Stroke.id s) id) strokes = Some stroke ->
    HitDetector.frameOf ctx stroke = (cx, cy, w, h) ->
    0 <= w -> 0 <= h ->
    let angle := JS.orNum (Stroke.rotation stroke) 0 in
    let hw := w / 2 + 6 / zoom in
    let hh := h / 2 + 6 / zoom in
    HitDetector.getResizeHandle ctx
      (rotatePoint cx (cy - hh - 30 / zoom) cx cy angle) [id] strokes zoom calculateBounds
    = Some "rotate"%string
    /\
    HitDetector.getResizeHandle ctx
      (rotatePoint (cx - hw) (cy - hh) cx cy angle) [id] strokes zoom calculateBounds
    = Some "nw"%string.
Proof.
  intros ctx cb strokes id stroke zoom cx cy w h Hz Hf Hfr Hw Hh angle hw hh.
  split.
  - apply (rotate_handle_hit ctx cb strokes id stroke zoom cx cy w h Hz Hf Hfr Hw Hh).
  - apply (corner_handle_hit ctx cb strokes id stroke zoom cx cy w h Hz Hf Hfr).
Qed.

Lemma X11_witness :
  HitDetector.getResizeHandle None
    (rotatePoint 50 (25 - (50 / 2 + 6 / 1) - 30 / 1) 50 25
       (JS.orNum (Stroke.rotation rectRotated) 0))
    ["r"%string] [rectRotated] 1 (StrokeUtils.calculateBounds None)
  = Some "rotate"%string.
Proof.
  refine (proj1 (X11_handles_follow_rotation None (StrokeUtils.calculateBounds None)
                   [rectRotated] "r" rectRotated 1 50 25 100 50 _ eq_refl _ _ _));
    try lra.
  cbn. unfold Rmin, Rmax. decide_reals. f_equal; [f_equal; [f_equal|]|]; lra.
Defined.

(** ** Mouse down with the select tool *)

Lemma onGeometry_hit (calculateBounds : Stroke -> Bounds) (point : Point) (s : Stroke) :
  onGeometry point s -> HitDetector.hitTest calculateBounds point s = true.
Proof.
  intros [(sp & ep & Hty & Hsp & Hep & Hx & Hy)|(Hty & Hsp & Hin)];
    unfold HitDetector.hitTest.
  - rewrite (shape_not_text _ Hty), Hsp, Hep.
    unfold HitDetector.inBox. rewrite !geb_true, !leb_true by lra. reflexivity.
  - rewrite Hty, Hsp. cbn [Tool.eqb].
    destruct (Stroke.points s) as [|p ps] eqn:Ep; [contradiction|].
    apply existsb_exists. exists point. split; [exact Hin|].
    apply leb_true. unfold HitDetector.distance.
    replace ((Point.x point - Point.x point) ^ 2 + (Point.y point - Point.y point) ^ 2)
      with 0 by ring.
    rewrite sqrt_0. apply Rle_trans with 14; [lra|apply Rmax_l].
Qed.

Lemma scan_finds (calculateBounds : Stroke -> Bounds) (point : Point)
    (strokes : list Stroke) (s : Stroke) :
  In s strokes -> HitDetector.hitTest calculateBounds point s = true ->
  exists top, HitDetector.getStrokeAtPoint point strokes calculateBounds = Some top
              /\ In top strokes
              /\ HitDetector.hitTest calculateBounds point top = true.
Proof.
  intros Hin Hhit. unfold HitDetector.getStrokeAtPoint.
  pose proof (scanDown_topmost calculateBounds point strokes (List.length strokes)) as H.
  destruct (HitDetector.scanDown calculateBounds point strokes (List.length strokes))
    as [top|].
  - destruct H as (i & _ & Hnth & Htop & _). exists top.
    split; [reflexivity|]. split; [eapply nth_error_In; exact Hnth|exact Htop].
  - apply In_nth_error in Hin. destruct Hin as [j Hj].
    assert (Hlt : (j < List.length strokes)%nat)
      by (apply nth_error_Some; rewrite Hj; discriminate).
    rewrite (H j s Hlt Hj) in Hhit. discriminate.
Qed.

(** X12: a press of the select tool on the geometry of some stroke of the
    scene (inside a shape's box, on a sample of a pen stroke) always finds a
    stroke, whatever lies above it, and never starts a marquee: the gesture
    is a drag or, when a handle of the selected stroke is under the pointer,
    a resize. *)
Theorem X12_press_on_geometry_grabs :
  forall (ctx : Ctx2d) (calculateBounds : Stroke -> Bounds) (point : Point)
         (shiftKey : bool) (selectedStrokes : list string) (strokes : list Stroke)
         (zoom : R) (s : Stroke),
    In s strokes -> onGeometry point s ->
    (exists top,
        HitDetector.getStrokeAtPoint point strokes calculateBounds = Some top
        /\ In top strokes)
    /\
    (forall p,
        snd (MouseEventHandler.handleSelectMouseDown ctx point shiftKey selectedStrokes
               strokes zoom calculateBounds)
        <> MouseEventHandler.StartSelection p).
Proof.
  intros ctx cb point shift sel strokes zoom s Hin Hgeo.
  destruct (scan_finds cb point strokes s Hin (onGeometry_hit cb point s Hgeo))
    as (top & Htop & Hintop & _).
  split; [exists top; split; assumption|].
  intros p. unfold MouseEventHandler.handleSelectMouseDown. rewrite Htop.
  destruct (JS.truthyStr _); cbn [snd]; discriminate.
Qed.

Lemma X12_witness :
  exists top,
    HitDetector.getStrokeAtPoint (Point.mk 7 7) [rectNear; rectOver]
      (StrokeUtils.calculateBounds None) = Some top
    /\ In top [rectNear; rectOver].
Proof.
  refine (proj1 (X12_press_on_geometry_grabs None (StrokeUtils.calculateBounds None)
                   (Point.mk 7 7) false [] [rectNear; rectOver] 1 rectNear _ _)).
  - left; reflexivity.
  - left. exists (Point.mk 0 0), (Point.mk 10 10).
    repeat split; try reflexivity; cbn; unfold Rmin, Rmax; decide_reals.
Defined.

(** X13: the selection [handleSelectMouseDown] hands to the store has no
    duplicate id when the current selection has none, names only ids of the
    current selection or of scene strokes, and holds at most one id when
    shift is not pressed; when a handle is under the pointer the selection
    is left alone and the resize starts with that handle. *)
Theorem X13_press_keeps_selection_distinct :
  forall (ctx : Ctx2d) (calculateBounds : Stroke -> Bounds) (point : Point)
         (shiftKey : bool) (selectedStrokes : list string) (strokes : list Stroke)
         (zoom : R),
    NoDup selectedStrokes ->
    let result :=
      MouseEventHandler.handleSelectMouseDown ctx point shiftKey selectedStrokes
        strokes zoom calculateBounds in
    (forall ids, fst result = Some ids ->
        NoDup ids
        /\ (forall id, In id ids ->
               In id selectedStrokes \/ exists stroke, In stroke strokes /\ Stroke.id stroke = id)
        /\ (shiftKey = false -> (List.length ids <= 1)%nat))
    /\
    (forall name,
        HitDetector.getResizeHandle ctx point selectedStrokes strokes zoom calculateBounds
        = Some name ->
        result = (None, MouseEventHandler.StartResizing name point)).
Proof.
  intros ctx cb point shift sel strokes zoom Hnodup result. subst result.
  unfold MouseEventHandler.handleSelectMouseDown. split.
  - intros ids. destruct (JS.truthyStr _); cbn [fst]; [discriminate|].
    pose proof (scanDown_topmost cb point strokes (List.length strokes)) as Hscan.
    unfold HitDetector.getStrokeAtPoint.
    destruct (HitDetector.scanDown cb point strokes (List.length strokes)) as [top|].
    + destruct Hscan as (i & _ & Hnth & _). apply nth_error_In in Hnth.
      cbn [fst]. destruct (JS.includes sel (Stroke.id top)) eqn:Ein; cbn [negb];
        [discriminate|].
      assert (Hnot : ~ In (Stroke.id top) sel).
      { intros Hc. apply includes_In in Hc. rewrite Hc in Ein. discriminate. }
      intros Hids. injection Hids as <-. destruct shift.
      * split; [|split].
        -- apply NoDup_app; [exact Hnodup|constructor; [intros []|constructor]|].
           intros x Hx [<-|[]]. exact (Hnot Hx).
        -- intros id Hid. apply in_app_or in Hid. destruct Hid as [Hid|[<-|[]]].
           ++ left; exact Hid.
           ++ right. exists top. split; [exact Hnth|reflexivity].
        -- discriminate.
      * split; [|split].
        -- constructor; [intros []|constructor].
        -- intros id [<-|[]]. right. exists top. split; [exact Hnth|reflexivity].
        -- intros _. cbn. lia.
    + cbn [fst]. destruct shift; cbn [negb]; [discriminate|].
      intros Hids. injection Hids as <-. split; [constructor|].
      split; [intros id []|intros _; cbn; lia].
  - intros name Hname. rewrite Hname.
    destruct (getResizeHandle_named ctx point sel strokes zoom cb name Hname)
      as [_ Htruthy].
    rewrite Htruthy. reflexivity.
Qed.

Lemma X13_witness :
  NoDup ["c"%string]
  /\ (forall ids,
         fst (MouseEventHandler.handleSelectMouseDown None (Point.mk 7 7) true ["c"%string]
                [rectNear; rectOver] 1 (StrokeUtils.calculateBounds None)) = Some ids ->
         NoDup ids).
Proof.
  assert (Hsel : NoDup ["c"%string]) by (constructor; [intros []|constructor]).
  split; [exact Hsel|]. intros ids Hids.
  exact (proj1 (proj1 (X13_press_keeps_selection_distinct None
                         (StrokeUtils.calculateBounds None) (Point.mk 7 7) true
                         ["c"%string] [rectNear; rectOver] 1 Hsel) ids Hids)).
Defined.

(** ** Marquee direction *)

(** X14: the marquee is direction-blind: dragging it from the opposite
    corner, or spanning it by its other diagonal, selects the same strokes,
    both in the hit detector and in the store's [finishSelection], and holds
    the same points. *)
Theorem X14_marquee_direction_blind :
  forall (ctx : Ctx2d) (box : SelectionBox) (strokes : list Stroke) (point : Point)
         (st : Store.State),
    HitDetector.getStrokesInSelectionBox strokes (reversed box)
    = HitDetector.getStrokesInSelectionBox strokes box
    /\ HitDetector.getStrokesInSelectionBox strokes (mirrored box)
       = HitDetector.getStrokesInSelectionBox strokes box
    /\ HitDetector.isPointInSelectionBox point (reversed box)
       = HitDetector.isPointInSelectionBox point box
    /\ HitDetector.isPointInSelectionBox point (mirrored box)
       = HitDetector.isPointInSelectionBox point box
    /\ Store.marqueeIds ctx (reversed box) strokes = Store.marqueeIds ctx box strokes
    /\ Store.marqueeIds ctx (mirrored box) strokes = Store.marqueeIds ctx box strokes
    /\ Store.finishSelection ctx (Store.set_selectionBox (Some (reversed box)) st)
       = Store.finishSelection ctx (Store.set_selectionBox (Some box) st).
Proof.
  intros ctx box strokes point st.
  assert (Hids : forall scene, Store.marqueeIds ctx (reversed box) scene
                               = Store.marqueeIds ctx box scene).
  { intros scene. unfold Store.marqueeIds, reversed; cbn [SelectionBox.startX SelectionBox.startY
                                            SelectionBox.endX SelectionBox.endY].
    rewrite (Rmin_comm (SelectionBox.endX box)), (Rmax_comm (SelectionBox.endX box)),
            (Rmin_comm (SelectionBox.endY box)), (Rmax_comm (SelectionBox.endY box)).
    reflexivity. }
  repeat split.
  - unfold HitDetector.getStrokesInSelectionBox, reversed;
      cbn [SelectionBox.startX SelectionBox.startY SelectionBox.endX SelectionBox.endY].
    rewrite (Rmin_comm (SelectionBox.endX box)), (Rmax_comm (SelectionBox.endX box)),
            (Rmin_comm (SelectionBox.endY box)), (Rmax_comm (SelectionBox.endY box)).
    reflexivity.
  - unfold HitDetector.getStrokesInSelectionBox, mirrored;
      cbn [SelectionBox.startX SelectionBox.startY SelectionBox.endX SelectionBox.endY].
    rewrite (Rmin_comm (SelectionBox.endX box)), (Rmax_comm (SelectionBox.endX box)).
    reflexivity.
  - unfold HitDetector.isPointInSelectionBox, reversed;
      cbn [SelectionBox.startX SelectionBox.startY SelectionBox.endX SelectionBox.endY].
    rewrite (Rmin_comm (SelectionBox.endX box)), (Rmax_comm (SelectionBox.endX box)),
            (Rmin_comm (SelectionBox.endY box)), (Rmax_comm (SelectionBox.endY box)).
    reflexivity.
  - unfold HitDetector.isPointInSelectionBox, mirrored;
      cbn [SelectionBox.startX SelectionBox.startY SelectionBox.endX SelectionBox.endY].
    rewrite (Rmin_comm (SelectionBox.endX box)), (Rmax_comm (SelectionBox.endX box)).
    reflexivity.
  - apply Hids.
  - unfold Store.marqueeIds, mirrored;
      cbn [SelectionBox.startX SelectionBox.startY SelectionBox.endX SelectionBox.endY].
    rewrite (Rmin_comm (SelectionBox.endX box)), (Rmax_comm (SelectionBox.endX box)).
    reflexivity.
  - unfold Store.finishSelection. destruct st; cbn -[Store.marqueeIds]. rewrite Hids. reflexivity.
Qed.

(** ** Zooming with the wheel *)

Lemma clamp_in_range (newZoom minZoom maxZoom : R) :
  minZoom <= maxZoom ->
  minZoom <= CoordinateTransformer.applyZoomConstraints newZoom minZoom maxZoom <= maxZoom.
Proof.
  intros H. unfold CoordinateTransformer.applyZoomConstraints, Rmax, Rmin.
  decide_innermost; lra.
Qed.

Lemma clamp_fixes (z minZoom maxZoom : R) :
  minZoom <= z <= maxZoom ->
  CoordinateTransformer.applyZoomConstraints z minZoom maxZoom = z.
Proof.
  intros H. unfold CoordinateTransformer.applyZoomConstraints, Rmax, Rmin.
  decide_innermost; lra.
Qed.

(** X15: [applyZoomConstraints] never answers below [minZoom], also when the
    limits are given in the wrong order; with ordered limits the answer lies
    between them; values inside the limits pass unchanged; clamping twice is
    clamping once; and the function is monotone in the requested zoom. *)
Theorem X15_applyZoomConstraints_clamps :
  forall (newZoom minZoom maxZoom : R),
    let clamped := CoordinateTransformer.applyZoomConstraints newZoom minZoom maxZoom in
    minZoom <= clamped
    /\ (minZoom <= maxZoom -> clamped <= maxZoom)
    /\ (maxZoom < minZoom -> clamped = minZoom)
    /\ (minZoom <= newZoom <= maxZoom -> clamped = newZoom)
    /\ CoordinateTransformer.applyZoomConstraints clamped minZoom maxZoom = clamped
    /\ (forall other, newZoom <= other ->
          clamped <= CoordinateTransformer.applyZoomConstraints other minZoom maxZoom).
Proof.
  intros z lo hi clamped. subst clamped.
  split; [|split; [|split; [|split; [|split]]]].
  - unfold CoordinateTransformer.applyZoomConstraints. apply Rmax_l.
  - intros H. apply clamp_in_range; exact H.
  - intros H. unfold CoordinateTransformer.applyZoomConstraints, Rmax, Rmin.
    decide_innermost; lra.
  - apply clamp_fixes.
  - unfold CoordinateTransformer.applyZoomConstraints, Rmax, Rmin.
    decide_innermost; try lra; decide_innermost; try lra; decide_innermost; lra.
  - intros other H. unfold CoordinateTransformer.applyZoomConstraints, Rmax, Rmin.
    decide_innermost; try lra; decide_innermost; lra.
Qed.

Lemma X15_witness :
  CoordinateTransformer.applyZoomConstraints 7 (1 / 10) 5 <= 5.
Proof.
  apply (proj1 (proj2 (X15_applyZoomConstraints_clamps 7 (1 / 10) 5))). lra.
Defined.

Lemma wheel_zoom (clientX clientY deltaY : R) (rect : CoordinateTransformer.Rect)
    (s : CoordinateTransformer.CanvasState) :
  CoordinateTransformer.zoom (MouseEventHandler.handleWheel clientX clientY deltaY rect s)
  = CoordinateTransformer.applyZoomConstraints
      (CoordinateTransformer.zoom s
       * CoordinateTransformer.calculateZoomFactor deltaY (1 / 10)) (1 / 10) 5.
Proof. reflexivity. Qed.

(** X16: a wheel event leaves the zoom within [0.1, 5] whatever the state
    was.  From a zoom within these limits, turning the wheel down
    ([deltaY > 0]) never raises the zoom and turning it up never lowers it;
    at the upper limit a step up, and at the lower limit a step down, leave
    the zoom where it is. *)
Theorem X16_wheel_zoom_within_limits :
  forall (clientX clientY deltaY : R) (rect : CoordinateTransformer.Rect)
         (s : CoordinateTransformer.CanvasState),
    let s' := MouseEventHandler.handleWheel clientX clientY deltaY rect s in
    zoomInLimits (CoordinateTransformer.zoom s')
    /\ (zoomInLimits (CoordinateTransformer.zoom s) -> 0 < deltaY ->
        CoordinateTransformer.zoom s' <= CoordinateTransformer.zoom s)
    /\ (zoomInLimits (CoordinateTransformer.zoom s) -> deltaY <= 0 ->
        CoordinateTransformer.zoom s <= CoordinateTransformer.zoom s')
    /\ (CoordinateTransformer.zoom s = 5 -> deltaY <= 0 ->
        CoordinateTransformer.zoom s' = 5)
    /\ (CoordinateTransformer.zoom s = 1 / 10 -> 0 < deltaY ->
        CoordinateTransformer.zoom s' = 1 / 10).
Proof.
  intros clientX clientY deltaY rect s s'. subst s'. rewrite wheel_zoom.
  unfold zoomInLimits, CoordinateTransformer.calculateZoomFactor, JS.gtb, JS.ltb.
  split; [apply clamp_in_range; lra|].
  split; [|split; [|split]].
  - intros Hin Hd. destruct (Rlt_dec 0 deltaY); [|lra].
    unfold CoordinateTransformer.applyZoomConstraints, Rmax, Rmin.
    decide_innermost; lra.
  - intros Hin Hd. destruct (Rlt_dec 0 deltaY); [lra|].
    unfold CoordinateTransformer.applyZoomConstraints, Rmax, Rmin.
    decide_innermost; lra.
  - intros H5 Hd. rewrite H5. destruct (Rlt_dec 0 deltaY); [lra|].
    unfold CoordinateTransformer.applyZoomConstraints, Rmax, Rmin.
    decide_innermost; lra.
  - intros H1 Hd. rewrite H1. destruct (Rlt_dec 0 deltaY); [|lra].
    unfold CoordinateTransformer.applyZoomConstraints, Rmax, Rmin.
    decide_innermost; lra.
Qed.

Lemma X16_witness :
  CoordinateTransformer.zoom (MouseEventHandler.handleWheel 100 200 (-1) rect10 view2)
  >= CoordinateTransformer.zoom view2.
Proof.
  apply Rle_ge.
  refine (proj1 (proj2 (proj2
            (X16_wheel_zoom_within_limits 100 200 (-1) rect10 view2))) _ _).
  - unfold zoomInLimits. cbn. lra.
  - lra.
Defined.

(** ** The caret of the text editor *)

Lemma strLen_nonneg (s : string) : (0 <= JS.strLen s)%Z.
Proof. unfold JS.strLen. lia. Qed.

Lemma strLen_append (a b : string) :
  JS.strLen (a ++ b) = (JS.strLen a + JS.strLen b)%Z.
Proof.
  unfold JS.strLen. induction a as [|c a IH]; cbn [String.append String.length]; lia.
Qed.

Lemma whole_string (b : string) : String.substring 0 (String.length b) b = b.
Proof. induction b as [|c b IH]; cbn; [reflexivity|f_equal; exact IH]. Qed.

Lemma head_length (text : string) (n : nat) :
  (n <= String.length text)%nat -> String.length (String.substring 0 n text) = n.
Proof.
  revert n. induction text as [|c text IH]; intros [|n] Hn; cbn in *; try lia.
  rewrite IH; lia.
Qed.

Lemma tail_length (text : string) (n : nat) :
  (n <= String.length text)%nat ->
  String.length (String.substring n (String.length text - n) text)
  = (String.length text - n)%nat.
Proof.
  revert n. induction text as [|c text IH]; intros [|n] Hn; cbn in *; try lia.
  - f_equal. apply (head_length text (String.length text)). lia.
  - apply IH; lia.
Qed.

Lemma head_tail (text : string) (n : nat) :
  (n <= String.length text)%nat ->
  (String.substring 0 n text ++ String.substring n (String.length text - n) text)%string
  = text.
Proof.
  revert n. induction text as [|c text IH]; intros [|n] Hn; cbn in *; try lia.
  - reflexivity.
  - f_equal. apply whole_string.
  - f_equal. apply IH. lia.
Qed.

Lemma head_of_append (a b : string) :
  String.substring 0 (String.length a) (a ++ b) = a.
Proof. induction a as [|c a IH]; cbn; [destruct b; reflexivity|f_equal; exact IH]. Qed.

Lemma tail_of_append (a b : string) :
  String.substring (String.length a) (String.length b) (a ++ b) = b.
Proof. induction a as [|c a IH]; cbn; [apply whole_string|exact IH]. Qed.

Lemma append_assoc3 (a k b : string) : (a ++ k ++ b)%string = ((a ++ k) ++ b)%string.
Proof. induction a as [|c a IH]; cbn; [reflexivity|f_equal; exact IH]. Qed.

Lemma slice_head (text : string) (idx : Z) :
  (0 <= idx <= JS.strLen text)%Z ->
  JS.strSlice text 0 (Some idx) = String.substring 0 (Z.to_nat idx) text.
Proof.
  intros H. unfold JS.strSlice, JS.clampIndex. cbn [Z.ltb Z.compare].
  pose proof (strLen_nonneg text) as Hl.
  destruct (idx <? 0)%Z eqn:E; [lia|].
  rewrite (Z.min_l 0), (Z.min_l idx), Z.sub_0_r, Z.max_l by lia. reflexivity.
Qed.

Lemma slice_tail (text : string) (idx : Z) :
  (0 <= idx <= JS.strLen text)%Z ->
  JS.strSlice text idx None
  = String.substring (Z.to_nat idx) (String.length text - Z.to_nat idx) text.
Proof.
  intros H. unfold JS.strSlice, JS.clampIndex.
  destruct (idx <? 0)%Z eqn:E; [lia|].
  rewrite (Z.min_l idx), Z.max_l by lia. f_equal. unfold JS.strLen. lia.
Qed.

Lemma slices_rejoin (text : string) (idx : Z) :
  (0 <= idx <= JS.strLen text)%Z ->
  (JS.strSlice text 0 (Some idx) ++ JS.strSlice text idx None)%string = text.
Proof.
  intros H. rewrite slice_head, slice_tail by exact H.
  apply head_tail. unfold JS.strLen in H. lia.
Qed.

Lemma slice_head_length (text : string) (idx : Z) :
  (0 <= idx <= JS.strLen text)%Z -> JS.strLen (JS.strSlice text 0 (Some idx)) = idx.
Proof.
  intros H. rewrite slice_head by exact H. unfold JS.strLen in *.
  rewrite head_length; lia.
Qed.

Lemma slice_tail_length (text : string) (idx : Z) :
  (0 <= idx <= JS.strLen text)%Z ->
  JS.strLen (JS.strSlice text idx None) = (JS.strLen text - idx)%Z.
Proof.
  intros H. rewrite slice_tail by exact H. unfold JS.strLen in *.
  rewrite tail_length; lia.
Qed.

(** Splicing [key] in at the caret and cutting it out again. *)
Lemma splice_head (text key : string) (idx : Z) :
  (0 <= idx <= JS.strLen text)%Z ->
  let newText := (JS.strSlice text 0 (Some idx) ++ key ++ JS.strSlice text idx None)%string in
  JS.strSlice newText 0 (Some idx) = JS.strSlice text 0 (Some idx).
Proof.
  intros H newText.
  assert (Hlen : JS.strLen newText = (JS.strLen text + JS.strLen key)%Z).
  { subst newText. rewrite !strLen_append, slice_head_length, slice_tail_length by exact H.
    lia. }
  pose proof (strLen_nonneg key) as Hk.
  rewrite (slice_head newText) by lia.
  pose proof (slice_head_length text idx H) as Ha. unfold JS.strLen in Ha.
  replace (Z.to_nat idx) with (String.length (JS.strSlice text 0 (Some idx))) by lia.
  subst newText. apply head_of_append.
Qed.

Lemma splice_tail (text key : string) (idx : Z) :
  (0 <= idx <= JS.strLen text)%Z ->
  let newText := (JS.strSlice text 0 (Some idx) ++ key ++ JS.strSlice text idx None)%string in
  JS.strSlice newText (idx + JS.strLen key) None = JS.strSlice text idx None.
Proof.
  intros H newText.
  assert (Hlen : JS.strLen newText = (JS.strLen text + JS.strLen key)%Z).
  { subst newText. rewrite !strLen_append, slice_head_length, slice_tail_length by exact H.
    lia. }
  pose proof (strLen_nonneg key) as Hk.
  rewrite (slice_tail newText) by lia.
  pose proof (slice_head_length text idx H) as Ha.
  pose proof (slice_tail_length text idx H) as Hb.
  unfold JS.strLen in Ha, Hb, Hlen.
  replace (Z.to_nat (idx + JS.strLen key))
    with (String.length (JS.strSlice text 0 (Some idx) ++ key)).
  2:{ pose proof (strLen_append (JS.strSlice text 0 (Some idx)) key) as Hs.
      unfold JS.strLen in Hs |- *. lia. }
  replace (String.length newText - String.length (JS.strSlice text 0 (Some idx) ++ key))%nat
    with (String.length (JS.strSlice text idx None)).
  2:{ pose proof (strLen_append (JS.strSlice text 0 (Some idx)) key) as Hs.
      unfold JS.strLen in Hs. lia. }
  subst newText. rewrite append_assoc3. apply tail_of_append.
Qed.

Lemma spanOf_nonneg (lines : list string) : (0 <= spanOf lines)%Z.
Proof.
  induction lines as [|l rest IH]; cbn [spanOf]; [lia|].
  pose proof (strLen_nonneg l). lia.
Qed.

Lemma spanOf_splitLines (text : string) :
  spanOf (JS.splitLines text) = (JS.strLen text + 1)%Z.
Proof.
  induction text as [|c rest IH]; [reflexivity|].
  cbn [JS.splitLines]. destruct (Ascii.eqb c JS.newline).
  - cbn [spanOf]. rewrite IH. unfold JS.strLen; cbn [String.length]. lia.
  - destruct (JS.splitLines rest) as [|l ls].
    + cbn [spanOf] in *. unfold JS.strLen in *; cbn [String.length] in *. lia.
    + cbn [spanOf] in *. unfold JS.strLen in *; cbn [String.length] in *. lia.
Qed.

Lemma accumulated_span (lines : list string) (start : Z) :
  fold_left (fun acc l => (acc + (JS.strLen l + 1))%Z) lines start
  = (start + spanOf lines)%Z.
Proof.
  revert start. induction lines as [|l rest IH]; intros start; cbn [fold_left spanOf].
  - lia.
  - rewrite IH. lia.
Qed.

Lemma spanOf_next (lines : list string) (k : nat) :
  (k < List.length lines)%nat ->
  spanOf (firstn (S k) lines)
  = (spanOf (firstn k lines) + JS.strLen (nth k lines EmptyString) + 1)%Z.
Proof.
  revert k. induction lines as [|l rest IH]; intros k Hk; cbn [List.length] in Hk; [lia|].
  destruct k as [|k].
  - cbn [firstn spanOf nth]. lia.
  - change (firstn (S (S k)) (l :: rest)) with (l :: firstn (S k) rest).
    change (firstn (S k) (l :: rest)) with (l :: firstn k rest).
    cbn [spanOf nth]. rewrite IH by lia. lia.
Qed.

Lemma line_at (lines : list string) (k : nat) :
  (k < List.length lines)%nat ->
  JS.orStr (JS.index lines (Z.of_nat k)) = nth k lines EmptyString.
Proof.
  intros Hk. unfold JS.index.
  destruct (Z.of_nat k <? 0)%Z eqn:E; [lia|].
  rewrite Nat2Z.id, (nth_error_nth' lines EmptyString Hk). reflexivity.
Qed.

Lemma loop_finds (lines : list string) :
  forall (index acc li : Z),
    lines <> [] -> (index <= acc + spanOf lines - 1)%Z ->
    exists (k : nat) (line col : Z),
      Whiteboard.indexToLineColLoop lines index acc li = Some (line, col)
      /\ (k < List.length lines)%nat
      /\ line = (li + Z.of_nat k)%Z
      /\ col = (index - acc - spanOf (firstn k lines))%Z
      /\ (col <= JS.strLen (nth k lines EmptyString))%Z
      /\ ((acc <= index)%Z -> (0 <= col)%Z).
Proof.
  induction lines as [|l rest IH]; intros index acc li Hne Hle; [congruence|].
  cbn [Whiteboard.indexToLineColLoop spanOf] in *.
  destruct (index <=? acc + JS.strLen l)%Z eqn:E.
  - apply Z.leb_le in E. exists 0%nat, li, (index - acc)%Z.
    cbn [firstn spanOf nth List.length]. repeat split; lia.
  - apply Z.leb_gt in E.
    assert (Hrest : rest <> []).
    { intros ->. cbn [spanOf] in Hle. lia. }
    destruct (IH index (acc + JS.strLen l + 1)%Z (li + 1)%Z Hrest)
      as (k & line & col & Hloop & Hk & Hline & Hcol & Hhi & Hlo); [lia|].
    exists (S k), line, col. cbn [firstn spanOf nth List.length].
    repeat split; try lia; try assumption.
Qed.

Lemma loop_runs_out (lines : list string) :
  forall (index acc li : Z),
    (acc + spanOf lines - 1 < index)%Z ->
    Whiteboard.indexToLineColLoop lines index acc li = None.
Proof.
  induction lines as [|l rest IH]; intros index acc li Hlt; [reflexivity|].
  cbn [Whiteboard.indexToLineColLoop spanOf] in *.
  pose proof (spanOf_nonneg rest) as Hr.
  destruct (index <=? acc + JS.strLen l)%Z eqn:E.
  - apply Z.leb_le in E. lia.
  - apply IH. lia.
Qed.

Lemma lineColToIndex_at (text : string) (k : nat) (col : Z) :
  (k < List.length (JS.splitLines text))%nat ->
  Whiteboard.lineColToIndex text (Z.of_nat k) col
  = Z.min (spanOf (firstn k (JS.splitLines text)) + col) (JS.strLen text).
Proof.
  intros Hk. unfold Whiteboard.lineColToIndex, Whiteboard.getLines, JS.len.
  rewrite (Z.min_l (Z.of_nat k)), Nat2Z.id by lia. rewrite accumulated_span. reflexivity.
Qed.

(** X17: the two caret conversions agree.  [indexToLineCol] always answers
    a line of the buffer; converting its answer back with [lineColToIndex]
    gives the index again when the index is at most the text's length, and
    the end of the text when the index lies beyond it; for an index that is
    not negative the column lies within the answered line. *)
Theorem X17_caret_line_col_round_trip :
  forall (text : string) (index : Z),
    let lc := Whiteboard.indexToLineCol text index in
    (0 <= fst lc < JS.len (Whiteboard.getLines text))%Z
    /\ Whiteboard.lineColToIndex text (fst lc) (snd lc) = Z.min index (JS.strLen text)
    /\ ((0 <= index)%Z ->
        (0 <= snd lc
         <= JS.strLen (JS.orStr (JS.index (Whiteboard.getLines text) (fst lc))))%Z).
Proof.
  intros text index lc. subst lc.
  unfold Whiteboard.indexToLineCol, Whiteboard.getLines.
  pose proof (splitLines_length text) as Hlen.
  pose proof (spanOf_splitLines text) as Hspan.
  destruct (Z_le_gt_dec index (JS.strLen text)) as [Hin|Hout].
  - assert (Hne : JS.splitLines text <> []).
    { intros E. rewrite E in Hlen. cbn in Hlen. lia. }
    destruct (loop_finds (JS.splitLines text) index 0%Z 0%Z Hne)
      as (k & line & col & Hloop & Hk & Hline & Hcol & Hhi & Hlo); [lia|].
    rewrite Hloop. cbn [fst snd]. subst line. rewrite Z.add_0_l.
    split; [unfold JS.len; lia|]. split.
    + rewrite lineColToIndex_at by exact Hk. f_equal. lia.
    + intros H0. rewrite line_at by exact Hk. split; [apply Hlo; lia|exact Hhi].
  - rewrite loop_runs_out by lia. cbn [fst snd]. unfold JS.len.
    set (n := List.length (JS.splitLines text)) in *.
    assert (Hk : (n - 1 < List.length (JS.splitLines text))%nat) by (fold n; lia).
    replace (Z.of_nat n - 1)%Z with (Z.of_nat (n - 1)) by lia.
    rewrite line_at by exact Hk.
    pose proof (spanOf_next (JS.splitLines text) (n - 1) Hk) as Hnext.
    replace (S (n - 1)) with n in Hnext by lia.
    unfold n in Hnext at 1. rewrite firstn_all in Hnext.
    split; [lia|]. split.
    + rewrite lineColToIndex_at by exact Hk. lia.
    + intros _. pose proof (strLen_nonneg (nth (n - 1) (JS.splitLines text) EmptyString)).
      lia.
Qed.

Lemma X17_witness :
  (0 <= snd (Whiteboard.indexToLineCol "ab" 1)
   <= JS.strLen (JS.orStr (JS.index (Whiteboard.getLines "ab")
                              (fst (Whiteboard.indexToLineCol "ab" 1)))))%Z.
Proof.
  apply (proj2 (proj2 (X17_caret_line_col_round_trip "ab" 1%Z))). lia.
Defined.

Lemma loop_col_nonneg (lines : list string) :
  forall (index acc li line col : Z),
    (acc <= index)%Z ->
    Whiteboard.indexToLineColLoop lines index acc li = Some (line, col) ->
    (0 <= col)%Z.
Proof.
  induction lines as [|l rest IH]; intros index acc li line col Hacc Hloop;
    cbn [Whiteboard.indexToLineColLoop] in Hloop; [discriminate|].
  destruct (index <=? acc + JS.strLen l)%Z eqn:E.
  - injection Hloop as _ <-. lia.
  - apply Z.leb_gt in E. apply (IH index _ _ line col) in Hloop; [exact Hloop|lia].
Qed.

Lemma indexToLineCol_col_nonneg (text : string) (index : Z) :
  (0 <= index)%Z -> (0 <= snd (Whiteboard.indexToLineCol text index))%Z.
Proof.
  intros H. unfold Whiteboard.indexToLineCol.
  destruct (Whiteboard.indexToLineColLoop (Whiteboard.getLines text) index 0 0)
    as [[line col]|] eqn:E; cbn [snd].
  - apply (loop_col_nonneg _ _ _ _ _ _ H E).
  - apply strLen_nonneg.
Qed.

Lemma lineColToIndex_range (text : string) (line col : Z) :
  (0 <= col)%Z -> (0 <= Whiteboard.lineColToIndex text line col <= JS.strLen text)%Z.
Proof.
  intros H. unfold Whiteboard.lineColToIndex. rewrite accumulated_span.
  pose proof (spanOf_nonneg
                (firstn (Z.to_nat (Z.min line (JS.len (Whiteboard.getLines text))))
                        (Whiteboard.getLines text))).
  pose proof (strLen_nonneg text). lia.
Qed.

Lemma single_key_is_no_command (key : string) :
  String.length key = 1%nat ->
  String.eqb key "Escape" = false /\ String.eqb key "Enter" = false
  /\ String.eqb key "Backspace" = false /\ String.eqb key "Delete" = false
  /\ String.eqb key "ArrowLeft" = false /\ String.eqb key "ArrowRight" = false
  /\ String.eqb key "ArrowUp" = false /\ String.eqb key "ArrowDown" = false.
Proof.
  intros H. destruct key as [|c [|c' rest]]; try discriminate.
  cbn. repeat split; match goal with |- (if ?b then _ else _) = _ => destruct b end;
    reflexivity.
Qed.

Section Typing.

Variable ed : Whiteboard.Editor.
Hypothesis caret_ok : caretInRange ed.

Let text : string := Whiteboard.text ed.
Let idx : Z := Whiteboard.caretIndex ed.

Lemma caret_bounds : (0 <= idx <= JS.strLen text)%Z.
Proof. exact (proj1 caret_ok). Qed.

Lemma spliced_length (key : string) :
  JS.strLen (JS.strSlice text 0 (Some idx) ++ key ++ JS.strSlice text idx None)
  = (JS.strLen text + JS.strLen key)%Z.
Proof.
  pose proof caret_bounds as H.
  rewrite !strLen_append, slice_head_length, slice_tail_length by exact H. lia.
Qed.

Lemma backspaced_length :
  (0 < idx)%Z ->
  JS.strLen (JS.strSlice text 0 (Some (idx - 1)%Z) ++ JS.strSlice text idx None)
  = (JS.strLen text - 1)%Z.
Proof.
  intros Hpos. pose proof caret_bounds as H.
  rewrite strLen_append, slice_head_length, slice_tail_length by lia. lia.
Qed.

Lemma deleted_length :
  (idx < JS.strLen text)%Z ->
  JS.strLen (JS.strSlice text 0 (Some idx) ++ JS.strSlice text (idx + 1) None)
  = (JS.strLen text - 1)%Z.
Proof.
  intros Hlt. pose proof caret_bounds as H.
  rewrite strLen_append, slice_head_length, slice_tail_length by lia. lia.
Qed.

Lemma onKeyDown_cases (key : string) (isCtrl : bool) :
  let r := Whiteboard.onKeyDown key isCtrl ed in
  caretInRange (snd r)
  /\ match fst r with
     | Whiteboard.UpdateText newText =>
         Whiteboard.text (snd r) = newText
         /\ (JS.strLen newText = (JS.strLen text + 1)%Z
             \/ JS.strLen newText = (JS.strLen text - 1)%Z)
     | _ => Whiteboard.text (snd r) = text
     end.
Proof.
  pose proof caret_bounds as Hb. destruct caret_ok as [_ Hd].
  unfold Whiteboard.onKeyDown. fold text idx.
  destruct (String.eqb key "Escape"); [cbn [fst snd]; split; [exact caret_ok|reflexivity]|].
  destruct (String.eqb key "Enter").
  { cbn [fst snd]. pose proof (spliced_length Whiteboard.newlineString) as Hl.
    change (JS.strLen Whiteboard.newlineString) with 1%Z in Hl.
    split; [|split; [reflexivity|left; exact Hl]].
    split; cbn [Whiteboard.text Whiteboard.caretIndex Whiteboard.desiredColumn];
      [rewrite Hl; lia|exact Hd]. }
  destruct (String.eqb key "Backspace").
  { destruct (0 <? idx)%Z eqn:E; cbn [fst snd];
      [|split; [exact caret_ok|reflexivity]].
    apply Z.ltb_lt in E. pose proof (backspaced_length E) as Hl.
    split; [|split; [reflexivity|right; exact Hl]].
    split; cbn [Whiteboard.text Whiteboard.caretIndex Whiteboard.desiredColumn];
      [rewrite Hl; lia|exact Hd]. }
  destruct (String.eqb key "Delete").
  { destruct (idx <? JS.strLen text)%Z eqn:E; cbn [fst snd];
      [|split; [exact caret_ok|reflexivity]].
    apply Z.ltb_lt in E. pose proof (deleted_length E) as Hl.
    split; [|split; [reflexivity|right; exact Hl]].
    split; cbn [Whiteboard.text Whiteboard.caretIndex Whiteboard.desiredColumn];
      [rewrite Hl; lia|exact Hd]. }
  destruct (String.eqb key "ArrowLeft").
  { cbn [fst snd]. split; [|reflexivity].
    split; cbn [Whiteboard.text Whiteboard.caretIndex Whiteboard.desiredColumn];
      [fold text; lia|discriminate]. }
  destruct (String.eqb key "ArrowRight").
  { cbn [fst snd]. split; [|reflexivity].
    split; cbn [Whiteboard.text Whiteboard.caretIndex Whiteboard.desiredColumn];
      [fold text; lia|discriminate]. }
  destruct (String.eqb key "ArrowUp" || String.eqb key "ArrowDown")%bool.
  { pose proof (indexToLineCol_col_nonneg text idx (proj1 Hb)) as Hcol.
    destruct (Whiteboard.indexToLineCol text idx) as [line col]. cbn [snd] in Hcol.
    cbn [fst snd]. split; [|reflexivity].
    set (desiredCol := match Whiteboard.desiredColumn ed with
                       | Some d => d
                       | None => col
                       end).
    assert (Hdes : (0 <= desiredCol)%Z).
    { unfold desiredCol. destruct (Whiteboard.desiredColumn ed) as [d|];
        [apply Hd; reflexivity|exact Hcol]. }
    split; cbn [Whiteboard.text Whiteboard.caretIndex Whiteboard.desiredColumn].
    - apply lineColToIndex_range.
      match goal with |- (0 <= Z.min _ (JS.strLen ?s))%Z =>
        pose proof (strLen_nonneg s) end.
      lia.
    - intros d Hsome. injection Hsome as <-. exact Hdes. }
  destruct (Nat.eqb (String.length key) 1 && negb isCtrl)%bool eqn:E.
  { apply andb_prop in E. destruct E as [E _]. apply Nat.eqb_eq in E.
    cbn [fst snd]. pose proof (spliced_length key) as Hl.
    unfold JS.strLen at 3 in Hl. rewrite E in Hl. change (Z.of_nat 1) with 1%Z in Hl.
    split; [|split; [reflexivity|left; exact Hl]].
    split; cbn [Whiteboard.text Whiteboard.caretIndex Whiteboard.desiredColumn];
      [rewrite Hl; lia|discriminate]. }
  cbn [fst snd]. split; [exact caret_ok|reflexivity].
Qed.

Lemma backspace_undoes_splice (key : string) (isCtrl : bool) (d : option Z) :
  JS.strLen key = 1%Z ->
  let typed :=
    Whiteboard.mkEditor
      (JS.strSlice text 0 (Some idx) ++ key ++ JS.strSlice text idx None) (idx + 1) d in
  fst (Whiteboard.onKeyDown "Backspace" isCtrl typed) = Whiteboard.UpdateText text
  /\ Whiteboard.text (snd (Whiteboard.onKeyDown "Backspace" isCtrl typed)) = text
  /\ Whiteboard.caretIndex (snd (Whiteboard.onKeyDown "Backspace" isCtrl typed)) = idx.
Proof.
  intros Hkey typed. pose proof caret_bounds as Hb.
  unfold Whiteboard.onKeyDown. cbn [String.eqb Ascii.eqb Bool.eqb andb].
  subst typed. cbn [Whiteboard.text Whiteboard.caretIndex Whiteboard.desiredColumn].
  assert (E : (0 <? idx + 1)%Z = true) by (apply Z.ltb_lt; lia).
  rewrite E. cbn [fst snd Whiteboard.text Whiteboard.caretIndex].
  replace (idx + 1 - 1)%Z with idx by lia.
  pose proof (splice_head text key idx Hb) as Hh. cbv zeta in Hh. rewrite Hh.
  pose proof (splice_tail text key idx Hb) as Ht. cbv zeta in Ht.
  rewrite Hkey in Ht. rewrite Ht.
  rewrite (slices_rejoin text idx Hb). repeat split.
Qed.

End Typing.

(** X18: every key keeps the caret inside the buffer (and a remembered
    column non-negative); a key that calls [updateText] changes the length of
    the text by exactly one character, and the buffer then holds the text
    handed to the store; every other key leaves the text as it was. *)
Theorem X18_onKeyDown_keeps_caret_in_text :
  forall (key : string) (isCtrl : bool) (ed : Whiteboard.Editor),
    caretInRange ed ->
    let r := Whiteboard.onKeyDown key isCtrl ed in
    caretInRange (snd r)
    /\ (forall newText,
           fst r = Whiteboard.UpdateText newText ->
           Whiteboard.text (snd r) = newText
           /\ (JS.strLen newText = (JS.strLen (Whiteboard.text ed) + 1)%Z
               \/ JS.strLen newText = (JS.strLen (Whiteboard.text ed) - 1)%Z))
    /\ (fst r = Whiteboard.NoStoreCall \/ fst r = Whiteboard.CloseEditor ->
        Whiteboard.text (snd r) = Whiteboard.text ed).
Proof.
  intros key isCtrl ed Hok r.
  destruct (onKeyDown_cases ed Hok key isCtrl) as [Hcaret Hcases]. fold r in Hcaret, Hcases.
  split; [exact Hcaret|]. split.
  - intros newText E. rewrite E in Hcases. exact Hcases.
  - intros [E|E]; rewrite E in Hcases; exact Hcases.
Qed.

Lemma X18_witness :
  caretInRange (snd (Whiteboard.onKeyDown "ArrowDown" false editorHi)).
Proof.
  refine (proj1 (X18_onKeyDown_keeps_caret_in_text "ArrowDown" false editorHi _)).
  split; [cbn; lia|discriminate].
Defined.

(** X19: typing a character, or pressing Enter, and then Backspace gives
    back the text and the caret position from before: the store is handed the
    old text again. *)
Theorem X19_backspace_undoes_typing :
  forall (key : string) (isCtrl : bool) (ed : Whiteboard.Editor),
    caretInRange ed ->
    key = "Enter"%string \/ (String.length key = 1%nat /\ isCtrl = false) ->
    let typed := snd (Whiteboard.onKeyDown key isCtrl ed) in
    let back := Whiteboard.onKeyDown "Backspace" isCtrl typed in
    Whiteboard.caretIndex typed = (Whiteboard.caretIndex ed + 1)%Z
    /\ fst back = Whiteboard.UpdateText (Whiteboard.text ed)
    /\ Whiteboard.text (snd back) = Whiteboard.text ed
    /\ Whiteboard.caretIndex (snd back) = Whiteboard.caretIndex ed.
Proof.
  intros key isCtrl ed Hok Hkey typed back. subst back typed.
  destruct Hkey as [->|[Hlen ->]].
  - split; [reflexivity|].
    apply (backspace_undoes_splice ed Hok Whiteboard.newlineString isCtrl
             (Whiteboard.desiredColumn ed)).
    reflexivity.
  - destruct (single_key_is_no_command key Hlen)
      as (E1 & E2 & E3 & E4 & E5 & E6 & E7 & E8).
    unfold Whiteboard.onKeyDown at 1 3 5 7.
    rewrite E1, E2, E3, E4, E5, E6, E7, E8, Hlen.
    cbn [orb Nat.eqb andb negb snd].
    split; [reflexivity|].
    apply (backspace_undoes_splice ed Hok key false None).
    unfold JS.strLen. rewrite Hlen. reflexivity.
Qed.

Lemma X19_witness :
  Whiteboard.text
    (snd (Whiteboard.onKeyDown "Backspace" false
            (snd (Whiteboard.onKeyDown "x" false editorHi))))
  = Whiteboard.text editorHi.
Proof.
  refine (proj1 (proj2 (proj2 (X19_backspace_undoes_typing "x" false editorHi _ _)))).
  - split; [cbn; lia|discriminate].
  - right. split; reflexivity.
Defined.

(** ** Pen pressure *)

Lemma pressure_factor_range (d : R) :
  3 / 10 <= Rmax (3 / 10) (1 - Rmin d 20 / 20)
  /\ (0 <= d -> Rmax (3 / 10) (1 - Rmin d 20 / 20) <= 1)
  /\ (14 <= d -> Rmax (3 / 10) (1 - Rmin d 20 / 20) = 3 / 10)
  /\ (d = 0 -> Rmax (3 / 10) (1 - Rmin d 20 / 20) = 1).
Proof.
  unfold Rmax, Rmin. repeat split; intros; decide_innermost; try lra;
    decide_innermost; lra.
Qed.

(** X20: the simulated pressure draws a pen segment of a stroke of
    non-negative width between [strokeWidth * 0.3] and the full width: the
    full width when the two samples coincide, [strokeWidth * 0.3] when they
    are 15 or more apart, and the same width in either direction. *)
Theorem X20_segmentLineWidth_bounds :
  forall (strokeWidth : R) (current next : Point),
    0 <= strokeWidth ->
    let lineWidth := CanvasRenderer.segmentLineWidth strokeWidth current next in
    strokeWidth * (3 / 10) <= lineWidth <= strokeWidth
    /\ (current = next -> lineWidth = strokeWidth)
    /\ (15 <= HitDetector.distance current next -> lineWidth = strokeWidth * (3 / 10))
    /\ CanvasRenderer.segmentLineWidth strokeWidth next current = lineWidth.
Proof.
  intros w current next Hw lineWidth. subst lineWidth.
  unfold CanvasRenderer.segmentLineWidth, HitDetector.distance.
  set (d := sqrt ((Point.x next - Point.x current) ^ 2
                  + (Point.y next - Point.y current) ^ 2)).
  assert (Hd : 0 <= d) by apply sqrt_pos.
  destruct (pressure_factor_range d) as (Hlo & Hhi & Hfar & Hnear).
  specialize (Hhi Hd).
  split; [|split; [|split]].
  - split; nra.
  - intros ->. rewrite Hnear; [ring|].
    unfold d. replace ((Point.x next - Point.x next) ^ 2
                       + (Point.y next - Point.y next) ^ 2) with 0 by ring.
    apply sqrt_0.
  - intros Hfar'. rewrite Hfar; [reflexivity|]. apply Rle_trans with 15; [lra|].
    unfold d.
    replace ((Point.x next - Point.x current) ^ 2 + (Point.y next - Point.y current) ^ 2)
      with ((Point.x current - Point.x next) ^ 2 + (Point.y current - Point.y next) ^ 2)
      by ring.
    exact Hfar'.
  - f_equal. f_equal. f_equal. f_equal. f_equal. unfold d. f_equal. ring.
Qed.

Lemma X20_witness :
  CanvasRenderer.segmentLineWidth 4 (Point.mk 0 0) (Point.mk 0 0) = 4.
Proof.
  refine (proj1 (proj2 (X20_segmentLineWidth_bounds 4 (Point.mk 0 0) (Point.mk 0 0) _))
            eq_refl).
  lra.
Defined.

(** ** The data-model invariant *)

Lemma wellFormed_fields (s s' : Stroke) :
  Stroke.type s' = Stroke.type s -> Stroke.points s' = Stroke.points s ->
  Stroke.startPoint s' = Stroke.startPoint s -> Stroke.endPoint s' = Stroke.endPoint s ->
  wellFormed s -> wellFormed s'.
Proof.
  unfold wellFormed. intros -> -> -> ->. exact (fun H => H).
Qed.

Lemma wellFormed_translated (s : Stroke) (dx dy : R) :
  wellFormed s -> wellFormed (StrokeUtils.applyTranslation s dx dy).
Proof.
  unfold wellFormed, StrokeUtils.applyTranslation.
  destruct s as [id ty pts col w sp ep tx fs mm sel rot bd]; cbn.
  destruct ty; cbn; try contradiction.
  - intros (Hpts & -> & ->). destruct pts as [|p ps]; [congruence|]. cbn.
    repeat split; discriminate.
  - intros [(sp' & ep' & -> & ->) ->]. cbn. split; [eauto|reflexivity].
  - intros [(sp' & ep' & -> & ->) ->]. cbn. split; [eauto|reflexivity].
  - intros [(sp' & ep' & -> & ->) ->]. cbn. split; [eauto|reflexivity].
  - intros [anchor ->]. cbn. eauto.
Qed.

Lemma wellFormed_rotated (s : Stroke) (angle : R) :
  wellFormed s -> wellFormed (StrokeUtils.applyRotation s angle).
Proof. apply wellFormed_fields; reflexivity. Qed.

Lemma wellFormed_resized (s : Stroke) (handle : string) (dx dy : R) :
  wellFormed s -> wellFormed (StrokeUtils.applyResize s handle dx dy).
Proof.
  unfold wellFormed, StrokeUtils.applyResize.
  destruct s as [id ty pts col w sp ep tx fs mm sel rot bd]; cbn.
  destruct ty; cbn; try contradiction.
  - intros (Hpts & -> & ->). cbn. repeat split; assumption.
  - intros [(sp' & ep' & -> & ->) ->].
    destruct (StrokeUtils.resizedShape handle sp' ep' dx dy) as [a b]. cbn.
    split; [eauto|reflexivity].
  - intros [(sp' & ep' & -> & ->) ->].
    destruct (StrokeUtils.resizedShape handle sp' ep' dx dy) as [a b]. cbn.
    split; [eauto|reflexivity].
  - intros [(sp' & ep' & -> & ->) ->].
    destruct (StrokeUtils.resizedShape handle sp' ep' dx dy) as [a b]. cbn.
    split; [eauto|reflexivity].
  - intros [anchor ->]. cbn. eauto.
Qed.

(** X21: the strokes the [StrokeUtils] constructors build satisfy the
    data-model invariant (a pen stroke has samples and no diagonal, a shape
    its diagonal and no samples, a text exactly its anchor), and moving,
    rotating and resizing a stroke keep it, together with the stroke's id
    and type. *)
Theorem X21_wellFormed_kept_by_StrokeUtils :
  forall (s : Stroke) (handle : string) (dx dy angle : R),
    wellFormed s ->
    (wellFormed (StrokeUtils.applyTranslation s dx dy)
     /\ wellFormed (StrokeUtils.applyRotation s angle)
     /\ wellFormed (StrokeUtils.applyResize s handle dx dy))
    /\ (Stroke.id (StrokeUtils.applyTranslation s dx dy) = Stroke.id s
        /\ Stroke.id (StrokeUtils.applyRotation s angle) = Stroke.id s
        /\ Stroke.id (StrokeUtils.applyResize s handle dx dy) = Stroke.id s)
    /\ (forall id point color width,
           wellFormed (StrokeUtils.createPenStroke id point color width))
    /\ (forall id point text color width fontSize,
           wellFormed (StrokeUtils.createTextStroke id point text color width fontSize))
    /\ (forall id type sp ep color width,
           isShapeType type = true ->
           wellFormed (StrokeUtils.createShapeStroke id type sp ep color width)).
Proof.
  intros s handle dx dy angle Hwf.
  split; [|split; [|split; [|split]]].
  - split; [apply wellFormed_translated; exact Hwf|].
    split; [apply wellFormed_rotated; exact Hwf|apply wellFormed_resized; exact Hwf].
  - split; [|split; [reflexivity|]].
    + unfold StrokeUtils.applyTranslation.
      destruct (Tool.eqb (Stroke.type s) Tool.text), (Stroke.points s),
        (Stroke.startPoint s), (Stroke.endPoint s); reflexivity.
    + unfold StrokeUtils.applyResize.
      destruct (Tool.eqb (Stroke.type s) Tool.text); [reflexivity|].
      destruct (Stroke.startPoint s) as [sp|], (Stroke.endPoint s) as [ep|];
        try reflexivity.
      destruct (StrokeUtils.resizedShape handle sp ep dx dy); reflexivity.
  - intros id point color width. cbn. repeat split; discriminate.
  - intros id point text color width fontSize. cbn. eauto.
  - intros id type sp ep color width Hty.
    destruct type; try discriminate; cbn; (split; [eauto|reflexivity]).
Qed.

Lemma X21_witness :
  wellFormed (StrokeUtils.applyResize rect100x50 "se" 10 20).
Proof.
  refine (proj2 (proj2 (proj1 (X21_wellFormed_kept_by_StrokeUtils rect100x50 "se" 10 20 0 _)))).
  cbn. split; [eauto|reflexivity].
Defined.

(** ** The store keeps the scene well formed *)

Lemma wf_map (f : Stroke -> Stroke) (scene : list Stroke) :
  (forall s, wellFormed s -> wellFormed (f s)) ->
  Forall wellFormed scene -> Forall wellFormed (map f scene).
Proof.
  intros Hf Hscene. apply Forall_forall. intros s' Hin.
  apply in_map_iff in Hin. destruct Hin as (s & <- & Hs).
  apply Hf. rewrite Forall_forall in Hscene. exact (Hscene s Hs).
Qed.

Lemma wf_map_if (c : Stroke -> bool) (f : Stroke -> Stroke) (scene : list Stroke) :
  (forall s, wellFormed s -> wellFormed (f s)) ->
  Forall wellFormed scene ->
  Forall wellFormed (map (fun s => if c s then f s else s) scene).
Proof.
  intros Hf. apply wf_map. intros s Hs. destruct (c s); [apply Hf|]; exact Hs.
Qed.

Lemma wf_kept (p : Stroke -> bool) (scene : list Stroke) :
  Forall wellFormed scene -> Forall wellFormed (filter p scene).
Proof.
  intros Hscene. apply Forall_forall. intros s Hin. apply filter_In in Hin.
  rewrite Forall_forall in Hscene. apply Hscene. exact (proj1 Hin).
Qed.

Lemma wf_appended (scene : list Stroke) (s : Stroke) :
  Forall wellFormed scene -> wellFormed s -> Forall wellFormed (scene ++ [s]).
Proof.
  intros Hscene Hs. apply Forall_app. split; [exact Hscene|]. constructor; [exact Hs|constructor].
Qed.

Lemma wf_flag (b : bool) (s : Stroke) : wellFormed s -> wellFormed (Stroke.withSelected b s).
Proof. apply wellFormed_fields; reflexivity. Qed.

Lemma wf_flags (c : Stroke -> bool) (scene : list Stroke) :
  Forall wellFormed scene ->
  Forall wellFormed (map (fun s => Stroke.withSelected (c s) s) scene).
Proof. apply wf_map. intros s. apply wf_flag. Qed.

Lemma wf_textStrokeOf (e : EditingText) (text : string) (st : Store.State) :
  wellFormed (Store.textStrokeOf e text st).
Proof. cbn. eauto. Qed.

Lemma wf_erased (f : Stroke -> option bool) (scene kept : list Stroke) :
  Store.filterThrow f scene = Some kept ->
  Forall wellFormed scene -> Forall wellFormed kept.
Proof.
  revert kept. induction scene as [|s scene IH]; intros kept Hk Hscene; cbn in Hk.
  - injection Hk as <-. constructor.
  - destruct (f s) as [keep|]; [|discriminate].
    destruct (Store.filterThrow f scene) as [rest|]; [|discriminate].
    injection Hk as <-. inversion Hscene as [|? ? Hs Hscene']; subst.
    destruct keep; [constructor; [exact Hs|]|]; apply IH; auto.
Qed.

Lemma wf_snapshot (history : list (list Stroke)) (i : Z) (snapshot : list Stroke) :
  Forall (Forall wellFormed) history -> JS.index history i = Some snapshot ->
  Forall wellFormed snapshot.
Proof.
  intros Hh Hi. unfold JS.index in Hi. destruct (i <? 0)%Z; [discriminate|].
  apply nth_error_In in Hi. rewrite Forall_forall in Hh. exact (Hh _ Hi).
Qed.

Lemma snapshot_of_prefix (history : list (list Stroke)) (n : nat) (snapshot : list Stroke) :
  In snapshot (firstn n history) -> In snapshot history.
Proof.
  revert history. induction n as [|n IH]; intros [|h history] Hin; cbn in Hin;
    try contradiction.
  destruct Hin as [<-|Hin]; [left; reflexivity|right; apply IH; exact Hin].
Qed.

Lemma wf_slice0 (history : list (list Stroke)) (e : Z) :
  Forall (Forall wellFormed) history -> Forall (Forall wellFormed) (JS.slice0 history e).
Proof.
  intros Hh. unfold JS.slice0.
  destruct (e <? 0)%Z; apply Forall_forall; intros x Hx;
    rewrite Forall_forall in Hh; apply Hh; eapply snapshot_of_prefix; exact Hx.
Qed.

Lemma named_once_found (id : string) (scene : list Stroke) (found s : Stroke) :
  namedOnce id scene ->
  JS.find (fun s => String.eqb (Stroke.id s) id) scene = Some found ->
  In s scene -> String.eqb (Stroke.id s) id = true -> s = found.
Proof.
  unfold namedOnce, JS.find. intros Hone Hfind Hin Hid.
  apply find_some in Hfind. destruct Hfind as [Hfin Hfid].
  assert (Ha : In s (filter (fun s => String.eqb (Stroke.id s) id) scene))
    by (apply filter_In; split; assumption).
  assert (Hb : In found (filter (fun s => String.eqb (Stroke.id s) id) scene))
    by (apply filter_In; split; assumption).
  destruct (filter (fun s => String.eqb (Stroke.id s) id) scene) as [|a [|b rest]];
    cbn in *; try lia; try contradiction.
  destruct Ha as [<-|[]], Hb as [<-|[]]. reflexivity.
Qed.

Lemma resizeFontSwitch_agrees (handle : string) (currentFontSize deltaY : R) :
  Store.resizeFontSwitch handle currentFontSize deltaY
  = StrokeUtils.resizedFontSize handle currentFontSize deltaY.
Proof.
  unfold Store.resizeFontSwitch, StrokeUtils.resizedFontSize.
  destruct (String.eqb_spec handle "se") as [->|Hse]; [reflexivity|].
  destruct (String.eqb_spec handle "sw") as [->|Hsw]; [reflexivity|].
  destruct (String.eqb_spec handle "ne") as [->|Hne]; [reflexivity|].
  destruct (String.eqb_spec handle "nw") as [->|Hnw]; [reflexivity|].
  destruct (String.eqb_spec handle "s") as [->|Hs]; [reflexivity|].
  destruct (String.eqb_spec handle "n") as [->|Hn]; reflexivity.
Qed.

Lemma resizeShapeSwitch_agrees (handle : string) (sp ep : Point) (deltaX deltaY : R) :
  Store.resizeShapeSwitch handle sp ep deltaX deltaY
  = StrokeUtils.resizedShape handle sp ep deltaX deltaY.
Proof.
  unfold Store.resizeShapeSwitch, StrokeUtils.resizedShape. cbn [Point.x Point.y].
  repeat match goal with
         | |- context [String.eqb handle ?h] => destruct (String.eqb handle h)
         end; reflexivity.
Qed.

(** The store's own resize code and [StrokeUtils.applyResize] agree on a
    stroke whose id is its own. *)
Lemma updateResize_strokes (point ds : Point) (handle id : string) (stroke : Stroke)
    (st : Store.State) :
  Store.resizeHandle st = Some handle -> JS.truthyStr (Some handle) = true ->
  Store.dragStart st = Some ds -> Store.selectedStrokes st = [id] ->
  JS.find (fun s => String.eqb (Stroke.id s) id) (Store.strokes st) = Some stroke ->
  namedOnce id (Store.strokes st) ->
  Store.strokes (Store.updateResize point st)
  = map (fun s => if String.eqb (Stroke.id s) id
                  then StrokeUtils.applyResize s handle
                         (Point.x point - Point.x ds) (Point.y point - Point.y ds)
                  else s)
        (Store.strokes st).
Proof.
  intros Hh Htruthy Hds Hsel Hfind Hone. unfold Store.updateResize.
  rewrite Hh, Hds, Hsel, Htruthy, Hfind. cbn [negb Store.strokes Store.set_strokes].
  assert (Hsame : forall s, In s (Store.strokes st) ->
                            String.eqb (Stroke.id s) id = true -> s = stroke)
    by (intros s; apply named_once_found; assumption).
  destruct (Tool.eqb (Stroke.type stroke) Tool.text) eqn:Ety.
  - apply map_ext_in. intros s Hin.
    destruct (String.eqb (Stroke.id s) id) eqn:Eid; [|reflexivity].
    rewrite (Hsame s Hin Eid). unfold StrokeUtils.applyResize.
    rewrite Ety, resizeFontSwitch_agrees. reflexivity.
  - destruct (Stroke.startPoint stroke) as [sp|] eqn:Esp;
      [destruct (Stroke.endPoint stroke) as [ep|] eqn:Eep|].
    + rewrite resizeShapeSwitch_agrees.
      destruct (StrokeUtils.resizedShape handle sp ep _ _) as [a b] eqn:Eab.
      apply map_ext_in. intros s Hin.
      destruct (String.eqb (Stroke.id s) id) eqn:Eid; [|reflexivity].
      rewrite (Hsame s Hin Eid). unfold StrokeUtils.applyResize.
      rewrite Ety, Esp, Eep, Eab. reflexivity.
    + rewrite <- (map_id (Store.strokes st)) at 1. apply map_ext_in. intros s Hin.
      destruct (String.eqb (Stroke.id s) id) eqn:Eid; [|reflexivity].
      rewrite (Hsame s Hin Eid). unfold StrokeUtils.applyResize.
      rewrite Ety, Esp, Eep. reflexivity.
    + rewrite <- (map_id (Store.strokes st)) at 1. apply map_ext_in. intros s Hin.
      destruct (String.eqb (Stroke.id s) id) eqn:Eid; [|reflexivity].
      rewrite (Hsame s Hin Eid). unfold StrokeUtils.applyResize.
      rewrite Ety, Esp. reflexivity.
Qed.

Lemma updateResize_idle (point : Point) (st : Store.State) :
  (forall handle ds id stroke,
      Store.resizeHandle st = Some handle -> JS.truthyStr (Some handle) = true ->
      Store.dragStart st = Some ds -> Store.selectedStrokes st = [id] ->
      JS.find (fun s => String.eqb (Stroke.id s) id) (Store.strokes st) = Some stroke ->
      False) ->
  Store.updateResize point st = st.
Proof.
  intros Hidle. unfold Store.updateResize.
  destruct (Store.resizeHandle st) as [handle|] eqn:Eh; [|reflexivity].
  destruct (Store.dragStart st) as [ds|] eqn:Eds; [|reflexivity].
  destruct (Store.selectedStrokes st) as [|id [|other rest]] eqn:Esel; try reflexivity.
  destruct (JS.truthyStr (Some handle)) eqn:Et; [|reflexivity]. cbn [negb].
  destruct (JS.find _ (Store.strokes st)) as [stroke|] eqn:Efind; [|reflexivity].
  elim (Hidle handle ds id stroke); auto.
Qed.

Ltac scene_auto :=
  first
    [ assumption
    | apply wf_flags; assumption
    | apply wf_kept; assumption
    | apply wf_appended; [assumption | solve [auto | apply wf_textStrokeOf]]
    | apply wf_map_if;
      [ intros ? ?;
        first [apply wellFormed_translated | apply wellFormed_fields; try reflexivity];
        assumption
      | assumption ]
    | apply wf_map;
      [ intros ? ?; apply wellFormed_fields; try reflexivity; assumption | assumption ]
    | constructor ].

Lemma step_scene (ctx : Ctx2d) (op : Store.Op) (st st' : Store.State) :
  sceneWellFormed st -> handsOverWellFormed op st ->
  Store.step ctx op st = Some st' -> Forall wellFormed (Store.strokes st').
Proof.
  intros [Hscene Hhist] Hguard Hstep.
  destruct op; cbn [Store.step] in Hstep; try (injection Hstep as <-);
    cbn [handsOverWellFormed] in Hguard.
  all: try (store_unfold; split_guards; cbn; scene_auto).
  - (* setCurrentColor *)
    unfold Store.setCurrentColor.
    destruct (_ && _)%bool; cbn; [|exact Hscene].
    apply (wf_map_if (fun s => JS.includes (Store.selectedStrokes st) (Stroke.id s))
             (Stroke.withColor color)); [|exact Hscene].
    intros s. apply wellFormed_fields; reflexivity.
  - (* updateResize *)
    destruct (Store.resizeHandle st) as [handle|] eqn:Eh;
      [|rewrite updateResize_idle; [exact Hscene|intros; congruence]].
    destruct (JS.truthyStr (Some handle)) eqn:Et;
      [|rewrite updateResize_idle; [exact Hscene|intros; congruence]].
    destruct (Store.dragStart st) as [ds|] eqn:Eds;
      [|rewrite updateResize_idle; [exact Hscene|intros; congruence]].
    destruct (Store.selectedStrokes st) as [|id [|other rest]] eqn:Esel;
      try (rewrite updateResize_idle; [exact Hscene|intros; congruence]).
    destruct (JS.find (fun s => String.eqb (Stroke.id s) id) (Store.strokes st))
      as [stroke|] eqn:Efind.
    2:{ rewrite updateResize_idle; [exact Hscene|].
        intros ? ? id' ? _ _ _ Hs Hf. rewrite Esel in Hs. injection Hs as <-.
        rewrite Efind in Hf. discriminate. }
    rewrite (updateResize_strokes point ds handle id stroke st Eh Et Eds Esel Efind
               (Hguard id eq_refl)).
    apply (wf_map_if (fun s => String.eqb (Stroke.id s) id)
             (fun s => StrokeUtils.applyResize s handle _ _)); [|exact Hscene].
    intros s. apply wellFormed_resized.
  - (* updateRotate *)
    unfold Store.updateRotate.
    destruct (Store.isRotating st); [|exact Hscene].
    destruct (Store.rotateStart st) as [rs|]; [|exact Hscene].
    destruct (Store.selectedStrokes st) as [|id [|other rest]]; try exact Hscene.
    destruct (JS.find _ (Store.strokes st)) as [stroke|]; [|exact Hscene].
    cbn [Store.strokes Store.set_strokes].
    apply wf_map; [|exact Hscene]. intros s Hs. destruct (String.eqb (Stroke.id s) id); [|exact Hs].
    revert Hs. apply wellFormed_fields; reflexivity.
  - (* updateText *)
    unfold Store.updateText.
    destruct (Store.editingText st) as [e|]; [|exact Hscene].
    destruct (JS.find _ (Store.strokes st)) as [existing|].
    + destruct (Tool.eqb (Stroke.type existing) Tool.text).
      * cbn. apply wf_map; [|exact Hscene]. intros s Hs.
        destruct (String.eqb (Stroke.id s) (Stroke.id existing)); [|exact Hs].
        revert Hs. apply wellFormed_fields; reflexivity.
      * destruct (negb (String.eqb text EmptyString)); cbn; [|exact Hscene].
        apply wf_appended; [exact Hscene|apply wf_textStrokeOf].
    + destruct (negb (String.eqb text EmptyString)); cbn; [|exact Hscene].
      apply wf_appended; [exact Hscene|apply wf_textStrokeOf].
  - (* finishTextEdit *)
    unfold Store.finishTextEdit.
    destruct (Store.editingText st) as [e|]; [|exact Hscene].
    destruct (negb (JS.trimTruthy (EditingText.text e))); [exact Hscene|].
    assert (Hcreate : Forall wellFormed
                        (Store.strokes st ++ [Store.textStrokeOf e (EditingText.text e) st]))
      by (apply wf_appended; [exact Hscene|apply wf_textStrokeOf]).
    destruct (JS.find _ (Store.strokes st)) as [existing|]; [|exact Hcreate].
    destruct (Tool.eqb (Stroke.type existing) Tool.text); [|exact Hcreate].
    cbn. apply wf_map; [|exact Hscene]. intros s Hs.
    destruct (String.eqb (Stroke.id s) (EditingText.id e)); [|exact Hs].
    revert Hs. apply wellFormed_fields; reflexivity.
  - (* eraseAtPoint *)
    destruct (eraseAtPoint_cases x y radius st st' Hstep)
      as (kept & Hk & [[_ ->]|[_ ->]]); [|exact Hscene].
    cbn. exact (wf_erased _ _ _ Hk Hscene).
  - (* undo *)
    unfold Store.undo in Hstep. destruct (0 <? Store.historyIndex st)%Z.
    + destruct (JS.index (Store.history st) _) as [snapshot|] eqn:Ei; [|discriminate].
      injection Hstep as <-. cbn. exact (wf_snapshot _ _ _ Hhist Ei).
    + injection Hstep as <-. exact Hscene.
  - (* redo *)
    unfold Store.redo in Hstep.
    destruct (Store.historyIndex st <? JS.len (Store.history st) - 1)%Z.
    + destruct (JS.index (Store.history st) _) as [snapshot|] eqn:Ei; [|discriminate].
      injection Hstep as <-. cbn. exact (wf_snapshot _ _ _ Hhist Ei).
    + injection Hstep as <-. exact Hscene.
Qed.

Lemma step_snapshots (ctx : Ctx2d) (op : Store.Op) (st st' : Store.State) :
  sceneWellFormed st -> handsOverWellFormed op st ->
  Store.step ctx op st = Some st' -> Forall (Forall wellFormed) (Store.history st').
Proof.
  intros Hwf Hguard Hstep.
  pose proof (step_scene ctx op st st' Hwf Hguard Hstep) as Hscene'.
  destruct Hwf as [Hscene Hhist].
  destruct (commits op st) eqn:Hc.
  - destruct (commit_pushes ctx op st st' Hc Hstep) as [Hh _]. rewrite Hh.
    apply Forall_app. split; [apply wf_slice0; exact Hhist|].
    constructor; [exact Hscene'|constructor].
  - destruct (rewinds op) eqn:Hr.
    + destruct op; cbn in Hr; try discriminate; cbn [Store.step] in Hstep.
      * unfold Store.undo in Hstep. destruct (0 <? Store.historyIndex st)%Z.
        -- destruct (JS.index (Store.history st) _); [|discriminate].
           injection Hstep as <-. exact Hhist.
        -- injection Hstep as <-. exact Hhist.
      * unfold Store.redo in Hstep.
        destruct (Store.historyIndex st <? JS.len (Store.history st) - 1)%Z.
        -- destruct (JS.index (Store.history st) _); [|discriminate].
           injection Hstep as <-. exact Hhist.
        -- injection Hstep as <-. exact Hhist.
      * injection Hstep as <-. cbn. repeat constructor.
      * injection Hstep as <-. cbn. constructor; [exact Hguard|constructor].
    + destruct (no_commit_keeps ctx op st st' Hc Hr Hstep) as [Hh _].
      rewrite Hh. exact Hhist.
Qed.

(** X22: the store keeps the scene well formed.  If the scene and every
    snapshot of the history hold well-formed strokes, and the caller hands
    over well-formed strokes ([addStroke], the stroke being drawn at
    [finishStroke] / [finishShape], [loadDocument]) and resizes a stroke
    whose id is its own, then after any of the store's operations the scene
    and every snapshot are well formed again; the initial state is. *)
Theorem X22_store_keeps_scene_wellFormed :
  forall (ctx : Ctx2d) (op : Store.Op) (st st' : Store.State),
    sceneWellFormed st -> handsOverWellFormed op st ->
    Store.step ctx op st = Some st' ->
    sceneWellFormed st' /\ sceneWellFormed Store.initialState.
Proof.
  intros ctx op st st' Hwf Hguard Hstep. split.
  - split; [exact (step_scene ctx op st st' Hwf Hguard Hstep)
           |exact (step_snapshots ctx op st st' Hwf Hguard Hstep)].
  - split; cbn; repeat constructor.
Qed.

Lemma X22_witness : sceneWellFormed onePenState.
Proof.
  refine (proj1 (X22_store_keeps_scene_wellFormed None (Store.AddStroke penAt20)
                   Store.initialState onePenState _ _ eq_refl)).
  - split; cbn; repeat constructor.
  - cbn. repeat split; discriminate.
Defined.

(** X23: while a resize is under way on a stroke whose id is its own, each
    [updateResize] of the store changes the scene exactly as
    [StrokeUtils.applyResize] changes that stroke, by the pointer's movement
    since the last update; the other strokes, the selection and the history
    stay as they are, and the pointer position becomes the new reference. *)
Theorem X23_updateResize_is_applyResize :
  forall (point ds : Point) (handle id : string) (stroke : Stroke) (st : Store.State),
    Store.resizeHandle st = Some handle -> JS.truthyStr (Some handle) = true ->
    Store.dragStart st = Some ds -> Store.selectedStrokes st = [id] ->
    JS.find (fun s => String.eqb (Stroke.id s) id) (Store.strokes st) = Some stroke ->
    namedOnce id (Store.strokes st) ->
    let st' := Store.updateResize point st in
    Store.strokes st'
    = map (fun s => if String.eqb (Stroke.id s) id
                    then StrokeUtils.applyResize s handle
                           (Point.x point - Point.x ds) (Point.y point - Point.y ds)
                    else s)
          (Store.strokes st)
    /\ Store.dragStart st' = Some point
    /\ Store.resizeHandle st' = Some handle
    /\ Store.selectedStrokes st' = [id]
    /\ Store.history st' = Store.history st
    /\ Store.historyIndex st' = Store.historyIndex st.
Proof.
  intros point ds handle id stroke st Hh Ht Hds Hsel Hfind Hone st'.
  split; [exact (updateResize_strokes point ds handle id stroke st Hh Ht Hds Hsel Hfind Hone)|].
  subst st'. unfold Store.updateResize. rewrite Hh, Hds, Hsel, Ht, Hfind.
  cbn. repeat split; assumption.
Qed.

Lemma X23_witness :
  Store.strokes
    (Store.updateResize (Point.mk 10 20)
       (Store.startResize "se" (Point.mk 0 0)
          (Store.selectStroke "r" false (Store.addStroke rect100x50 Store.initialState))))
  = [StrokeUtils.applyResize (Stroke.withSelected true rect100x50) "se" (10 - 0) (20 - 0)].
Proof.
  refine (proj1 (X23_updateResize_is_applyResize (Point.mk 10 20) (Point.mk 0 0) "se" "r"
                   (Stroke.withSelected true rect100x50)
                   (Store.startResize "se" (Point.mk 0 0)
                      (Store.selectStroke "r" false
                         (Store.addStroke rect100x50 Store.initialState)))
                   eq_refl eq_refl eq_refl eq_refl eq_refl _)).
  unfold namedOnce. cbn. lia.
Defined.

(** ** A text editing session *)

Section TextSession.

Variables (now : string) (point : Point) (st : Store.State).
Hypothesis fresh : forall s, In s (Store.strokes st) -> Stroke.id s <> now.

Let e0 : EditingText :=
  EditingText.mk now (Point.x point) (Point.y point) EmptyString false.

Lemma fresh_not_found (scene : list Stroke) :
  (forall s, In s scene -> Stroke.id s <> now) ->
  JS.find (fun s => String.eqb (Stroke.id s) now) scene = None.
Proof.
  intros Hfresh. unfold JS.find.
  destruct (List.find _ scene) as [s|] eqn:E; [|reflexivity].
  apply find_some in E. destruct E as [Hin Hid]. apply String.eqb_eq in Hid.
  elim (Hfresh s Hin Hid).
Qed.

Lemma fresh_then_found (scene : list Stroke) (s : Stroke) :
  (forall s, In s scene -> Stroke.id s <> now) -> Stroke.id s = now ->
  JS.find (fun s => String.eqb (Stroke.id s) now) (scene ++ [s]) = Some s.
Proof.
  intros Hfresh Hid. unfold JS.find. induction scene as [|a scene IH]; cbn.
  - rewrite Hid, String.eqb_refl. reflexivity.
  - destruct (String.eqb (Stroke.id a) now) eqn:E.
    + apply String.eqb_eq in E. elim (Hfresh a (or_introl eq_refl) E).
    + apply IH. intros b Hb. apply Hfresh. right; exact Hb.
Qed.

Lemma fresh_untouched (f : Stroke -> Stroke) (scene : list Stroke) (s : Stroke) :
  (forall s, In s scene -> Stroke.id s <> now) -> Stroke.id s = now ->
  map (fun a => if String.eqb (Stroke.id a) now then f a else a) (scene ++ [s])
  = scene ++ [f s].
Proof.
  intros Hfresh Hid. rewrite map_app. cbn. rewrite Hid, String.eqb_refl. f_equal.
  rewrite <- (map_id scene) at 2. apply map_ext_in. intros a Ha.
  destruct (String.eqb (Stroke.id a) now) eqn:E; [|reflexivity].
  apply String.eqb_eq in E. elim (Hfresh a Ha E).
Qed.

Lemma first_keystroke (t1 : string) :
  t1 <> EmptyString ->
  Store.updateText t1 (Store.startTextEdit now point st)
  = Store.set_isModified true
      (Store.set_strokes (Store.strokes st ++ [Store.textStrokeOf e0 t1 st])
         (Store.set_editingText (Some (Store.editingWithText t1 e0)) st)).
Proof.
  intros Ht. unfold Store.updateText, Store.startTextEdit.
  cbn [Store.editingText Store.set_editingText Store.strokes].
  fold e0. cbn [EditingText.id e0]. rewrite (fresh_not_found _ fresh).
  destruct (String.eqb t1 EmptyString) eqn:E;
    [apply String.eqb_eq in E; contradiction|].
  cbn [negb]. destruct st; reflexivity.
Qed.

Lemma later_keystroke (t1 t2 : string) :
  t1 <> EmptyString ->
  let st1 := Store.updateText t1 (Store.startTextEdit now point st) in
  Store.updateText t2 st1
  = Store.set_isModified true
      (Store.set_strokes
         (Store.strokes st ++ [Stroke.withText t2 (Store.textStrokeOf e0 t1 st)])
         (Store.set_editingText (Some (Store.editingWithText t2 e0)) st)).
Proof.
  intros Ht st1. subst st1. rewrite (first_keystroke t1 Ht).
  unfold Store.updateText.
  cbn [Store.editingText Store.set_editingText Store.set_isModified Store.set_strokes
       Store.strokes].
  cbn [Store.editingWithText EditingText.id e0].
  assert (Hid : Stroke.id (Store.textStrokeOf e0 t1 st) = now) by reflexivity.
  rewrite (fresh_then_found _ _ fresh Hid).
  cbn [Store.textStrokeOf Stroke.type Tool.eqb Stroke.id EditingText.id e0].
  rewrite (fresh_untouched (Stroke.withText t2) _ _ fresh Hid).
  destruct st; reflexivity.
Qed.

End TextSession.

(** X24: a text editing session on a fresh id.  The first keystroke puts
    one text stroke at the end of the scene and every later keystroke
    rewrites that stroke's text in place, all without touching the history;
    finishing the edit leaves the scene exactly as the last keystroke left
    it and closes the editor.  If the text has a character that is not white
    space the finish pushes that scene as one snapshot and switches to the
    select tool; if the text is blank the finish writes no history at all,
    although the blank stroke is in the scene. *)
Theorem X24_text_editing_session :
  forall (now : string) (point : Point) (st : Store.State) (t1 t2 : string),
    (forall s, In s (Store.strokes st) -> Stroke.id s <> now) ->
    t1 <> EmptyString ->
    let e0 := EditingText.mk now (Point.x point) (Point.y point) EmptyString false in
    let typed := Store.updateText t2 (Store.updateText t1 (Store.startTextEdit now point st)) in
    let finished := Store.finishTextEdit typed in
    Store.strokes typed
    = Store.strokes st ++ [Stroke.withText t2 (Store.textStrokeOf e0 t1 st)]
    /\ Store.history typed = Store.history st
    /\ Store.historyIndex typed = Store.historyIndex st
    /\ Store.strokes finished = Store.strokes typed
    /\ Store.editingText finished = None
    /\ (JS.trimTruthy t2 = true ->
        Store.history finished
        = JS.slice0 (Store.history st) (Store.historyIndex st + 1) ++ [Store.strokes typed]
        /\ Store.currentTool finished = Tool.select)
    /\ (JS.trimTruthy t2 = false ->
        Store.history finished = Store.history st
        /\ Store.historyIndex finished = Store.historyIndex st
        /\ Store.currentTool finished = Store.currentTool st).
Proof.
  intros now point st t1 t2 Hfresh Ht e0 typed finished.
  assert (Htyped : typed
                   = Store.set_isModified true
                       (Store.set_strokes
                          (Store.strokes st
                           ++ [Stroke.withText t2 (Store.textStrokeOf e0 t1 st)])
                          (Store.set_editingText (Some (Store.editingWithText t2 e0)) st)))
    by (apply (later_keystroke now point st Hfresh t1 t2 Ht)).
  assert (Hid : Stroke.id (Stroke.withText t2 (Store.textStrokeOf e0 t1 st)) = now)
    by reflexivity.
  subst finished. rewrite Htyped. clear Htyped typed.
  split; [reflexivity|]. split; [reflexivity|]. split; [reflexivity|].
  unfold Store.finishTextEdit.
  cbn [Store.editingText Store.set_editingText Store.set_isModified Store.set_strokes
       Store.strokes Store.editingWithText EditingText.text EditingText.id].
  destruct (JS.trimTruthy t2) eqn:Etrim; cbn [negb].
  - cbn [e0 EditingText.id].
    rewrite (fresh_then_found now (Store.strokes st) _ Hfresh Hid).
    cbn [Stroke.withText Stroke.type Store.textStrokeOf Tool.eqb].
    match goal with
    | |- context [map ?g (Store.strokes st ++ [?s])] =>
        assert (Hmap : map g (Store.strokes st ++ [s]) = Store.strokes st ++ [s])
    end.
    { rewrite map_app. cbn. rewrite String.eqb_refl. f_equal.
      rewrite <- (map_id (Store.strokes st)) at 2. apply map_ext_in. intros a Ha.
      destruct (String.eqb (Stroke.id a) now) eqn:E; [|reflexivity].
      apply String.eqb_eq in E. elim (Hfresh a Ha E). }
    rewrite Hmap. destruct st; cbn.
    split; [reflexivity|]. split; [reflexivity|].
    split; [intros _; split; reflexivity|discriminate].
  - destruct st; cbn. split; [reflexivity|]. split; [reflexivity|].
    split; [discriminate|intros _; repeat split].
Qed.

Lemma X24_witness :
  Store.strokes
    (Store.finishTextEdit
       (Store.updateText "Hi" (Store.updateText "H" (Store.startTextEdit "t" (Point.mk 1 2)
                                                       onePenState))))
  = Store.strokes
      (Store.updateText "Hi" (Store.updateText "H" (Store.startTextEdit "t" (Point.mk 1 2)
                                                      onePenState))).
Proof.
  refine (proj1 (proj2 (proj2 (proj2
            (X24_text_editing_session "t" (Point.mk 1 2) onePenState "H" "Hi" _ _))))).
  - intros s [<-|[]]. discriminate.
  - discriminate.
Defined.

(** ** Deleting, erasing and documents *)

Lemma pushed_index (snapshot : list Stroke) (st : Store.State) :
  indexInRange st ->
  Store.historyIndex (Store.pushHistory snapshot st) = (Store.historyIndex st + 1)%Z.
Proof.
  intros [H0 H1]. rewrite pushHistory_index, pushHistory_history.
  unfold JS.len in *. rewrite length_app, slice0_next by exact H0.
  rewrite length_firstn. cbn [List.length]. lia.
Qed.

Lemma pushed_keeps_prefix (snapshot : list Stroke) (st : Store.State) :
  indexInRange st ->
  JS.index (Store.history (Store.pushHistory snapshot st)) (Store.historyIndex st)
  = JS.index (Store.history st) (Store.historyIndex st).
Proof.
  intros [H0 H1]. rewrite pushHistory_history, slice0_next by exact H0.
  unfold JS.index, JS.len in *.
  destruct (Store.historyIndex st <? 0)%Z; [reflexivity|].
  rewrite nth_error_app1 by (rewrite length_firstn; lia).
  rewrite nth_error_firstn.
  destruct (Nat.ltb_spec (Z.to_nat (Store.historyIndex st))
              (S (Z.to_nat (Store.historyIndex st)))); [reflexivity|lia].
Qed.

Lemma undo_after_push (st st' : Store.State) (snapshot : list Stroke) :
  indexInRange st ->
  Store.history st' = Store.history (Store.pushHistory snapshot st) ->
  Store.historyIndex st' = Store.historyIndex (Store.pushHistory snapshot st) ->
  exists back,
    Store.undo st' = Some back
    /\ JS.index (Store.history st) (Store.historyIndex st) = Some (Store.strokes back)
    /\ Store.historyIndex back = Store.historyIndex st.
Proof.
  intros Hin Hh Hi.
  pose proof (pushed_index snapshot st Hin) as Hidx.
  destruct (index_in_range _ (Store.history st) (Store.historyIndex st) Hin)
    as (previous & Hs).
  unfold Store.undo. rewrite Hi, Hidx, Hh.
  replace (Store.historyIndex st + 1 - 1)%Z with (Store.historyIndex st) by lia.
  rewrite (pushed_keeps_prefix snapshot st Hin), Hs.
  assert (E : (0 <? Store.historyIndex st + 1)%Z = true)
    by (apply Z.ltb_lt; destruct Hin; lia).
  rewrite E. eexists. split; [reflexivity|]. split; reflexivity.
Qed.

(** X25: [deleteSelected] keeps exactly the strokes whose id is not
    selected, empties the selection and always pushes one snapshot: with an
    empty selection the scene stays as it is and the history still grows by
    one step, which one [undo] takes back.  A second [deleteSelected]
    changes no stroke. *)
Theorem X25_deleteSelected_always_commits :
  forall (st : Store.State),
    indexInRange st ->
    let st' := Store.deleteSelected st in
    (forall s, In s (Store.strokes st') <->
               In s (Store.strokes st) /\ ~ In (Stroke.id s) (Store.selectedStrokes st))
    /\ Store.selectedStrokes st' = []
    /\ Store.historyIndex st' = (Store.historyIndex st + 1)%Z
    /\ sceneIsCurrentSnapshot st'
    /\ (exists back,
          Store.undo st' = Some back
          /\ JS.index (Store.history st) (Store.historyIndex st) = Some (Store.strokes back)
          /\ Store.historyIndex back = Store.historyIndex st)
    /\ (Store.selectedStrokes st = [] -> Store.strokes st' = Store.strokes st)
    /\ Store.strokes (Store.deleteSelected st') = Store.strokes st'.
Proof.
  intros st Hin st'. subst st'.
  split; [|split; [|split; [|split; [|split; [|split]]]]].
  - intros s. unfold Store.deleteSelected.
    cbn [Store.strokes Store.set_strokes]. rewrite filter_In.
    split; intros [H1 H2]; (split; [exact H1|]).
    + intros Hc. apply includes_In in Hc. rewrite Hc in H2. discriminate.
    + destruct (JS.includes (Store.selectedStrokes st) (Stroke.id s)) eqn:E;
        [|reflexivity].
      apply includes_In in E. contradiction.
  - reflexivity.
  - unfold Store.deleteSelected.
    cbn [Store.historyIndex Store.set_strokes Store.set_selectedStrokes].
    apply pushed_index; exact Hin.
  - unfold sceneIsCurrentSnapshot, Store.deleteSelected.
    cbn [Store.history Store.historyIndex Store.strokes Store.set_strokes
         Store.set_selectedStrokes].
    rewrite pushHistory_index, pushHistory_history. apply index_last.
  - apply (undo_after_push st (Store.deleteSelected st)
             (filter (fun stroke =>
                        negb (JS.includes (Store.selectedStrokes st) (Stroke.id stroke)))
                     (Store.strokes st)) Hin); reflexivity.
  - intros Hsel. unfold Store.deleteSelected. cbn [Store.strokes Store.set_strokes].
    rewrite Hsel. apply filter_keeps_all. reflexivity.
  - unfold Store.deleteSelected at 1. cbn [Store.strokes Store.set_strokes].
    apply filter_keeps_all. reflexivity.
Qed.

Lemma X25_witness :
  Store.historyIndex (Store.deleteSelected onePenState)
  = (Store.historyIndex onePenState + 1)%Z.
Proof.
  refine (proj1 (proj2 (proj2 (X25_deleteSelected_always_commits onePenState _)))).
  exact (reachable_indexInRange monoCtx onePenState onePenState_reachable).
Defined.

Lemma erased_again (f : Stroke -> option bool) (scene kept : list Stroke) :
  Store.filterThrow f scene = Some kept -> Store.filterThrow f kept = Some kept.
Proof.
  revert kept. induction scene as [|s scene IH]; intros kept Hk; cbn in Hk.
  - injection Hk as <-. reflexivity.
  - destruct (f s) as [keep|] eqn:Es; [|discriminate].
    destruct (Store.filterThrow f scene) as [rest|]; [|discriminate].
    injection Hk as <-. destruct keep; [|apply IH; reflexivity].
    cbn. rewrite Es, (IH rest eq_refl). reflexivity.
Qed.

Lemma erased_from_scene (f : Stroke -> option bool) (scene kept : list Stroke) :
  Store.filterThrow f scene = Some kept ->
  forall s, In s kept -> In s scene /\ f s = Some true.
Proof.
  revert kept. induction scene as [|a scene IH]; intros kept Hk s Hs; cbn in Hk.
  - injection Hk as <-. contradiction.
  - destruct (f a) as [keep|] eqn:Ea; [|discriminate].
    destruct (Store.filterThrow f scene) as [rest|]; [|discriminate].
    injection Hk as <-. destruct keep.
    + destruct Hs as [<-|Hs]; [split; [left; reflexivity|exact Ea]|].
      destruct (IH rest eq_refl s Hs) as [H1 H2]. split; [right; exact H1|exact H2].
    + destruct (IH rest eq_refl s Hs) as [H1 H2]. split; [right; exact H1|exact H2].
Qed.

(** X26: erasing only removes: every stroke left by [eraseAtPoint] was in
    the scene and passes the eraser's keep test, the scene never grows, and
    erasing once more at the same place with the same radius changes
    nothing: no stroke goes and no second snapshot is pushed. *)
Theorem X26_eraseAtPoint_idempotent :
  forall (x y radius : R) (st st' : Store.State),
    Store.eraseAtPoint x y radius st = Some st' ->
    (forall s, In s (Store.strokes st') ->
               In s (Store.strokes st) /\ Store.eraseKeeps x y radius s = Some true)
    /\ (List.length (Store.strokes st') <= List.length (Store.strokes st))%nat
    /\ Store.eraseAtPoint x y radius st' = Some st'.
Proof.
  intros x y radius st st' Hstep.
  destruct (eraseAtPoint_cases x y radius st st' Hstep) as (kept & Hk & Hcases).
  assert (Hstrokes : Store.strokes st' = kept).
  { destruct Hcases as [[_ ->]|[Hlen ->]]; [reflexivity|].
    pose proof (erased_again _ _ _ Hk) as Hagain.
    clear Hstep. revert kept Hk Hlen Hagain.
    induction (Store.strokes st) as [|a scene IH]; intros kept Hk Hlen Hagain; cbn in Hk.
    - injection Hk as <-. reflexivity.
    - destruct (Store.eraseKeeps x y radius a) as [keep|]; [|discriminate].
      destruct (Store.filterThrow _ scene) as [rest|] eqn:Er; [|discriminate].
      injection Hk as <-.
      assert (Hle : (List.length rest <= List.length scene)%nat).
      { clear -Er. revert rest Er. induction scene as [|b scene IH]; intros rest Er; cbn in Er.
        - injection Er as <-. cbn; lia.
        - destruct (Store.eraseKeeps x y radius b) as [keep|]; [|discriminate].
          destruct (Store.filterThrow _ scene) as [rest'|]; [|discriminate].
          injection Er as <-. specialize (IH rest' eq_refl).
          destruct keep; cbn; lia. }
      destruct keep; cbn [List.length] in Hlen; [|lia].
      f_equal. apply (IH rest eq_refl); [lia|]. eapply erased_again; exact Er. }
  split; [|split].
  - rewrite Hstrokes. apply (erased_from_scene _ _ _ Hk).
  - rewrite Hstrokes. clear -Hk. revert kept Hk.
    induction (Store.strokes st) as [|b scene IH]; intros kept Hk; cbn in Hk.
    + injection Hk as <-. cbn; lia.
    + destruct (Store.eraseKeeps x y radius b) as [keep|]; [|discriminate].
      destruct (Store.filterThrow _ scene) as [rest'|]; [|discriminate].
      injection Hk as <-. specialize (IH rest' eq_refl).
      destruct keep; cbn; lia.
  - unfold Store.eraseAtPoint. rewrite Hstrokes, (erased_again _ _ _ Hk).
    rewrite Nat.eqb_refl. reflexivity.
Qed.

Lemma X26_witness :
  Store.eraseAtPoint 20 20 5 Store.initialState = Some Store.initialState.
Proof.
  exact (proj2 (proj2 (X26_eraseAtPoint_idempotent 20 20 5 Store.initialState
                         Store.initialState eq_refl))).
Defined.



(** ** The computed properties *)

(** X30: the store never reads [canUndo] or [canRedo] as true.  Both are
    accessors of the object the creator returns and give false in the
    initial state; the first [set] merges them into the state as data
    properties with that value, and no action writes them again.  So in
    every state reached from the initial one both read false, also where the
    history has an earlier snapshot and [undo], which tests [historyIndex]
    itself, steps back to it. *)
Theorem X30_computed_properties_read_false :
  forall (ctx : Ctx2d) (st : Store.State),
    Store.reachable ctx st ->
    Store.canUndo st = false
    /\ Store.canRedo st = false
    /\ (Store.get_canUndo st = true ->
        exists back,
          Store.undo st = Some back
          /\ Store.historyIndex back = (Store.historyIndex st - 1)%Z
          /\ JS.index (Store.history st) (Store.historyIndex st - 1)
             = Some (Store.strokes back))
    /\ (forall op st', Store.step ctx op st = Some st' ->
          Store.canUndo st' = false /\ Store.canRedo st' = false).
Proof.
  intros ctx st Hreach.
  destruct (reachable_reads_false ctx st Hreach) as [Hu Hr].
  split; [exact Hu|]. split; [exact Hr|]. split.
  - intros Hget. unfold Store.get_canUndo in Hget. unfold Store.undo. rewrite Hget.
    destruct (reachable_indexInRange ctx st Hreach) as [H0 H1].
    apply Z.ltb_lt in Hget.
    destruct (index_in_range _ (Store.history st) (Store.historyIndex st - 1))
      as (previous & Hs); [lia|].
    rewrite Hs. eexists. split; [reflexivity|]. split; reflexivity.
  - intros op st' Hstep.
    exact (reachable_reads_false ctx st' (Store.reach_step ctx st op st' Hreach Hstep)).
Qed.

Lemma X30_witness :
  Store.get_canUndo onePenState = true /\ Store.canUndo onePenState = false.
Proof.
  split; [reflexivity|].
  exact (proj1 (X30_computed_properties_read_false monoCtx onePenState
                  onePenState_reachable)).
Defined.

(** ** Drawing a shape *)

Lemma shape_actions_idle (point : Point) (st : Store.State) :
  Store.currentStroke st = None ->
  Store.finishShape st = st /\ Store.updateShape point st = st.
Proof.
  intros H. unfold Store.finishShape, Store.updateShape. rewrite H. split; reflexivity.
Qed.

(** X28: a shape gesture.  After [startShape], any number of pointer moves
    leave only the last position: [updateShape] overwrites the end point.
    [finishShape] appends one stroke of the current tool's type with the
    press point and the last pointer position as its diagonal, in the
    current colour and width, pushes that scene as one snapshot, switches
    to the select tool and ends the gesture; a second [finishShape], or an
    [updateShape] after it, does nothing. *)
Theorem X28_shape_gesture :
  forall (now : string) (p q1 q2 : Point) (st : Store.State),
    let started := Store.startShape now p st in
    let finished := Store.finishShape (Store.updateShape q2 (Store.updateShape q1 started)) in
    Store.updateShape q2 (Store.updateShape q1 started) = Store.updateShape q2 started
    /\ Store.strokes finished
       = Store.strokes st
         ++ [Stroke.withEndPoint q2
               (StrokeUtils.createShapeStroke now (Store.currentTool st) p p
                  (Store.currentColor st) (Store.currentStrokeWidth st))]
    /\ Store.history finished
       = JS.slice0 (Store.history st) (Store.historyIndex st + 1)
         ++ [Store.strokes finished]
    /\ Store.currentTool finished = Tool.select
    /\ Store.currentStroke finished = None
    /\ Store.isDrawingShape finished = false
    /\ Store.shapeStartPoint finished = None
    /\ Store.finishShape finished = finished
    /\ Store.updateShape q1 finished = finished
    /\ (isShapeType (Store.currentTool st) = true ->
        forall s, In s (Store.strokes finished) ->
                  In s (Store.strokes st) \/ wellFormed s).
Proof.
  intros now p q1 q2 st started finished.
  assert (Hnone : Store.currentStroke finished = None)
    by (subst finished started; destruct st; reflexivity).
  destruct (shape_actions_idle q1 finished Hnone) as [Hfinish Hupdate].
  split; [subst started; destruct st; reflexivity|].
  split; [subst finished started; destruct st; reflexivity|].
  split; [subst finished started; destruct st; reflexivity|].
  split; [subst finished started; destruct st; reflexivity|].
  split; [exact Hnone|].
  split; [subst finished started; destruct st; reflexivity|].
  split; [subst finished started; destruct st; reflexivity|].
  split; [exact Hfinish|]. split; [exact Hupdate|].
  intros Hty s Hs.
  assert (Hscene : Store.strokes finished
                   = Store.strokes st
                     ++ [Stroke.withEndPoint q2
                           (StrokeUtils.createShapeStroke now (Store.currentTool st) p p
                              (Store.currentColor st) (Store.currentStrokeWidth st))])
    by (subst finished started; destruct st; reflexivity).
  rewrite Hscene in Hs. apply in_app_or in Hs.
  destruct Hs as [Hs|[<-|[]]]; [left; exact Hs|]. right.
  unfold wellFormed.
  cbn [Stroke.type Stroke.withEndPoint StrokeUtils.createShapeStroke Stroke.startPoint
       Stroke.endPoint Stroke.points].
  destruct (Store.currentTool st); try discriminate;
    (split; [exists p, q2; split; reflexivity|reflexivity]).
Qed.

Lemma X28_witness :
  isShapeType (Store.currentTool (Store.setCurrentTool Tool.rectangle Store.initialState))
  = true
  /\ (forall s,
         In s (Store.strokes
                 (Store.finishShape
                    (Store.updateShape (Point.mk 3 4)
                       (Store.updateShape (Point.mk 1 1)
                          (Store.startShape "s" (Point.mk 0 0)
                             (Store.setCurrentTool Tool.rectangle Store.initialState)))))) ->
         In s (Store.strokes (Store.setCurrentTool Tool.rectangle Store.initialState))
         \/ wellFormed s).
Proof.
  split; [reflexivity|].
  exact (proj2 (proj2 (proj2 (proj2 (proj2 (proj2 (proj2 (proj2 (proj2
           (X28_shape_gesture "s" (Point.mk 0 0) (Point.mk 1 1) (Point.mk 3 4)
              (Store.setCurrentTool Tool.rectangle Store.initialState)))))))))) eq_refl).
Defined.

Lemma X10_witness :
  HitDetector.getResizeHandle None (Point.mk 0 0) ["a"; "b"]%string [rectNear; rectFar] 1
    (StrokeUtils.calculateBounds None) = None.
Proof.
  refine (proj1 (X10_getResizeHandle_guards None (Point.mk 0 0) ["a"; "b"]%string
                   [rectNear; rectFar] 1 (StrokeUtils.calculateBounds None)) _).
  cbn. lia.
Defined.
